(** * CalcAgent: the expression-reduction engine

    A shallow embedding of [src/ustils.py], [src/tools.py] and the
    LangGraph state machine of [src/graph.py], with the properties the
    specification states about them.

    Conventions.
    - A Python [str] is a list of characters; characters are the 256
      code points of Latin-1, classified the way Python classifies them.
      Texts with other characters (the decimal digits of other scripts,
      for one, which the regular expression's digit class and [float]
      accept) are outside the model.
    - A Python [float] is an IEEE 754 binary64 value ([spec_float] with
      precision 53 and maximal exponent 1024).
    - A Python exception is a value of [exn]; a function that may raise
      returns a [result]. *)

From Stdlib Require Import Ascii String.
From Stdlib Require Import ZArith List Bool Lia Arith.
From Stdlib Require Import SpecFloat.
Import ListNotations.

Open Scope bool_scope.
Open Scope list_scope.

(* ================================================================== *)
(** * Python values *)
(* ================================================================== *)

Definition str := list ascii.

(** Reads a string literal as a Python [str]. *)
Definition py (s : string) : str := list_ascii_of_string s.

Definition str_eqb (a b : str) : bool :=
  if list_eq_dec ascii_dec a b then true else false.

Inductive exn : Type :=
| IndexError
| KeyError
| ValueError
| TypeError
| OverflowError
| AttributeError
| CollaboratorError (msg : str).

Inductive result (A : Type) : Type :=
| Ok (a : A)
| Raise (e : exn).
Arguments Ok {A} a.
Arguments Raise {A} e.

Definition bind {A B : Type} (r : result A) (k : A -> result B) : result B :=
  match r with
  | Ok a => k a
  | Raise e => Raise e
  end.

Notation "x <- r ;; k" := (bind r (fun x => k))
  (at level 61, r at next level, right associativity).

(** [c in s] for a character [c] and a literal [s]. *)
Definition char_in (c : ascii) (s : string) : bool :=
  existsb (Ascii.eqb c) (py s).

(** [str.isspace] on one Latin-1 character. *)
Definition isspace (c : ascii) : bool :=
  let n := nat_of_ascii c in
  ((9 <=? n) && (n <=? 13)) || ((28 <=? n) && (n <=? 32))
  || (n =? 133) || (n =? 160).

(** [str.isdigit] on one Latin-1 character: the ASCII digits and the
    superscripts two, three and one. *)
Definition isdigit (c : ascii) : bool :=
  let n := nat_of_ascii c in
  ((48 <=? n) && (n <=? 57)) || (n =? 178) || (n =? 179) || (n =? 185).

(** The regular-expression class [\d] on Latin-1: the ASCII digits. *)
Definition is_decimal (c : ascii) : bool :=
  let n := nat_of_ascii c in (48 <=? n) && (n <=? 57).

Fixpoint lstrip (s : str) : str :=
  match s with
  | c :: r => if isspace c then lstrip r else s
  | [] => []
  end.

(** [str.strip()]. *)
Definition strip (s : str) : str := rev (lstrip (rev (lstrip s))).

(** Normalisation of a slice bound against a length. *)
Definition slice_bound (len : nat) (i : Z) : nat :=
  let j := if (i <? 0)%Z then (i + Z.of_nat len)%Z else i in
  if (j <? 0)%Z then 0 else Nat.min (Z.to_nat j) len.

(** [s[:i]] and [s[i:]]. *)
Definition slice_to {A : Type} (s : list A) (i : Z) : list A :=
  firstn (slice_bound (length s) i) s.

Definition slice_from {A : Type} (s : list A) (i : Z) : list A :=
  skipn (slice_bound (length s) i) s.

(** [s[i]], raising [IndexError] out of range. *)
Definition getitem {A : Type} (s : list A) (i : Z) : result A :=
  let j := if (i <? 0)%Z then (i + Z.of_nat (length s))%Z else i in
  if (j <? 0)%Z then Raise IndexError
  else match nth_error s (Z.to_nat j) with
       | Some a => Ok a
       | None => Raise IndexError
       end.

(* ================================================================== *)
(** * ustils.py: tokenizer *)
(* ================================================================== *)

Inductive token_type : Type := T_number | T_operator.

(** A token dictionary: ["type"], ["value"], ["start"], ["end"]. *)
Record token : Type := mkToken {
  tok_type : token_type;
  tok_value : str;
  tok_start : nat;
  tok_end : nat
}.

Definition OPERATOR_PRIORITY (op : str) : option Z :=
  if str_eqb op (py "+") then Some 1%Z
  else if str_eqb op (py "-") then Some 1%Z
  else if str_eqb op (py "*") then Some 2%Z
  else if str_eqb op (py "/") then Some 2%Z
  else None.

Definition OPERATOR_TO_TOOL (op : str) : option str :=
  if str_eqb op (py "+") then Some (py "add")
  else if str_eqb op (py "-") then Some (py "sub")
  else if str_eqb op (py "*") then Some (py "mul")
  else if str_eqb op (py "/") then Some (py "div")
  else None.

(** Length of the longest prefix of [isdigit] characters: the loop
    [while i < len(expr) and expr[i].isdigit(): i += 1]. *)
Fixpoint skip_digits (s : str) : nat :=
  match s with
  | c :: r => if isdigit c then S (skip_digits r) else 0
  | [] => 0
  end.

(** The steps of the number branch of [parse_expression], each run on
    [expr[i:]] and giving how far it advances [i]: the sign, *)
Definition scan_sign (rest : str) : nat :=
  match rest with
  | c :: _ => if char_in c "+-" then 1 else 0
  | [] => 0
  end.

(** the point with the digits after it, *)
Definition scan_fraction (rest : str) : nat :=
  match rest with
  | c :: r => if Ascii.eqb c "." then 1 + skip_digits r else 0
  | [] => 0
  end.

(** and the exponent mark with its sign and digits. *)
Definition scan_exponent (rest : str) : nat :=
  match rest with
  | c :: r =>
      if char_in c "eE" then
        let n := scan_sign r in
        1 + n + skip_digits (skipn n r)
      else 0
  | [] => 0
  end.

(** The number branch of [parse_expression], run on [rest = expr[i:]];
    the result is how far [i] advances past [start]. *)
Definition scan_number (rest : str) : nat :=
  let i0 := scan_sign rest in
  let i1 := i0 + skip_digits (skipn i0 rest) in
  let i2 := i1 + scan_fraction (skipn i1 rest) in
  i2 + scan_exponent (skipn i2 rest).

(** [tokens and tokens[-1]["type"] == "number"]. *)
Definition last_is_number (tokens : list token) : bool :=
  match rev tokens with
  | t :: _ => match tok_type t with T_number => true | T_operator => false end
  | [] => false
  end.

(** The [while i < len(expr)] loop on [rest = expr[i:]].  Every
    iteration advances [i] by at least one, so [fuel = len(expr)]
    iterations are enough (lemma [tokenize_fuel]). *)
Fixpoint tokenize (fuel : nat) (rest : str) (i : nat) (tokens : list token)
  : list token :=
  match fuel with
  | O => tokens
  | S fuel' =>
      match rest with
      | [] => tokens
      | c :: rest' =>
          if isspace c then tokenize fuel' rest' (i + 1) tokens
          else if char_in c "+-*/" && last_is_number tokens then
            tokenize fuel' rest' (i + 1)
                     (tokens ++ [mkToken T_operator [c] i (i + 1)])
          else if isdigit c || char_in c "+-" || Ascii.eqb c "." then
            let n := scan_number rest in
            tokenize fuel' (skipn n rest) (i + n)
                     (tokens ++ [mkToken T_number (firstn n rest) i (i + n)])
          else if char_in c "()" then tokenize fuel' rest' (i + 1) tokens
          else tokenize fuel' rest' (i + 1) tokens
      end
  end.

Definition parse_expression (expr : str) : list token :=
  let expr := strip expr in
  tokenize (length expr) expr 0 [].

(* ================================================================== *)
(** * ustils.py: precedence resolver *)
(* ================================================================== *)

(** The dictionary [find_next_operation] returns. *)
Record pending : Type := mkPending {
  p_operator : str;
  p_lhs : str;
  p_rhs : str;
  p_span : nat * nat;
  p_tool : str
}.

(** The [for i, token in enumerate(tokens)] loop. *)
Fixpoint best_operator (tokens : list token) (i : nat)
         (best_op_idx : option nat) (best_priority : Z) : option nat :=
  match tokens with
  | [] => best_op_idx
  | token :: rest =>
      match tok_type token with
      | T_operator =>
          let priority := match OPERATOR_PRIORITY (tok_value token) with
                          | Some p => p
                          | None => 0%Z
                          end in
          if (best_priority <? priority)%Z
          then best_operator rest (S i) (Some i) priority
          else best_operator rest (S i) best_op_idx best_priority
      | T_number => best_operator rest (S i) best_op_idx best_priority
      end
  end.

Definition find_next_operation (tokens : list token) (original_expr : str)
  : result (option pending) :=
  if length tokens <? 3 then Ok None
  else
    match best_operator tokens 0 None (-1)%Z with
    | None => Ok None
    | Some best_op_idx =>
        op_token <- getitem tokens (Z.of_nat best_op_idx) ;;
        lhs_token <- getitem tokens (Z.of_nat best_op_idx - 1)%Z ;;
        rhs_token <- getitem tokens (Z.of_nat best_op_idx + 1)%Z ;;
        match OPERATOR_TO_TOOL (tok_value op_token) with
        | None => Raise KeyError
        | Some tool =>
            Ok (Some (mkPending (tok_value op_token)
                                (tok_value lhs_token)
                                (tok_value rhs_token)
                                (tok_start lhs_token, tok_end rhs_token)
                                tool))
        end
    end.

(* ================================================================== *)
(** * ustils.py: span rewriter *)
(* ================================================================== *)

(** [replace_span(expr, [start, end], replacement)] on integer bounds,
    with Python's indexing and slicing (negative bounds count from the
    end, slices clamp, indexing raises). *)
Definition replace_span (expr : str) (span : Z * Z) (replacement : str)
  : result str :=
  let '(start, end_) := span in
  widened <-
    (if (0 <? start)%Z && (end_ <? Z.of_nat (length expr))%Z then
       before <- getitem expr (start - 1)%Z ;;
       if Ascii.eqb before "(" then
         after <- getitem expr end_ ;;
         if Ascii.eqb after ")" then Ok ((start - 1)%Z, (end_ + 1)%Z)
         else Ok (start, end_)
       else Ok (start, end_)
     else Ok (start, end_)) ;;
  let '(start, end_) := widened in
  Ok (slice_to expr start ++ replacement ++ slice_from expr end_).

(* ================================================================== *)
(** * Python floats and integers *)
(* ================================================================== *)

Definition prec : Z := 53.
Definition emax : Z := 1024.

Definition float := spec_float.

(** JSON values, as [json.loads] builds them. *)
#[warnings="-register-all"]
Inductive json : Type :=
| JNull
| JBool (b : bool)
| JInt (z : Z)
| JFloat (f : float)
| JStr (s : str)
| JArr (l : list json)
| JObj (l : list (str * json)).

(** The rational [num / den] ([den > 0]) rounded to the nearest integer,
    ties to even. *)
Definition round_half_even (num den : Z) : Z :=
  let q := (num / den)%Z in
  match (2 * (num mod den) ?= den)%Z with
  | Lt => q
  | Gt => (q + 1)%Z
  | Eq => if Z.even q then q else (q + 1)%Z
  end.

(** The positive rational [num / den] rounded to binary64, ties to
    even; overflow gives an infinity, underflow a subnormal or zero. *)
Definition float_of_ratio (neg : bool) (num den : Z) : float :=
  match num with
  | Z0 => S754_zero neg
  | _ =>
      if (den =? 1)%Z then binary_normalize prec emax (cond_Zopp neg num) 0 neg
      else
        let '(q, e, l) := SFdiv_core_binary prec emax num 0 den 0 in
        binary_round_aux prec emax neg q e l
  end.

(** [float(i)] for an [int]. *)
Definition float_of_int (i : Z) : result float :=
  match binary_normalize prec emax i 0 false with
  | S754_infinity _ => Raise OverflowError
  | f => Ok f
  end.

(** [int(value)]: truncation towards zero. *)
Definition int_of_float (value : float) : result Z :=
  match value with
  | S754_nan => Raise ValueError
  | S754_infinity _ => Raise OverflowError
  | S754_zero _ => Ok 0%Z
  | S754_finite s m e =>
      Ok (cond_Zopp s
            match e with
            | Zneg p => (Zpos m / 2 ^ Zpos p)%Z
            | _ => (Zpos m * 2 ^ e)%Z
            end)
  end.

(** [value == i] for a float and an int: exact comparison. *)
Definition float_eq_int (value : float) (i : Z) : bool :=
  match value with
  | S754_zero _ => (i =? 0)%Z
  | S754_finite s m e =>
      match e with
      | Zneg p => (cond_Zopp s (Zpos m) =? i * 2 ^ Zpos p)%Z
      | _ => (cond_Zopp s (Zpos m * 2 ^ e) =? i)%Z
      end
  | _ => false
  end.

(* ------------------------------------------------------------------ *)
(** ** Decimal text of integers *)

Definition digit_char (d : Z) : ascii := ascii_of_nat (48 + Z.to_nat d).

Definition digit_value (c : ascii) : Z := Z.of_nat (nat_of_ascii c - 48).

Fixpoint digits_loop (fuel : nat) (n : Z) (acc : str) : str :=
  match fuel with
  | O => acc
  | S fuel' =>
      let acc' := digit_char (n mod 10) :: acc in
      if (n <? 10)%Z then acc' else digits_loop fuel' (n / 10) acc'
  end.

(** Decimal digits of a natural number, most significant first. *)
Definition str_nat (n : Z) : str :=
  digits_loop (S (Z.to_nat (Z.log2 n))) n [].

(** [str(i)] for an [int]. *)
Definition str_int (i : Z) : str :=
  if (i <? 0)%Z then "-"%char :: str_nat (- i) else str_nat i.

(** Value of a string of decimal digits. *)
Definition digits_value (s : str) : Z :=
  fold_left (fun acc c => (10 * acc + digit_value c)%Z) s 0%Z.

(* ------------------------------------------------------------------ *)
(** ** [format(value, "g")] *)

Fixpoint exp10_up (fuel : nat) (num den x : Z) : Z :=
  match fuel with
  | O => x
  | S fuel' =>
      if (10 * den <=? num)%Z then exp10_up fuel' num (10 * den) (x + 1) else x
  end.

Fixpoint exp10_down (fuel : nat) (num den x : Z) : Z :=
  match fuel with
  | O => x
  | S fuel' =>
      if (num <? den)%Z then exp10_down fuel' (10 * num) den (x - 1) else x
  end.

(** The decimal exponent of [num / den > 0]: the [x] with
    [10^x <= num / den < 10^(x+1)]. *)
Definition decimal_exponent (num den : Z) : Z :=
  if (den <=? num)%Z then exp10_up (S (Z.to_nat (Z.log2 num))) num den 0
  else exp10_down (S (Z.to_nat (Z.log2 den))) num den 0.

(** [num / den * 10^k] rounded to an integer, ties to even. *)
Definition scaled_round (num den k : Z) : Z :=
  if (0 <=? k)%Z then round_half_even (num * 10 ^ k) den
  else round_half_even num (den * 10 ^ (- k)).

(** Six significant digits of [num / den > 0] and their decimal
    exponent. *)
Definition six_digits (num den : Z) : Z * Z :=
  let x := decimal_exponent num den in
  let n := scaled_round num den (5 - x) in
  if (n =? 1000000)%Z then (100000%Z, (x + 1)%Z) else (n, x).

Definition digits6 (n : Z) : str :=
  map (fun k => digit_char ((n / 10 ^ k) mod 10)) [5; 4; 3; 2; 1; 0]%Z.

Fixpoint drop_zeros (s : str) : str :=
  match s with
  | c :: r => if Ascii.eqb c "0" then drop_zeros r else s
  | [] => []
  end.

Definition strip_trailing_zeros (s : str) : str := rev (drop_zeros (rev s)).

Definition with_point (int_part frac : str) : str :=
  match frac with
  | [] => int_part
  | _ => int_part ++ "."%char :: frac
  end.

Definition exponent_text (x : Z) : str :=
  (if (x <? 0)%Z then "-"%char else "+"%char)
    :: (if (Z.abs x <? 10)%Z then "0"%char :: str_nat (Z.abs x)
        else str_nat (Z.abs x)).

(** The text of [num / den > 0] in the general format with precision 6:
    scientific notation when the exponent is below -4 or at least 6,
    trailing zeros removed. *)
Definition format_g_pos (num den : Z) : str :=
  let '(n, x) := six_digits num den in
  let d := digits6 n in
  if (x <? -4)%Z || (6 <=? x)%Z then
    with_point (firstn 1 d) (strip_trailing_zeros (skipn 1 d))
      ++ "e"%char :: exponent_text x
  else if (0 <=? x)%Z then
    with_point (firstn (Z.to_nat x + 1) d)
               (strip_trailing_zeros (skipn (Z.to_nat x + 1) d))
  else
    with_point ["0"%char]
               (strip_trailing_zeros (repeat "0"%char (Z.to_nat (- x - 1)) ++ d)).

(** [f"{value:g}"]. *)
Definition format_g (value : float) : str :=
  match value with
  | S754_nan => py "nan"
  | S754_infinity s => if s then py "-inf" else py "inf"
  | S754_zero s => if s then py "-0" else py "0"
  | S754_finite s m e =>
      (if s then ["-"%char] else [])
        ++ match e with
           | Zneg p => format_g_pos (Zpos m) (2 ^ Zpos p)
           | _ => format_g_pos (Zpos m * 2 ^ e) 1
           end
  end.

(* ================================================================== *)
(** * ustils.py: number formatter *)
(* ================================================================== *)

Definition format_number (value : float) : result str :=
  i <- int_of_float value ;;
  if float_eq_int value i then Ok (str_int i) else Ok (format_g value).

(* ================================================================== *)
(** * ustils.py: number recogniser, and [float] on text *)
(* ================================================================== *)

(** Longest prefix of [\d] characters, and what follows it. *)
Fixpoint take_decimal (s : str) : str * str :=
  match s with
  | c :: r =>
      if is_decimal c then let '(d, r') := take_decimal r in (c :: d, r')
      else ([], s)
  | [] => ([], [])
  end.

(** An optional sign: whether it is a minus, and what follows it. *)
Definition take_sign (s : str) : bool * str :=
  match s with
  | c :: r =>
      if Ascii.eqb c "-" then (true, r)
      else if Ascii.eqb c "+" then (false, r)
      else (false, s)
  | [] => (false, s)
  end.

(** The groups of a number literal: sign, digits before and after the
    point, and the signed exponent digits. *)
Record numlit : Type := mkNumlit {
  nl_neg : bool;
  nl_int : str;
  nl_frac : str;
  nl_exp_neg : bool;
  nl_exp : str
}.

(** A whole-string match of
    [^[+-]?(\d+\.?\d*|\d*\.?\d+)([eE][+-]?\d+)?$]. *)
Definition match_number (s : str) : option numlit :=
  let '(neg, s1) := take_sign s in
  let '(ip, s2) := take_decimal s1 in
  let '(fp, s3) := match s2 with
                   | c :: r => if Ascii.eqb c "." then take_decimal r
                               else ([], s2)
                   | [] => ([], s2)
                   end in
  match ip ++ fp with
  | [] => None
  | _ :: _ =>
      match s3 with
      | [] => Some (mkNumlit neg ip fp false [])
      | c :: r =>
          if char_in c "eE" then
            let '(eneg, r1) := take_sign r in
            let '(ed, r2) := take_decimal r1 in
            match ed, r2 with
            | _ :: _, [] => Some (mkNumlit neg ip fp eneg ed)
            | _, _ => None
            end
          else None
      end
  end.

Definition is_single_number (expr : str) : bool :=
  let expr := strip expr in
  match expr with
  | [] => false
  | _ :: _ => match match_number expr with Some _ => true | None => false end
  end.

(** The binary64 value nearest to a number literal. *)
Definition float_of_numlit (l : numlit) : float :=
  let m := digits_value (nl_int l ++ nl_frac l) in
  let e := (cond_Zopp (nl_exp_neg l) (digits_value (nl_exp l))
            - Z.of_nat (length (nl_frac l)))%Z in
  if (0 <=? e)%Z then float_of_ratio (nl_neg l) (m * 10 ^ e) 1
  else float_of_ratio (nl_neg l) m (10 ^ (- e)).

Definition lower (c : ascii) : ascii :=
  let n := nat_of_ascii c in
  if (65 <=? n) && (n <=? 90) then ascii_of_nat (n + 32) else c.

(** Removal of the underscores a numeric literal may carry between two
    digits; [None] when one is misplaced. *)
Fixpoint remove_underscores (prev : option ascii) (s : str) : option str :=
  match s with
  | [] => match prev with
          | Some p => if Ascii.eqb p "_" then None else Some []
          | None => Some []
          end
  | c :: r =>
      if Ascii.eqb c "_" then
        match prev with
        | Some p => if is_decimal p then remove_underscores (Some c) r else None
        | None => None
        end
      else
        match prev with
        | Some p =>
            if Ascii.eqb p "_" && negb (is_decimal c) then None
            else option_map (cons c) (remove_underscores (Some c) r)
        | None => option_map (cons c) (remove_underscores (Some c) r)
        end
  end.

(** The whitespace [float] removes at both ends of a [str]: the ASCII
    whitespace of C, and the whitespace above U+007F, which it first
    turns into spaces.  The separators U+001C to U+001F, which
    [str.strip] removes, are not among it. *)
Definition float_space (c : ascii) : bool :=
  let n := nat_of_ascii c in
  ((9 <=? n) && (n <=? 13)) || (n =? 32) || (n =? 133) || (n =? 160).

Fixpoint lstrip_float (s : str) : str :=
  match s with
  | c :: r => if float_space c then lstrip_float r else s
  | [] => []
  end.

Definition strip_float (s : str) : str :=
  rev (lstrip_float (rev (lstrip_float s))).

(** [float(s)] for a [str]. *)
Definition py_float (s : str) : result float :=
  let s := strip_float s in
  match remove_underscores None s with
  | None => Raise ValueError
  | Some s' =>
      match match_number s' with
      | Some l => Ok (float_of_numlit l)
      | None =>
          let '(neg, name) := take_sign (map lower s) in
          if str_eqb name (py "inf") || str_eqb name (py "infinity")
          then Ok (S754_infinity neg)
          else if str_eqb name (py "nan") then Ok S754_nan
          else Raise ValueError
      end
  end.

(* ================================================================== *)
(** * tools.py *)
(* ================================================================== *)

Definition value_dict (v : float) : json := JObj [(py "value", JFloat v)].
Definition error_dict (msg : str) : json := JObj [(py "error", JStr msg)].

(** [x == 0] for a float. *)
Definition float_is_zero (x : float) : bool := SFeqb x (S754_zero false).

Definition add (lhs rhs : float) : json := value_dict (SFadd prec emax lhs rhs).
Definition sub (lhs rhs : float) : json := value_dict (SFsub prec emax lhs rhs).
Definition mul (lhs rhs : float) : json := value_dict (SFmul prec emax lhs rhs).
Definition div (lhs rhs : float) : json :=
  if float_is_zero rhs then error_dict (py "division by zero")
  else value_dict (SFdiv prec emax lhs rhs).

(** [CALC_TOOLS], looked up by tool name. *)
Definition CALC_TOOLS (name : str) : option (float -> float -> json) :=
  if str_eqb name (py "add") then Some add
  else if str_eqb name (py "sub") then Some sub
  else if str_eqb name (py "mul") then Some mul
  else if str_eqb name (py "div") then Some div
  else None.

(** [TOOL_MAP]: operator symbol to tool name. *)
Definition TOOL_MAP (op : str) : option str :=
  if str_eqb op (py "+") then Some (py "add")
  else if str_eqb op (py "-") then Some (py "sub")
  else if str_eqb op (py "*") then Some (py "mul")
  else if str_eqb op (py "/") then Some (py "div")
  else None.

(* ================================================================== *)
(** * state.py and graph.py: the reduction loop *)
(* ================================================================== *)

(** A tool call of an AI message: the tool's name and, when they
    validate as two floats, its arguments. *)
Record tool_call : Type := mkCall {
  tc_name : str;
  tc_args : option (float * float)
}.

(** The content of a [ToolMessage]: text that [json.loads] reads as the
    value [j], or text that it rejects. *)
Inductive tool_content : Type :=
| ContentJson (j : json)
| ContentText (s : str).

Inductive message : Type :=
| AIMessage (tool_calls : list tool_call)
| ToolMessage (content : tool_content).

(** [CalcState].  A key that is missing reads as [None] through
    [state.get], so both are [JNull]. *)
Record CalcState : Type := mkState {
  st_expression : list str;
  st_messages : list message;
  st_operator : json;
  st_lhs : json;
  st_rhs : json;
  st_span : json;
  st_tool : json;
  st_error : json
}.

(** The dictionary a node returns: the keys it sets. *)
Record update : Type := mkUpdate {
  u_expression : option (list str);
  u_messages : list message;
  u_operator : option json;
  u_lhs : option json;
  u_rhs : option json;
  u_span : option json;
  u_tool : option json;
  u_error : option json
}.

Definition no_update : update :=
  mkUpdate None [] None None None None None None.

Definition error_update (e : json) : update :=
  mkUpdate None [] None None None None None (Some e).

Definition or_keep {A : Type} (new : option A) (old : A) : A :=
  match new with Some a => a | None => old end.

(** How the graph merges a node's result into the state: a returned key
    overwrites, except [messages], which [add_messages] appends. *)
Definition apply_update (st : CalcState) (u : update) : CalcState :=
  mkState (or_keep (u_expression u) (st_expression st))
          (st_messages st ++ u_messages u)
          (or_keep (u_operator u) (st_operator st))
          (or_keep (u_lhs u) (st_lhs st))
          (or_keep (u_rhs u) (st_rhs st))
          (or_keep (u_span u) (st_span st))
          (or_keep (u_tool u) (st_tool st))
          (or_keep (u_error u) (st_error st)).

(** Python truth value. *)
Definition truthy (j : json) : bool :=
  match j with
  | JNull => false
  | JBool b => b
  | JInt z => negb (z =? 0)%Z
  | JFloat f => negb (float_is_zero f)
  | JStr s => match s with [] => false | _ => true end
  | JArr l => match l with [] => false | _ => true end
  | JObj l => match l with [] => false | _ => true end
  end.

(** [key in d] on the pairs of a dictionary. *)
Definition dict_has (d : list (str * json)) (key : str) : bool :=
  existsb (fun kv => str_eqb (fst kv) key) d.

(** [d.get(key)]; when a key is repeated its last pair wins. *)
Fixpoint dict_get (d : list (str * json)) (key : str) : json :=
  match d with
  | [] => JNull
  | (k, v) :: r =>
      if dict_has r key then dict_get r key
      else if str_eqb k key then v else JNull
  end.

(** The value passed in as ["expression"] to [graph.invoke]. *)
Inductive expression_arg : Type :=
| ExprMissing
| ExprStr (s : str)
| ExprList (l : list str).

Definition start_node (expression : expression_arg) : list str :=
  match expression with
  | ExprStr s => [s]
  | ExprMissing => [py "0"]
  | ExprList [] => [py "0"]
  | ExprList l => l
  end.

Inductive route : Type := to_calc_node | to_judge_node | to_end.

Definition route_after_judge (state : CalcState) : route :=
  if truthy (st_error state) then to_end
  else
    match rev (st_expression state) with
    | cur :: _ =>
        if is_single_number cur then to_end
        else if truthy (st_operator state) then to_calc_node else to_end
    | [] => if truthy (st_operator state) then to_calc_node else to_end
    end.

Definition route_after_update (state : CalcState) : route :=
  if truthy (st_error state) then to_end else to_judge_node.

(** [float(value)] for a JSON value. *)
Definition float_of_json (value : json) : result float :=
  match value with
  | JFloat f => Ok f
  | JInt z => float_of_int z
  | JBool b => float_of_int (if b then 1 else 0)
  | JStr s => py_float s
  | _ => Raise TypeError
  end.

(** The keys of a dictionary [json.loads] built, each once. *)
Fixpoint dict_keys (d : list (str * json)) : list str :=
  match d with
  | [] => []
  | (k, _) :: r => k :: filter (fun k' => negb (str_eqb k' k)) (dict_keys r)
  end.

(** [start, end = span]: a list of two, a string of two characters and
    a dictionary of two keys unpack; any other length is a
    [ValueError], and a value that is not iterable a [TypeError]. *)
Definition unpack_pair (span : json) : result (json * json) :=
  match span with
  | JArr [a; b] => Ok (a, b)
  | JArr _ => Raise ValueError
  | JStr [a; b] => Ok (JStr [a], JStr [b])
  | JStr _ => Raise ValueError
  | JObj d =>
      match dict_keys d with
      | [a; b] => Ok (JStr a, JStr b)
      | _ => Raise ValueError
      end
  | JNull | JBool _ | JInt _ | JFloat _ => Raise TypeError
  end.

(** A bound of a span, as the comparisons, the indexing and the slicing
    of [replace_span] see it: an [int] (or [bool]), a [float], [None],
    or a value of another type. *)
Inductive bound : Type :=
| BInt (z : Z)
| BFloat (f : float)
| BNone
| BOther.

Definition bound_of_json (j : json) : bound :=
  match j with
  | JInt z => BInt z
  | JBool b => BInt (if b then 1 else 0)
  | JFloat f => BFloat f
  | JNull => BNone
  | JStr _ | JArr _ | JObj _ => BOther
  end.

(** [b > 0] and [b < n]. *)
Definition bound_positive (b : bound) : result bool :=
  match b with
  | BInt z => Ok (0 <? z)%Z
  | BFloat f => Ok (SFltb (S754_zero false) f)
  | BNone | BOther => Raise TypeError
  end.

Definition bound_below (b : bound) (n : nat) : result bool :=
  match b with
  | BInt z => Ok (z <? Z.of_nat n)%Z
  | BFloat f => Ok (SFltb f (binary_normalize prec emax (Z.of_nat n) 0 false))
  | BNone | BOther => Raise TypeError
  end.

(** [b + d] for a bound that passed a comparison. *)
Definition bound_shift (b : bound) (d : Z) : bound :=
  match b with
  | BInt z => BInt (z + d)
  | BFloat f => BFloat (SFadd prec emax f (binary_normalize prec emax d 0 false))
  | BNone | BOther => b
  end.

(** [expr[b]], [expr[:b]] and [expr[b:]]. *)
Definition bound_index (expr : str) (b : bound) : result ascii :=
  match b with
  | BInt z => getitem expr z
  | BFloat _ | BNone | BOther => Raise TypeError
  end.

Definition bound_slice_to (expr : str) (b : bound) : result str :=
  match b with
  | BInt z => Ok (slice_to expr z)
  | BNone => Ok expr
  | BFloat _ | BOther => Raise TypeError
  end.

Definition bound_slice_from (expr : str) (b : bound) : result str :=
  match b with
  | BInt z => Ok (slice_from expr z)
  | BNone => Ok expr
  | BFloat _ | BOther => Raise TypeError
  end.

(** [replace_span(cur_expr, span, value_str)] on the span the state
    holds, whatever JSON value it is: the statements of [replace_span]
    in their order, each with the exception Python raises on a value
    it cannot use.  On a list of two integers this is [replace_span]
    (lemma [replace_span_json_offsets]). *)
Definition replace_span_json (expr : str) (span : json) (replacement : str)
  : result str :=
  pair <- unpack_pair span ;;
  let start := bound_of_json (fst pair) in
  let end_ := bound_of_json (snd pair) in
  positive <- bound_positive start ;;
  inside <- (if positive then bound_below end_ (length expr) else Ok false) ;;
  widened <-
    (if inside then
       before <- bound_index expr (bound_shift start (-1)) ;;
       if Ascii.eqb before "(" then
         after <- bound_index expr end_ ;;
         if Ascii.eqb after ")"
         then Ok (bound_shift start (-1), bound_shift end_ 1)
         else Ok (start, end_)
       else Ok (start, end_)
     else Ok (start, end_)) ;;
  left <- bound_slice_to expr (fst widened) ;;
  right <- bound_slice_from expr (snd widened) ;;
  Ok (left ++ replacement ++ right).

Fixpoint is_prefix (p s : str) : bool :=
  match p, s with
  | [], _ => true
  | a :: p', b :: s' => Ascii.eqb a b && is_prefix p' s'
  | _ :: _, [] => false
  end.

Fixpoint is_substring (p s : str) : bool :=
  is_prefix p s || match s with [] => false | _ :: s' => is_substring p s' end.

Definition json_is_str (s : str) (j : json) : bool :=
  match j with JStr t => str_eqb s t | _ => false end.

Section Graph.

(** The decision service behind [judge_llm.invoke] followed by
    [json.loads(response.content)]: at its [n]-th call of a run, on
    the current expression, it yields the parsed reply, or raises. *)
Variable judge_llm : nat -> str -> result json.

(** The service behind [calc_llm.invoke]: at its [n]-th call, for the
    [lhs], [operator] and [rhs] of the prompt, it yields the tool
    calls of its reply, or raises. *)
Variable calc_llm : nat -> json -> json -> json -> result (list tool_call).

(** [str(e)] for an exception, and [str(v)] for a value inside a
    message. *)
Variable exn_text : exn -> str.
Variable py_str : json -> str.

(** The text the tool executor answers to a call it cannot run. *)
Variable tool_error_text : tool_call -> str.

Definition judge_node (n : nat) (state : CalcState) : update :=
  match rev (st_expression state) with
  | [] => error_update (JStr (py "expression is empty"))
  | cur_expr :: _ =>
      if is_single_number cur_expr then no_update
      else
        match judge_llm n cur_expr with
        | Raise e =>
            error_update (JStr (py "judge_node failed: " ++ exn_text e))
        | Ok (JObj result) =>
            mkUpdate None []
                     (Some (dict_get result (py "operator")))
                     (Some (dict_get result (py "lhs")))
                     (Some (dict_get result (py "rhs")))
                     (Some (dict_get result (py "span")))
                     (Some (dict_get result (py "tool")))
                     None
        | Ok _ =>
            error_update
              (JStr (py "judge_node failed: " ++ exn_text AttributeError))
        end
  end.

Definition calc_node (n : nat) (state : CalcState) : result update :=
  if negb (truthy (st_operator state))
  then Ok (error_update (JStr (py "no operator found")))
  else
    response <- calc_llm n (st_lhs state) (st_operator state) (st_rhs state) ;;
    Ok (mkUpdate None [AIMessage response] None None None None None None).

(** One tool call, run by [ToolNode(CALC_TOOLS)]: the tool's return
    value as JSON text, or the executor's own error text. *)
Definition run_tool_call (c : tool_call) : message :=
  match CALC_TOOLS (tc_name c), tc_args c with
  | Some f, Some (lhs, rhs) => ToolMessage (ContentJson (f lhs rhs))
  | _, _ => ToolMessage (ContentText (tool_error_text c))
  end.

(** [tool_node_executor]: runs the tool calls of the last message. *)
Definition tool_node (state : CalcState) : result update :=
  match rev (st_messages state) with
  | AIMessage calls :: _ =>
      Ok (mkUpdate None (map run_tool_call calls)
                   None None None None None None)
  | _ => Raise ValueError
  end.

Definition update_node (state : CalcState) : result update :=
  match rev (st_messages state) with
  | [] => Ok (error_update (JStr (py "no messages found")))
  | AIMessage _ :: _ =>
      Ok (error_update (JStr (py "last message is not a ToolMessage")))
  | ToolMessage (ContentText s) :: _ =>
      Ok (error_update (JStr (py "failed to parse tool result: " ++ s)))
  | ToolMessage (ContentJson (JObj tool_result)) :: _ =>
      if dict_has tool_result (py "error") then
        Ok (error_update (dict_get tool_result (py "error")))
      else
        match dict_get tool_result (py "value") with
        | JNull => Ok (error_update (JStr (py "tool result missing 'value'")))
        | value =>
            match float_of_json value with
            | Raise _ =>
                Ok (error_update (JStr (py "invalid value: " ++ py_str value)))
            | Ok value_float =>
                value_str <- format_number value_float ;;
                cur_expr <- getitem (st_expression state) (-1) ;;
                match
                  (if truthy (st_span state)
                   then replace_span_json cur_expr (st_span state) value_str
                   else Ok value_str)
                with
                | Raise e =>
                    Ok (error_update
                          (JStr (py "expression update failed: " ++ exn_text e)))
                | Ok new_expr =>
                    Ok (mkUpdate (Some (st_expression state ++ [new_expr])) []
                                 (Some JNull) (Some JNull) (Some JNull)
                                 (Some JNull) (Some JNull) None)
                end
            end
        end
  | ToolMessage (ContentJson (JArr l)) :: _ =>
      if existsb (json_is_str (py "error")) l
      then Raise TypeError else Raise AttributeError
  | ToolMessage (ContentJson (JStr s)) :: _ =>
      if is_substring (py "error") s
      then Raise TypeError else Raise AttributeError
  | ToolMessage (ContentJson _) :: _ => Raise TypeError
  end.

(** Where the graph goes after [update_node]: [build_calc_graph] gives
    that node the fixed edge to [judge_node] and the conditional edges
    of [route_after_update] as well, and the graph runs every
    destination of a node. *)
Definition destinations_after_update (state : CalcState) : list route :=
  [to_judge_node; route_after_update state].

Definition runs_judge (destinations : list route) : bool :=
  existsb (fun r => match r with to_judge_node => true | _ => false end)
          destinations.

(** The nodes the compiled graph runs after [start_node]. *)
Inductive node : Type := judge | calc | tool | updating.

(** The outcome of [graph.invoke]: the final state, with the number of
    decide-compute-rewrite cycles that were started; or the exception
    that escaped; or a run that is still going when the fuel ends. *)
Inductive outcome : Type :=
| Finished (cycles : nat) (final : CalcState)
| Crashed (cycles : nat) (e : exn) (last : CalcState)
| Running (cycles : nat) (at_node : node) (current : CalcState).

(** The edges of [build_calc_graph], followed for at most [fuel] node
    executions.  [cycles] counts the routings from [judge_node] to
    [calc_node]; the collaborators are told which call this is. *)
Fixpoint run (fuel : nat) (cycles : nat) (n : node) (state : CalcState)
  : outcome :=
  match fuel with
  | O => Running cycles n state
  | S fuel' =>
      match n with
      | judge =>
          let state' := apply_update state (judge_node cycles state) in
          match route_after_judge state' with
          | to_calc_node => run fuel' (S cycles) calc state'
          | _ => Finished cycles state'
          end
      | calc =>
          match calc_node (cycles - 1) state with
          | Raise e => Crashed cycles e state
          | Ok u => run fuel' cycles tool (apply_update state u)
          end
      | tool =>
          match tool_node state with
          | Raise e => Crashed cycles e state
          | Ok u => run fuel' cycles updating (apply_update state u)
          end
      | updating =>
          match update_node state with
          | Raise e => Crashed cycles e state
          | Ok u =>
              let state' := apply_update state u in
              if runs_judge (destinations_after_update state')
              then run fuel' cycles judge state'
              else Finished cycles state'
          end
      end
  end.

Definition initial_state (expression : expression_arg) : CalcState :=
  mkState (start_node expression) [] JNull JNull JNull JNull JNull JNull.

(** [build_calc_graph().invoke({"expression": expression})]. *)
Definition invoke (fuel : nat) (expression : expression_arg) : outcome :=
  run fuel 0 judge (initial_state expression).

End Graph.

(* ================================================================== *)
(** * The deterministic collaborators *)
(* ================================================================== *)

Definition pending_json (p : pending) : json :=
  JObj [(py "operator", JStr (p_operator p));
        (py "lhs", JStr (p_lhs p));
        (py "rhs", JStr (p_rhs p));
        (py "span", JArr [JInt (Z.of_nat (fst (p_span p)));
                          JInt (Z.of_nat (snd (p_span p)))]);
        (py "tool", JStr (p_tool p))].

(** Modelled from the spec: the deterministic decision collaborator of
    section 9, which the repository does not wire in; it answers with
    what [find_next_operation] returns on the tokens of the current
    expression ([null] when that is [None]). *)
Definition resolver_judge (_ : nat) (cur_expr : str) : result json :=
  r <- find_next_operation (parse_expression cur_expr) cur_expr ;;
  Ok (match r with Some p => pending_json p | None => JNull end).

(** Modelled from the spec: the deterministic computation collaborator
    of section 9; it calls the tool [TOOL_MAP] gives for the operator on
    [float(lhs)] and [float(rhs)]. *)
Definition tools_calc (_ : nat) (lhs operator rhs : json)
  : result (list tool_call) :=
  match operator, lhs, rhs with
  | JStr op, JStr l, JStr r =>
      match TOOL_MAP op with
      | None => Raise KeyError
      | Some name =>
          a <- py_float l ;;
          b <- py_float r ;;
          Ok [mkCall name (Some (a, b))]
      end
  | _, _, _ => Raise TypeError
  end.

Definition no_text {A : Type} (_ : A) : str := [].

(** Modelled from the spec: [calculate], which the package exports and
    the repository does not define; a run of the graph with both
    deterministic collaborators. *)
Definition calculate (fuel : nat) (expression : expression_arg) : outcome :=
  invoke resolver_judge tools_calc no_text no_text no_text fuel expression.

(* ================================================================== *)
(** * Decision collaborators used as test inputs *)
(* ================================================================== *)

Definition decision (op lhs rhs : string) (start end_ : Z) (tool : string)
  : json :=
  JObj [(py "operator", JStr (py op)); (py "lhs", JStr (py lhs));
        (py "rhs", JStr (py rhs));
        (py "span", JArr [JInt start; JInt end_]);
        (py "tool", JStr (py tool))].

(** A decision service whose every reply is the JSON object [{}]. *)
Definition silent_judge (_ : nat) (_ : str) : result json := Ok (JObj []).

(** A decision service that always asks for [1 * 1] over the first
    character: on ["1+1"] the rewrite gives ["1+1"] back. *)
Definition stuck_judge (_ : nat) (_ : str) : result json :=
  Ok (decision "*" "1" "1" 0 1 "mul").

(** A decision service that asks for [5 / 0] at its first call and for
    [9 - 9] afterwards. *)
Definition fickle_judge (n : nat) (_ : str) : result json :=
  match n with
  | O => Ok (decision "/" "5" "0" 0 3 "div")
  | S _ => Ok (decision "-" "9" "9" 0 3 "sub")
  end.

(** A decision service that asks for [5 / 0] at its first call and
    fails afterwards. *)
Definition failing_judge (n : nat) (_ : str) : result json :=
  match n with
  | O => Ok (decision "/" "5" "0" 0 3 "div")
  | S _ => Raise (CollaboratorError (py "timeout"))
  end.

Definition message_of (e : exn) : str :=
  match e with CollaboratorError msg => msg | _ => [] end.

Definition running (o : outcome) : bool :=
  match o with Running _ _ _ => true | _ => false end.


(** The binary64 value of an integer. *)
Definition whole (z : Z) : float := binary_normalize prec emax z 0 false.

(** One exchange with the two services: the expression the decision
    service is shown, its reply or the exception it raises, and the
    tool calls the computation service then emits. *)
Definition exchange : Type := str * result json * list tool_call.

Definition json_field (j : json) (key : string) : json :=
  match j with JObj d => dict_get d (py key) | _ => JNull end.

(** [answers judge_llm calc_llm n table]: from their [n]-th calls on,
    the two services answer as the table says, call after call. *)
Fixpoint answers (judge_llm : nat -> str -> result json)
         (calc_llm : nat -> json -> json -> json -> result (list tool_call))
         (n : nat) (table : list exchange) : Prop :=
  match table with
  | [] => True
  | (cur, reply, calls) :: table' =>
      judge_llm n cur = reply
      /\ match reply with
         | Ok r =>
             calc_llm n (json_field r "lhs") (json_field r "operator")
                      (json_field r "rhs") = Ok calls
         | Raise _ => True
         end
      /\ answers judge_llm calc_llm (S n) table'
  end.


(** On ["5/0"]: the decision for the division, with the call of [div]
    on [5] and [0]; then a decision service that raises [e] when it is
    asked again. *)
Definition division_exchanges (e : exn) : list exchange :=
  [(py "5/0", Ok (decision "/" "5" "0" 0 3 "div"),
    [mkCall (py "div") (Some (whole 5, whole 0))]);
   (py "5/0", Raise e, [])].

(** The services of a table: they answer the [n]-th call as the table
    says when the call is the one the table expects, and as [judge_llm]
    and [calc_llm] do otherwise. *)
Definition table_judge (table : list exchange)
           (judge_llm : nat -> str -> result json) (n : nat) (cur : str)
  : result json :=
  match nth_error table n with
  | Some (e, reply, _) => if str_eqb cur e then reply else judge_llm n cur
  | None => judge_llm n cur
  end.

Definition json_str_eqb (a b : json) : bool :=
  match a, b with
  | JStr s, JStr t => str_eqb s t
  | _, _ => false
  end.

Definition table_calc (table : list exchange)
           (calc_llm : nat -> json -> json -> json -> result (list tool_call))
           (n : nat) (lhs operator rhs : json) : result (list tool_call) :=
  match nth_error table n with
  | Some (_, Ok r, calls) =>
      if json_str_eqb lhs (json_field r "lhs")
         && json_str_eqb operator (json_field r "operator")
         && json_str_eqb rhs (json_field r "rhs")
      then Ok calls
      else calc_llm n lhs operator rhs
  | _ => calc_llm n lhs operator rhs
  end.

(** Modelled from the spec: [parseNumber], the reading of a text as one
    number through the tokenizer's number grammar, which the repository
    does not define; the text must tokenize to a single number token,
    whose value [float] converts. *)
Definition parse_number (s : str) : result float :=
  match parse_expression s with
  | [t] =>
      match tok_type t with
      | T_number => py_float (tok_value t)
      | T_operator => Raise ValueError
      end
  | _ => Raise ValueError
  end.

(** The binary64 value [1.0]. *)
Definition one : float := S754_finite false 4503599627370496 (-52).

(** The binary64 value nearest to one third. *)
Definition third : float := S754_finite false 6004799503160661 (-54).

(** The binary64 value [1234567.5]. *)
Definition seven_digits : float :=
  Eval vm_compute in binary_normalize prec emax 2469135 (-1) false.


(* ================================================================== *)
(** * Well-formed expressions *)
(* ================================================================== *)

(** A text that is a number literal of the grammar. *)
Definition is_literal (s : str) : bool :=
  match match_number s with Some _ => true | None => false end.

(** The text of operands joined by operators: [n0 op1 n1 op2 n2 ...]. *)
Definition chain := list (ascii * str).

Definition tail_text (rest : chain) : str :=
  flat_map (fun x => fst x :: snd x) rest.

Definition expression_text (n0 : str) (rest : chain) : str :=
  n0 ++ tail_text rest.

(** Every operand is a number literal and every operator one of
    [+ - * /]: a well-formed expression without parentheses. *)
Definition well_formed_chain (rest : chain) : bool :=
  forallb (fun x => char_in (fst x) "+-*/" && is_literal (snd x)) rest.

Definition well_formed (n0 : str) (rest : chain) : bool :=
  is_literal n0 && well_formed_chain rest.

(** The tokens of [op1 n1 op2 n2 ...] when the text starts at offset
    [i]. *)
Fixpoint chain_tokens (i : nat) (rest : chain) : list token :=
  match rest with
  | [] => []
  | x :: r =>
      mkToken T_operator [fst x] i (i + 1)
        :: mkToken T_number (snd x) (i + 1) (i + 1 + length (snd x))
        :: chain_tokens (i + 1 + length (snd x)) r
  end.

Definition expression_tokens (n0 : str) (rest : chain) : list token :=
  mkToken T_number n0 0 (length n0) :: chain_tokens (length n0) rest.

(** What may follow an operand: nothing, or an operator. *)
Definition at_operator (tail : str) : Prop :=
  match tail with
  | [] => True
  | c :: _ => char_in c "+-*/" = true
  end.

(** The priority the resolver gives a token. *)
Definition priority (t : token) : Z :=
  match OPERATOR_PRIORITY (tok_value t) with
  | Some p => p
  | None => 0%Z
  end.

Definition is_operator (t : token) : bool :=
  match tok_type t with T_operator => true | T_number => false end.

(** [idx] is where the precedence rule points in [tokens]: an operator
    token of the highest priority, with only lower priorities to its
    left. *)
Definition precedence_choice (tokens : list token) (idx : nat) : Prop :=
  exists t,
    nth_error tokens idx = Some t
    /\ is_operator t = true
    /\ (forall j t', nth_error tokens j = Some t' -> is_operator t' = true ->
                     (priority t' <= priority t)%Z)
    /\ (forall j t', j < idx -> nth_error tokens j = Some t' ->
                     is_operator t' = true -> (priority t' < priority t)%Z).

Definition op_priority (op : ascii) : Z :=
  match OPERATOR_PRIORITY [op] with
  | Some p => p
  | None => 0%Z
  end.

(** Position, among the operators of a chain, of the leftmost one of
    highest priority above [bp]. *)
Fixpoint chain_best (rest : chain) (bp : Z) : option nat :=
  match rest with
  | [] => None
  | x :: r =>
      if (bp <? op_priority (fst x))%Z
      then Some match chain_best r (op_priority (fst x)) with
                | Some j => S j
                | None => 0
                end
      else option_map S (chain_best r bp)
  end.

(** The operand that ends the text [n0 op1 n1 ... ]. *)
Definition last_operand (n0 : str) (pre : chain) : str :=
  last (map snd pre) n0.

(** The expression that is left when the operation whose left operand
    ends [n0 pre] is replaced by the text [v], before [post]. *)
Definition reduced (n0 : str) (pre : chain) (v : str) (post : chain)
  : str * chain :=
  match rev pre with
  | [] => (v, post)
  | y :: rp => (n0, rev rp ++ (fst y, v) :: post)
  end.

(** The reply of the resolver for the operation at [pre ++ x :: post]. *)
Definition chain_decision (n0 : str) (pre : chain) (x : ascii * str)
           (tool : str) : list (str * json) :=
  [(py "operator", JStr [fst x]);
   (py "lhs", JStr (last_operand n0 pre));
   (py "rhs", JStr (snd x));
   (py "span",
    JArr [JInt (Z.of_nat (length (expression_text n0 pre)
                          - length (last_operand n0 pre)));
          JInt (Z.of_nat (length (expression_text n0 pre) + 1
                          + length (snd x)))]);
   (py "tool", JStr tool)].

Definition is_finite (v : float) : bool :=
  match v with
  | S754_zero _ | S754_finite _ _ _ => true
  | _ => false
  end.

(** [value == int(value)], the test of [format_number]. *)
Definition is_integral (v : float) : bool :=
  match int_of_float v with
  | Ok i => float_eq_int v i
  | Raise _ => false
  end.

(* ================================================================== *)
(** * The reduction of a well-formed expression, step by step *)
(* ================================================================== *)






(* ================================================================== *)
(** * The span rewriter as the specification words it *)
(* ================================================================== *)

(** Whether the character just before [start] is an opening parenthesis
    and the character at [end_] (just after the span) a closing one. *)
Definition parenthesised (expr : str) (start end_ : nat) : bool :=
  match start with
  | O => false
  | S before =>
      match nth_error expr before, nth_error expr end_ with
      | Some a, Some b => Ascii.eqb a "(" && Ascii.eqb b ")"
      | _, _ => false
      end
  end.

(** [rewrite(expr, span, replacementText)] of section 4.3: widen the
    span over a surrounding parenthesis pair, then substitute. *)
Definition rewrite_spec (expr : str) (start end_ : nat) (replacementText : str)
  : str :=
  let '(start', end') :=
    if parenthesised expr start end_ then (start - 1, end_ + 1)
    else (start, end_) in
  firstn start' expr ++ replacementText ++ skipn end' expr.

(* ================================================================== *)
(** * Shapes of texts *)
(* ================================================================== *)

(** The characters a literal or an operator is made of. *)
Definition plain_char (c : ascii) : bool :=
  is_decimal c || char_in c "+-*/.eE".

(** The text [r] does not go on with a character of class [P]. *)
Definition stops (P : ascii -> bool) (r : str) : Prop :=
  match r with
  | [] => True
  | c :: _ => P c = false
  end.

Inductive signed : str -> bool -> Prop :=
| signed_none : signed [] false
| signed_plus : signed ["+"%char] false
| signed_minus : signed ["-"%char] true.

Inductive pointed : str -> str -> Prop :=
| pointed_none : pointed [] []
| pointed_some fp : pointed ["."%char] fp.

Inductive exponent : str -> bool -> str -> Prop :=
| exponent_none : exponent [] false []
| exponent_some e esg eneg ed :
    char_in e "eE" = true -> signed esg eneg -> ed <> [] ->
    Forall (fun c => is_decimal c = true) ed ->
    exponent (e :: esg ++ ed) eneg ed.

(** [literal_shape s l]: the text [s] is sign, digits, point, digits
    and exponent, with the groups [l]. *)
Inductive literal_shape : str -> numlit -> Prop :=
| literal_shape_intro sg neg ip pt fp ex eneg ed :
    signed sg neg ->
    Forall (fun c => is_decimal c = true) ip ->
    pointed pt fp ->
    Forall (fun c => is_decimal c = true) fp ->
    ip ++ fp <> [] ->
    exponent ex eneg ed ->
    literal_shape (sg ++ ip ++ pt ++ fp ++ ex) (mkNumlit neg ip fp eneg ed).

(* ================================================================== *)
(** * ustils.py: validation *)
(* ================================================================== *)

(** [not s] for a [str]. *)
Definition is_empty (s : str) : bool :=
  match s with [] => true | _ :: _ => false end.

Definition validate_expression (expr : str) : bool * option str :=
  if is_empty expr || is_empty (strip expr) then
    (false, Some (py "expression is empty"))
  else if negb (forallb (fun c => char_in c "0123456789+-*/.eE ") expr) then
    (false, Some (py "expression contains invalid characters"))
  else (true, None).

(* ================================================================== *)
(** * Texts, tokens and states *)
(* ================================================================== *)

(** [s[a:b]] for offsets [a] and [b] counted from the start. *)
Definition slice {A : Type} (s : list A) (a b : nat) : list A :=
  firstn (b - a) (skipn a s).

(** A text of [isspace] characters only. *)
Definition blank (s : str) : Prop := Forall (fun c => isspace c = true) s.

(** [placed s lo prev tokens]: the tokens lie in the text [s] from the
    offset [lo] on, one after the other; each one's value is the text
    between its offsets; and an operator token is one character of
    [+-*/] that follows a number token ([prev] tells whether a number
    token comes just before the list). *)
Inductive placed (s : str) : nat -> bool -> list token -> Prop :=
| placed_nil lo prev : placed s lo prev []
| placed_cons lo prev t r :
    lo <= tok_start t ->
    tok_start t < tok_end t <= length s ->
    tok_value t = slice s (tok_start t) (tok_end t) ->
    (tok_type t = T_operator ->
     prev = true /\ tok_end t = S (tok_start t)
     /\ exists c, tok_value t = [c] /\ char_in c "+-*/" = true) ->
    placed s (tok_end t) (negb (is_operator t)) r ->
    placed s lo prev (t :: r).

(** What a run leaves behind, whatever way it stops. *)
Definition last_state (o : outcome) : CalcState :=
  match o with
  | Finished _ st | Crashed _ _ st | Running _ _ st => st
  end.

Definition cycles_of (o : outcome) : nat :=
  match o with
  | Finished c _ | Crashed c _ _ | Running c _ _ => c
  end.

(** A computation service that fails at every call. *)
Definition failing_calc (_ : nat) (_ _ _ : json) : result (list tool_call) :=
  Raise (CollaboratorError (py "timeout")).

(** The update [update_node] returns after a rewrite. *)
Definition rewrite_update (history : list str) (new_expr : str) : update :=
  mkUpdate (Some (history ++ [new_expr])) []
           (Some JNull) (Some JNull) (Some JNull) (Some JNull) (Some JNull)
           None.

(* ================================================================== *)
(** * Properties *)
(* ================================================================== *)

Ltac by_cases_on_char c :=
  destruct c as [[] [] [] [] [] [] [] []]; vm_compute; intuition congruence.

(** ** Slices *)

Lemma firstn_min_length {A : Type} (n : nat) (l : list A) :
  firstn (Nat.min n (length l)) l = firstn n l.
Proof.
  destruct (Nat.le_gt_cases n (length l)) as [H | H].
  - now rewrite Nat.min_l.
  - rewrite Nat.min_r by lia.
    rewrite firstn_all. symmetry. apply firstn_all2. lia.
Qed.

Lemma skipn_min_length {A : Type} (n : nat) (l : list A) :
  skipn (Nat.min n (length l)) l = skipn n l.
Proof.
  destruct (Nat.le_gt_cases n (length l)) as [H | H].
  - now rewrite Nat.min_l.
  - rewrite Nat.min_r by lia.
    rewrite skipn_all. symmetry. apply skipn_all2. lia.
Qed.

Lemma slice_to_nat {A : Type} (l : list A) (n : nat) :
  slice_to l (Z.of_nat n) = firstn n l.
Proof.
  unfold slice_to, slice_bound.
  assert (H : (Z.of_nat n <? 0)%Z = false) by (apply Z.ltb_ge; lia).
  rewrite !H, Nat2Z.id. apply firstn_min_length.
Qed.

Lemma slice_from_nat {A : Type} (l : list A) (n : nat) :
  slice_from l (Z.of_nat n) = skipn n l.
Proof.
  unfold slice_from, slice_bound.
  assert (H : (Z.of_nat n <? 0)%Z = false) by (apply Z.ltb_ge; lia).
  rewrite !H, Nat2Z.id. apply skipn_min_length.
Qed.

Lemma getitem_nat {A : Type} (l : list A) (n : nat) :
  getitem l (Z.of_nat n) =
  match nth_error l n with Some a => Ok a | None => Raise IndexError end.
Proof.
  unfold getitem.
  assert (H : (Z.of_nat n <? 0)%Z = false) by (apply Z.ltb_ge; lia).
  now rewrite !H, Nat2Z.id.
Qed.

Lemma rev_snoc {A : Type} (l : list A) (a : A) : rev (l ++ [a]) = a :: rev l.
Proof. now rewrite rev_app_distr. Qed.

Lemma getitem_last {A : Type} (l : list A) (a : A) :
  getitem (l ++ [a]) (-1) = Ok a.
Proof.
  unfold getitem. cbn [Z.ltb Z.compare].
  rewrite length_app. cbn [length].
  assert (H : (-1 + Z.of_nat (length l + 1) <? 0)%Z = false)
    by (apply Z.ltb_ge; lia).
  rewrite H.
  replace (Z.to_nat (-1 + Z.of_nat (length l + 1))) with (length l) by lia.
  now rewrite nth_error_app2, Nat.sub_diag by lia.
Qed.

(** The span rewriter on offsets [start <= end_] does what section 4.3
    words. *)
Lemma replace_span_offsets (expr : str) (start end_ : nat) (r : str) :
  start <= end_ ->
  replace_span expr (Z.of_nat start, Z.of_nat end_) r
  = Ok (rewrite_spec expr start end_ r).
Proof.
  intros Hle. unfold replace_span, rewrite_spec, parenthesised.
  destruct start as [| before].
  - simpl. now rewrite slice_from_nat.
  - replace (0 <? Z.of_nat (S before))%Z with true
      by (symmetry; apply Z.ltb_lt; lia).
    replace (Z.of_nat (S before) - 1)%Z with (Z.of_nat before) by lia.
    replace (Z.of_nat end_ + 1)%Z with (Z.of_nat (end_ + 1)) by lia.
    destruct (Z.ltb_spec (Z.of_nat end_) (Z.of_nat (length expr))) as [Hin | Hout].
    + cbn [andb bind]. rewrite (getitem_nat expr before).
      destruct (nth_error expr before) as [a |] eqn:Ha.
      2:{ apply nth_error_None in Ha. lia. }
      destruct (nth_error expr end_) as [b |] eqn:Hb.
      2:{ apply nth_error_None in Hb. lia. }
      cbn [bind].
      destruct (Ascii.eqb a "(") eqn:Ea; cbn [bind andb].
      * rewrite (getitem_nat expr end_), Hb. cbn [bind].
        destruct (Ascii.eqb b ")"); cbn [bind];
          rewrite ?slice_to_nat, ?slice_from_nat;
          now replace (S before - 1) with before by lia.
      * now rewrite slice_to_nat, slice_from_nat.
    + cbn [andb bind].
      destruct (nth_error expr end_) as [b |] eqn:Hb.
      * assert (end_ < length expr) by (apply nth_error_Some; congruence). lia.
      * destruct (nth_error expr before); now rewrite slice_to_nat, slice_from_nat.
Qed.

(** C9.  For a span [start <= end_] of offsets, [replace_span] returns
    [expr[:start] + r + expr[end_:]], after widening the span by one
    character on each side exactly when the character before [start] is
    an opening parenthesis and the character at [end_] a closing one;
    the rest of the string is kept as it is. *)
Theorem replace_span_rewrites (expr : str) (start end_ : nat) (r : str) :
  start <= end_ ->
  replace_span expr (Z.of_nat start, Z.of_nat end_) r
  = Ok (if parenthesised expr start end_
        then firstn (start - 1) expr ++ r ++ skipn (end_ + 1) expr
        else firstn start expr ++ r ++ skipn end_ expr).
Proof.
  intros Hle. rewrite (replace_span_offsets expr start end_ r Hle).
  unfold rewrite_spec. now destruct (parenthesised expr start end_).
Qed.

Lemma replace_span_rewrites_witness :
  1 <= 4 /\
  replace_span (py "(3-1)*4") (Z.of_nat 1, Z.of_nat 4) (py "2")
  = Ok (py "2*4").
Proof.
  split; [lia |].
  apply (replace_span_rewrites (py "(3-1)*4") 1 4 (py "2")). lia.
Defined.

(** ** Characters *)

Lemma decimal_is_digit c : is_decimal c = true -> isdigit c = true.
Proof. by_cases_on_char c. Qed.

Lemma decimal_not_special c :
  is_decimal c = true ->
  char_in c "+-" = false /\ Ascii.eqb c "." = false /\ char_in c "eE" = false
  /\ Ascii.eqb c "-" = false /\ Ascii.eqb c "+" = false.
Proof. by_cases_on_char c. Qed.

Lemma operator_char_stops c :
  char_in c "+-*/" = true ->
  isdigit c = false /\ is_decimal c = false /\ Ascii.eqb c "." = false
  /\ char_in c "eE" = false /\ isspace c = false.
Proof. by_cases_on_char c. Qed.

Lemma exponent_char_stops c :
  char_in c "eE" = true ->
  isdigit c = false /\ is_decimal c = false /\ Ascii.eqb c "." = false.
Proof. by_cases_on_char c. Qed.

Lemma plain_char_facts c :
  plain_char c = true ->
  isspace c = false /\ Ascii.eqb c "_" = false
  /\ Ascii.eqb c "(" = false /\ Ascii.eqb c ")" = false.
Proof. by_cases_on_char c. Qed.

Lemma plain_decimal c : is_decimal c = true -> plain_char c = true.
Proof. by_cases_on_char c. Qed.

Lemma plain_operator c : char_in c "+-*/" = true -> plain_char c = true.
Proof. by_cases_on_char c. Qed.

Lemma plain_exponent c : char_in c "eE" = true -> plain_char c = true.
Proof. by_cases_on_char c. Qed.

(** ** Runs of digits *)

Lemma take_decimal_app (d r : str) :
  Forall (fun c => is_decimal c = true) d ->
  stops is_decimal r ->
  take_decimal (d ++ r) = (d, r).
Proof.
  intros Hd Hr. induction Hd as [| c d Hc _ IH]; cbn [app].
  - destruct r as [| c r]; [reflexivity |]. cbn in *. now rewrite Hr.
  - cbn [take_decimal]. now rewrite Hc, IH.
Qed.

Lemma take_decimal_inv (s d r : str) :
  take_decimal s = (d, r) ->
  s = d ++ r /\ Forall (fun c => is_decimal c = true) d /\ stops is_decimal r.
Proof.
  revert d r. induction s as [| c s IH]; intros d r H; cbn in H.
  - inversion H. repeat split; constructor.
  - destruct (is_decimal c) eqn:Hc.
    + destruct (take_decimal s) as [d' r'] eqn:Hs. inversion H; subst.
      destruct (IH d' r eq_refl) as (-> & Hd & Hr).
      repeat split; [constructor; assumption | assumption].
    + inversion H; subst. repeat split; [constructor | exact Hc].
Qed.

Lemma skip_digits_app (d r : str) :
  Forall (fun c => is_decimal c = true) d ->
  stops isdigit r ->
  skip_digits (d ++ r) = length d.
Proof.
  intros Hd Hr. induction Hd as [| c d Hc _ IH]; cbn [app length].
  - destruct r as [| c r]; [reflexivity |]. cbn in *. now rewrite Hr.
  - cbn [skip_digits]. now rewrite (decimal_is_digit c Hc), IH.
Qed.

Lemma skipn_exact {A : Type} (a b : list A) : skipn (length a) (a ++ b) = b.
Proof. induction a; [reflexivity | exact IHa]. Qed.

Lemma firstn_exact {A : Type} (a b : list A) : firstn (length a) (a ++ b) = a.
Proof. induction a; [reflexivity | cbn; now rewrite IHa]. Qed.

(** ** The shape of a number literal *)

Lemma take_sign_inv (s r : str) (neg : bool) :
  take_sign s = (neg, r) ->
  exists sg, s = sg ++ r /\ signed sg neg.
Proof.
  destruct s as [| c s]; cbn; intros H.
  - inversion H. exists []. split; [reflexivity | constructor].
  - destruct (Ascii.eqb c "-") eqn:Hm.
    + apply Ascii.eqb_eq in Hm. inversion H; subst.
      exists ["-"%char]. split; [reflexivity | constructor].
    + destruct (Ascii.eqb c "+") eqn:Hp.
      * apply Ascii.eqb_eq in Hp. inversion H; subst.
        exists ["+"%char]. split; [reflexivity | constructor].
      * inversion H; subst. exists []. split; [reflexivity | constructor].
Qed.

Lemma take_sign_signed (sg r : str) (neg : bool) :
  signed sg neg ->
  stops (fun c => Ascii.eqb c "-" || Ascii.eqb c "+") r ->
  take_sign (sg ++ r) = (neg, r).
Proof.
  intros Hs Hr. destruct Hs; try reflexivity.
  destruct r as [| c r]; [reflexivity |]. cbn in *.
  apply orb_false_iff in Hr as [-> ->]. reflexivity.
Qed.

Lemma match_number_shape (s : str) (l : numlit) :
  match_number s = Some l -> literal_shape s l.
Proof.
  unfold match_number.
  destruct (take_sign s) as [neg s1] eqn:Hsg.
  destruct (take_decimal s1) as [ip s2] eqn:Hip.
  apply take_sign_inv in Hsg as (sg & -> & Hsg).
  apply take_decimal_inv in Hip as (-> & Hip & Hs2).
  assert (Hfrac : exists pt fp s3,
             s2 = pt ++ fp ++ s3 /\ pointed pt fp
             /\ Forall (fun c => is_decimal c = true) fp
             /\ match s2 with
                | c :: r => if Ascii.eqb c "." then take_decimal r else ([], s2)
                | [] => ([], s2)
                end = (fp, s3)).
  { destruct s2 as [| c r].
    - exists [], [], []. repeat split; constructor.
    - destruct (Ascii.eqb c ".") eqn:Hc.
      + apply Ascii.eqb_eq in Hc. subst c.
        destruct (take_decimal r) as [fp s3] eqn:Hfp.
        apply take_decimal_inv in Hfp as (-> & Hfp & _).
        exists ["."%char], fp, s3. repeat split; [constructor | assumption].
      + exists [], [], (c :: r). repeat split; constructor. }
  destruct Hfrac as (pt & fp & s3 & -> & Hpt & Hfp & ->).
  destruct (ip ++ fp) as [| c0 m] eqn:Hm; [discriminate |].
  assert (Hne : ip ++ fp <> []) by (rewrite Hm; discriminate).
  clear Hm c0 m.
  destruct s3 as [| c r].
  - intros H. inversion H; subst.
    now apply literal_shape_intro; try constructor.
  - destruct (char_in c "eE") eqn:He; [| discriminate].
    destruct (take_sign r) as [eneg r1] eqn:Hesg.
    destruct (take_decimal r1) as [ed r2] eqn:Hed.
    apply take_sign_inv in Hesg as (esg & -> & Hesg).
    apply take_decimal_inv in Hed as (-> & Hed & _).
    destruct ed as [| d0 ed]; [discriminate |].
    destruct r2; [| discriminate].
    intros H. inversion H; subst. rewrite app_nil_r.
    apply literal_shape_intro; try assumption.
    constructor; try assumption. discriminate.
Qed.

Lemma stops_digits (P : ascii -> bool) (d r : str) :
  Forall (fun c => is_decimal c = true) d ->
  d <> [] ->
  (forall c, is_decimal c = true -> P c = false) ->
  stops P (d ++ r).
Proof.
  intros Hd Hne HP. destruct Hd; [congruence |]. cbn. auto.
Qed.

Lemma exponent_stops (P : ascii -> bool) ex eneg ed tail :
  exponent ex eneg ed ->
  at_operator tail ->
  (forall c, char_in c "eE" = true -> P c = false) ->
  (forall c, char_in c "+-*/" = true -> P c = false) ->
  stops P (ex ++ tail).
Proof.
  intros Hex Ht He Ho. destruct Hex; cbn.
  - destruct tail; cbn in *; auto.
  - auto.
Qed.

Lemma match_number_tail (s : str) (l : numlit) (tail : str) :
  literal_shape s l ->
  at_operator tail ->
  match_number (s ++ tail) = match tail with [] => Some l | _ :: _ => None end.
Proof.
  intros Hs Ht. destruct Hs as [sg neg ip pt fp ex eneg ed Hsg Hip Hpt Hfp Hne Hex].
  repeat rewrite <- app_assoc. unfold match_number.
  assert (Hstop_e : forall P,
             (forall c, char_in c "eE" = true -> P c = false) ->
             (forall c, char_in c "+-*/" = true -> P c = false) ->
             stops P (ex ++ tail)).
  { intros. eapply exponent_stops; eauto. }
  rewrite (take_sign_signed sg _ neg Hsg).
  2:{ destruct ip as [| c ip].
      - destruct Hpt; [now cbn in Hne |]. reflexivity.
      - inversion Hip; subst. cbn.
        destruct (decimal_not_special c) as (_ & _ & _ & -> & ->); auto. }
  rewrite (take_decimal_app ip _ Hip).
  2:{ destruct Hpt; [| reflexivity]. cbn [app].
      apply Hstop_e; intros c Hc.
      - now apply exponent_char_stops.
      - now apply operator_char_stops. }
  assert (Hfrac : match pt ++ fp ++ ex ++ tail with
                  | c :: r => if Ascii.eqb c "." then take_decimal r
                              else ([], pt ++ fp ++ ex ++ tail)
                  | [] => ([], pt ++ fp ++ ex ++ tail)
                  end = (fp, ex ++ tail)).
  { destruct Hpt as [| fp].
    - cbn [app].
      pose proof (Hstop_e (fun c => Ascii.eqb c ".")) as Hdot.
      destruct (ex ++ tail) as [| c r]; [reflexivity |].
      cbn in Hdot. rewrite Hdot; [reflexivity | |]; intros c' Hc'.
      + now apply exponent_char_stops.
      + now apply operator_char_stops.
    - cbn [app]. cbn [Ascii.eqb Bool.eqb].
      apply take_decimal_app; [assumption |].
      apply Hstop_e; intros c Hc.
      + now apply exponent_char_stops.
      + now apply operator_char_stops. }
  match goal with
  | |- match ?m with pair _ _ => _ end = _ =>
      replace m with (fp, ex ++ tail) by (symmetry; exact Hfrac)
  end.
  destruct (ip ++ fp) as [| c0 m]; [congruence |].
  destruct Hex as [| e esg eneg ed He Hesg Hed Hdec].
  - cbn [app]. destruct tail as [| c r]; [reflexivity |].
    cbn in Ht. destruct (operator_char_stops c Ht) as (_ & _ & _ & -> & _).
    reflexivity.
  - cbn [app]. rewrite He. rewrite <- app_assoc.
    rewrite (take_sign_signed esg _ eneg Hesg).
    2:{ apply stops_digits; auto. intros c Hc.
        destruct (decimal_not_special c Hc) as (_ & _ & _ & -> & ->). reflexivity. }
    rewrite (take_decimal_app ed tail Hdec).
    2:{ destruct tail; cbn in *; [exact I |]. now apply operator_char_stops. }
    destruct ed; [congruence |]. destruct tail; reflexivity.
Qed.

Lemma skipn_add {A : Type} (a b : nat) (l : list A) :
  skipn (a + b) l = skipn b (skipn a l).
Proof. now rewrite skipn_skipn, Nat.add_comm. Qed.

Lemma scan_sign_signed (sg r : str) (neg : bool) :
  signed sg neg ->
  stops (fun c => char_in c "+-") r ->
  scan_sign (sg ++ r) = length sg.
Proof.
  intros Hs Hr. destruct Hs; try reflexivity.
  destruct r as [| c r]; [reflexivity |]. cbn in *. now rewrite Hr.
Qed.

Lemma scan_exponent_shape ex eneg ed tail :
  exponent ex eneg ed ->
  at_operator tail ->
  scan_exponent (ex ++ tail) = length ex.
Proof.
  intros Hex Ht. destruct Hex as [| e esg eneg ed He Hesg Hed Hdec].
  - destruct tail as [| c r]; [reflexivity |].
    change (char_in c "+-*/" = true) in Ht.
    cbn [app scan_exponent length].
    destruct (operator_char_stops c Ht) as (_ & _ & _ & -> & _). reflexivity.
  - cbn [app scan_exponent]. rewrite He, <- app_assoc.
    rewrite (scan_sign_signed esg _ eneg Hesg).
    2:{ apply stops_digits; auto. intros c Hc.
        now destruct (decimal_not_special c Hc) as (-> & _). }
    rewrite skipn_exact, skip_digits_app; auto.
    + cbn [length]. rewrite length_app. lia.
    + destruct tail; cbn in *; [exact I |]. now apply operator_char_stops.
Qed.

Lemma scan_number_shape (s : str) (l : numlit) (tail : str) :
  literal_shape s l ->
  at_operator tail ->
  scan_number (s ++ tail) = length s.
Proof.
  intros Hs Ht. destruct Hs as [sg neg ip pt fp ex eneg ed Hsg Hip Hpt Hfp Hne Hex].
  assert (Hstop_e : forall P,
             (forall c, char_in c "eE" = true -> P c = false) ->
             (forall c, char_in c "+-*/" = true -> P c = false) ->
             stops P (ex ++ tail)).
  { intros. eapply exponent_stops; eauto. }
  repeat rewrite <- app_assoc. unfold scan_number.
  rewrite (scan_sign_signed sg _ neg Hsg).
  2:{ destruct ip as [| c ip].
      - destruct Hpt; [now cbn in Hne |]. reflexivity.
      - inversion Hip; subst. cbn [app stops].
        now destruct (decimal_not_special c) as (-> & _). }
  rewrite skipn_exact.
  rewrite (skip_digits_app ip _ Hip).
  2:{ destruct Hpt; [| reflexivity]. cbn [app].
      apply Hstop_e; intros c Hc.
      - now apply exponent_char_stops.
      - now apply operator_char_stops. }
  replace (skipn (length sg + length ip) (sg ++ ip ++ pt ++ fp ++ ex ++ tail))
    with (pt ++ fp ++ ex ++ tail)
    by (rewrite skipn_add, !skipn_exact; reflexivity).
  assert (Hfrac : scan_fraction (pt ++ fp ++ ex ++ tail) = length pt + length fp).
  { destruct Hpt as [| fp].
    - cbn [app length Nat.add].
      pose proof (Hstop_e (fun c => Ascii.eqb c ".")) as Hdot.
      destruct (ex ++ tail) as [| c r]; [reflexivity |].
      cbn [stops scan_fraction] in *. rewrite Hdot; [reflexivity | |]; intros c' Hc'.
      + now apply exponent_char_stops.
      + now apply operator_char_stops.
    - cbn [app scan_fraction Ascii.eqb Bool.eqb length].
      rewrite skip_digits_app; auto.
      apply Hstop_e; intros c Hc.
      + now apply exponent_char_stops.
      + now apply operator_char_stops. }
  rewrite Hfrac.
  replace (skipn (length sg + length ip + (length pt + length fp))
                 (sg ++ ip ++ pt ++ fp ++ ex ++ tail))
    with (ex ++ tail).
  2:{ rewrite !skipn_add, !skipn_exact. reflexivity. }
  rewrite (scan_exponent_shape ex eneg ed tail Hex Ht).
  rewrite !length_app. lia.
Qed.

Lemma is_literal_shape (s : str) :
  is_literal s = true -> exists l, literal_shape s l.
Proof.
  unfold is_literal. destruct (match_number s) as [l |] eqn:H; [| discriminate].
  exists l. now apply match_number_shape.
Qed.

Lemma Forall_plain_decimal (d : str) :
  Forall (fun c => is_decimal c = true) d ->
  Forall (fun c => plain_char c = true) d.
Proof. intros H. eapply Forall_impl; [| exact H]. apply plain_decimal. Qed.

Lemma signed_plain sg neg :
  signed sg neg -> Forall (fun c => plain_char c = true) sg.
Proof. intros []; repeat constructor. Qed.

Lemma literal_shape_plain (s : str) (l : numlit) :
  literal_shape s l -> Forall (fun c => plain_char c = true) s.
Proof.
  intros [sg neg ip pt fp ex eneg ed Hsg Hip Hpt Hfp Hne Hex].
  repeat (apply Forall_app; split).
  - now apply (signed_plain sg neg).
  - now apply Forall_plain_decimal.
  - destruct Hpt; repeat constructor.
  - now apply Forall_plain_decimal.
  - destruct Hex as [| e esg eneg ed He Hesg Hed Hdec]; [constructor |].
    constructor; [now apply plain_exponent |].
    apply Forall_app. split.
    + now apply (signed_plain esg eneg).
    + now apply Forall_plain_decimal.
Qed.

Lemma literal_shape_head (s : str) (l : numlit) :
  literal_shape s l ->
  exists c r, s = c :: r
              /\ isdigit c || char_in c "+-" || Ascii.eqb c "." = true.
Proof.
  intros [sg neg ip pt fp ex eneg ed Hsg Hip Hpt Hfp Hne Hex].
  destruct Hsg; cbn [app]; try (do 2 eexists; split; reflexivity).
  destruct Hip as [| c ip Hc Hip]; cbn [app] in *.
  - destruct Hpt; [congruence |]. do 2 eexists. split; reflexivity.
  - do 2 eexists. split; [reflexivity |]. now rewrite (decimal_is_digit c Hc).
Qed.

Lemma lstrip_plain (s : str) :
  Forall (fun c => isspace c = false) s -> lstrip s = s.
Proof. intros [| c r Hc _]; [reflexivity |]. cbn. now rewrite Hc. Qed.

Lemma strip_plain (s : str) :
  Forall (fun c => plain_char c = true) s -> strip s = s.
Proof.
  intros H.
  assert (Hs : Forall (fun c => isspace c = false) s).
  { eapply Forall_impl; [| exact H]. intros c Hc. now apply plain_char_facts. }
  unfold strip. rewrite (lstrip_plain s Hs).
  rewrite lstrip_plain; [apply rev_involutive |].
  now apply Forall_rev.
Qed.

Lemma float_space_isspace c : float_space c = true -> isspace c = true.
Proof. by_cases_on_char c. Qed.

Lemma lstrip_float_plain (s : str) :
  Forall (fun c => isspace c = false) s -> lstrip_float s = s.
Proof.
  intros [| c r Hc _]; [reflexivity |]. cbn [lstrip_float].
  destruct (float_space c) eqn:Hf; [| reflexivity].
  apply float_space_isspace in Hf. congruence.
Qed.

Lemma strip_float_plain (s : str) :
  Forall (fun c => plain_char c = true) s -> strip_float s = s.
Proof.
  intros H.
  assert (Hs : Forall (fun c => isspace c = false) s).
  { eapply Forall_impl; [| exact H]. intros c Hc. now apply plain_char_facts. }
  unfold strip_float. rewrite (lstrip_float_plain s Hs).
  rewrite lstrip_float_plain; [apply rev_involutive |].
  now apply Forall_rev.
Qed.

Lemma last_is_number_snoc (acc : list token) (t : token) :
  last_is_number (acc ++ [t])
  = match tok_type t with T_number => true | T_operator => false end.
Proof. unfold last_is_number. now rewrite rev_snoc. Qed.

Lemma tokenize_operand (fuel : nat) (n : str) (l : numlit) (tail : str)
      (i : nat) (acc : list token) :
  literal_shape n l ->
  at_operator tail ->
  last_is_number acc = false ->
  tokenize (S fuel) (n ++ tail) i acc
  = tokenize fuel tail (i + length n)
             (acc ++ [mkToken T_number n i (i + length n)]).
Proof.
  intros Hn Ht Hacc.
  pose proof (scan_number_shape n l tail Hn Ht) as Hscan.
  pose proof (literal_shape_plain n l Hn) as Hplain.
  destruct (literal_shape_head n l Hn) as (c & r & -> & Hhead).
  inversion Hplain as [| c' r' Hc Hr]; subst.
  destruct (plain_char_facts c Hc) as (Hsp & _).
  cbn [app tokenize]. rewrite Hsp, Hacc, andb_false_r, Hhead.
  change (c :: r ++ tail) with ((c :: r) ++ tail).
  cbv zeta. rewrite Hscan, skipn_exact, firstn_exact. reflexivity.
Qed.

Lemma tokenize_operator (fuel : nat) (op : ascii) (r : str)
      (i : nat) (acc : list token) :
  char_in op "+-*/" = true ->
  last_is_number acc = true ->
  tokenize (S fuel) (op :: r) i acc
  = tokenize fuel r (i + 1) (acc ++ [mkToken T_operator [op] i (i + 1)]).
Proof.
  intros Hop Hacc. cbn [tokenize].
  destruct (operator_char_stops op Hop) as (_ & _ & _ & _ & ->).
  now rewrite Hop, Hacc.
Qed.

Lemma tail_text_at_operator (rest : chain) :
  well_formed_chain rest = true -> at_operator (tail_text rest).
Proof.
  destruct rest as [| x r]; [constructor |]. cbn.
  intros H. apply andb_prop in H as [H _]. now apply andb_prop in H as [H _].
Qed.

Lemma tokenize_chain (rest : chain) :
  forall fuel i acc,
    well_formed_chain rest = true ->
    last_is_number acc = true ->
    2 * length rest <= fuel ->
    tokenize fuel (tail_text rest) i acc = acc ++ chain_tokens i rest.
Proof.
  induction rest as [| [op n] r IH]; intros fuel i acc Hwf Hacc Hfuel.
  - cbn. rewrite app_nil_r. now destruct fuel.
  - cbn [length] in Hfuel.
    destruct fuel as [| [| fuel]]; try lia.
    pose proof Hwf as Hwf'. cbn in Hwf'.
    apply andb_prop in Hwf' as [Hx Hr]. apply andb_prop in Hx as [Hop Hn].
    destruct (is_literal_shape n Hn) as [l Hl].
    cbn [tail_text flat_map fst snd app].
    rewrite (tokenize_operator _ op _ i acc Hop Hacc).
    rewrite (tokenize_operand fuel n l _ (i + 1) _ Hl).
    + rewrite IH; try assumption; try lia.
      * cbn [chain_tokens fst snd]. rewrite <- !app_assoc. reflexivity.
      * now rewrite last_is_number_snoc.
    + now apply tail_text_at_operator.
    + now rewrite last_is_number_snoc.
Qed.

Lemma tail_text_plain (rest : chain) :
  well_formed_chain rest = true ->
  Forall (fun c => plain_char c = true) (tail_text rest).
Proof.
  induction rest as [| [op n] r IH]; intros Hwf; [constructor |].
  cbn in Hwf. apply andb_prop in Hwf as [Hx Hr].
  apply andb_prop in Hx as [Hop Hn].
  destruct (is_literal_shape n Hn) as [l Hl].
  cbn [tail_text flat_map fst snd]. constructor; [now apply plain_operator |].
  apply Forall_app. split; [now apply (literal_shape_plain n l) | now apply IH].
Qed.

Lemma tail_text_length (rest : chain) :
  well_formed_chain rest = true ->
  2 * length rest <= length (tail_text rest).
Proof.
  induction rest as [| [op n] r IH]; intros Hwf; [cbn; lia |].
  cbn in Hwf. apply andb_prop in Hwf as [Hx Hr].
  apply andb_prop in Hx as [Hop Hn].
  destruct (is_literal_shape n Hn) as [l Hl].
  destruct (literal_shape_head n l Hl) as (c & r' & -> & _).
  specialize (IH Hr).
  cbn [tail_text flat_map fst snd length app]. rewrite length_app.
  fold (tail_text r). lia.
Qed.

(** The tokenizer on a well-formed expression: one number token per
    operand and one operator token per operator, in order, with their
    offsets. *)
Lemma parse_expression_well_formed (n0 : str) (rest : chain) :
  well_formed n0 rest = true ->
  parse_expression (expression_text n0 rest) = expression_tokens n0 rest.
Proof.
  intros Hwf. apply andb_prop in Hwf as [Hn Hr].
  destruct (is_literal_shape n0 Hn) as [l Hl].
  unfold parse_expression, expression_text.
  rewrite strip_plain.
  2:{ apply Forall_app. split;
        [now apply (literal_shape_plain n0 l) | now apply tail_text_plain]. }
  destruct (literal_shape_head n0 l Hl) as (c & r' & Hc & _).
  rewrite length_app.
  destruct (length n0) as [| k] eqn:Hk; [subst n0; discriminate |].
  cbn [Nat.add].
  rewrite (tokenize_operand _ n0 l _ 0 [] Hl);
    [| now apply tail_text_at_operator | reflexivity].
  rewrite tokenize_chain; try assumption; try reflexivity.
  pose proof (tail_text_length rest Hr). lia.
Qed.

(** ** The precedence rule *)

Lemma best_operator_spec (tokens : list token) :
  forall i best bp idx,
    best_operator tokens i best bp = Some idx ->
    (best = Some idx
     /\ forall j t, nth_error tokens j = Some t -> is_operator t = true ->
                    (priority t <= bp)%Z)
    \/ (i <= idx
        /\ exists t,
            nth_error tokens (idx - i) = Some t
            /\ is_operator t = true
            /\ (bp < priority t)%Z
            /\ (forall j t', nth_error tokens j = Some t' ->
                             is_operator t' = true ->
                             (priority t' <= priority t)%Z)
            /\ (forall j t', j < idx - i -> nth_error tokens j = Some t' ->
                             is_operator t' = true ->
                             (priority t' < priority t)%Z)).
Proof.
  induction tokens as [| tk tokens IH]; intros i best bp idx H; cbn in H.
  - left. split; [assumption |]. intros [| j] t Hj; discriminate.
  - destruct (tok_type tk) eqn:Hty.
    + (* a number token *)
      destruct (IH _ _ _ _ H) as [[Hb Hall] | (Hle & t & Hn & Hop & Hbp & Hmax & Hleft)].
      * left. split; [assumption |].
        intros [| j] t Hj Ht; [| now apply (Hall j)].
        inversion Hj; subst. unfold is_operator in Ht. now rewrite Hty in Ht.
      * right. split; [lia |]. exists t.
        replace (idx - i) with (S (idx - S i)) by lia.
        repeat split; try assumption.
        -- intros [| j] t' Hj Ht'; [| now apply (Hmax j)].
           inversion Hj; subst. unfold is_operator in Ht'. now rewrite Hty in Ht'.
        -- intros [| j] t' Hlt Hj Ht'; [| apply (Hleft j); [lia | assumption ..]].
           inversion Hj; subst. unfold is_operator in Ht'. now rewrite Hty in Ht'.
    + (* an operator token *)
      fold (priority tk) in H.
      destruct (Z.ltb_spec bp (priority tk)) as [Hlt | Hge].
      * destruct (IH _ _ _ _ H) as [[Hb Hall] | (Hle & t & Hn & Hop & Hbp & Hmax & Hleft)].
        -- inversion Hb; subst idx. right. split; [lia |]. exists tk.
           rewrite Nat.sub_diag. repeat split; try assumption.
           ++ unfold is_operator. now rewrite Hty.
           ++ intros [| j] t' Hj Ht'; [inversion Hj; lia | now apply (Hall j)].
           ++ intros j t' Hj; lia.
        -- right. split; [lia |]. exists t.
           replace (idx - i) with (S (idx - S i)) by lia.
           repeat split; try assumption; try lia.
           ++ intros [| j] t' Hj Ht'; [inversion Hj; subst; lia | now apply (Hmax j)].
           ++ intros [| j] t' Hlt' Hj Ht';
                [inversion Hj; subst; lia | apply (Hleft j); [lia | assumption ..]].
      * destruct (IH _ _ _ _ H) as [[Hb Hall] | (Hle & t & Hn & Hop & Hbp & Hmax & Hleft)].
        -- left. split; [assumption |].
           intros [| j] t Hj Ht; [inversion Hj; subst; lia | now apply (Hall j)].
        -- right. split; [lia |]. exists t.
           replace (idx - i) with (S (idx - S i)) by lia.
           repeat split; try assumption.
           ++ intros [| j] t' Hj Ht'; [inversion Hj; subst; lia | now apply (Hmax j)].
           ++ intros [| j] t' Hlt' Hj Ht';
                [inversion Hj; subst; lia | apply (Hleft j); [lia | assumption ..]].
Qed.


(** C10.  On the tokens of ["1+2*"] the resolver picks the trailing
    [*] and reads the token after it: it raises [IndexError] instead of
    returning a pending operation or nothing. *)
Theorem find_next_operation_trailing_operator :
  parse_expression (py "1+2*")
  = [mkToken T_number (py "1") 0 1; mkToken T_operator (py "+") 1 2;
     mkToken T_number (py "2") 2 3; mkToken T_operator (py "*") 3 4]
  /\ find_next_operation (parse_expression (py "1+2*")) (py "1+2*")
     = Raise IndexError.
Proof. split; reflexivity. Qed.

(** ** The resolver on a well-formed expression *)

Lemma best_operator_chain (rest : chain) :
  forall i k best bp,
    best_operator (chain_tokens i rest) k best bp
    = match chain_best rest bp with
      | Some j => Some (k + 2 * j)
      | None => best
      end.
Proof.
  induction rest as [| x r IH]; intros i k best bp; [reflexivity |].
  cbn [chain_tokens best_operator tok_type tok_value chain_best].
  fold (op_priority (fst x)).
  destruct (bp <? op_priority (fst x))%Z.
  - rewrite IH. destruct (chain_best r (op_priority (fst x))); f_equal; lia.
  - rewrite IH. destruct (chain_best r bp); cbn [option_map];
      [f_equal; lia | reflexivity].
Qed.

Lemma chain_best_bound (rest : chain) :
  forall bp j, chain_best rest bp = Some j -> j < length rest.
Proof.
  induction rest as [| x r IH]; intros bp j H; cbn in H; [discriminate |].
  destruct (bp <? op_priority (fst x))%Z.
  - destruct (chain_best r (op_priority (fst x))) eqn:Hr; inversion H; subst.
    + apply IH in Hr. cbn. lia.
    + cbn. lia.
  - destruct (chain_best r bp) eqn:Hr; inversion H; subst.
    apply IH in Hr. cbn. lia.
Qed.

Lemma operator_char_cases (op : ascii) :
  char_in op "+-*/" = true ->
  op = "+"%char \/ op = "-"%char \/ op = "*"%char \/ op = "/"%char.
Proof. by_cases_on_char op. Qed.

Lemma chain_best_some (rest : chain) :
  well_formed_chain rest = true -> rest <> [] ->
  exists j, chain_best rest (-1) = Some j.
Proof.
  destruct rest as [| x r]; [congruence |]. intros Hwf _. cbn in Hwf.
  apply andb_prop in Hwf as [Hx _]. apply andb_prop in Hx as [Hop _].
  cbn [chain_best].
  assert (H : (-1 <? op_priority (fst x))%Z = true).
  { destruct (operator_char_cases _ Hop) as [-> | [-> | [-> | ->]]]; reflexivity. }
  rewrite H. eauto.
Qed.

Lemma tail_text_app (a b : chain) :
  tail_text (a ++ b) = tail_text a ++ tail_text b.
Proof. apply flat_map_app. Qed.

Lemma tail_text_one (x : ascii * str) : tail_text [x] = fst x :: snd x.
Proof. cbn. now rewrite app_nil_r. Qed.

Lemma chain_tokens_app (a b : chain) (i : nat) :
  chain_tokens i (a ++ b)
  = chain_tokens i a ++ chain_tokens (i + length (tail_text a)) b.
Proof.
  revert i. induction a as [| x a IH]; intros i.
  - cbn. now rewrite Nat.add_0_r.
  - cbn [app chain_tokens tail_text flat_map length]. rewrite IH.
    fold (tail_text a). rewrite length_app. cbn [app].
    replace (i + 1 + length (snd x) + length (tail_text a))
      with (i + S (length (snd x) + length (tail_text a))) by lia.
    reflexivity.
Qed.

Lemma chain_tokens_length (rest : chain) (i : nat) :
  length (chain_tokens i rest) = 2 * length rest.
Proof.
  revert i. induction rest as [| x r IH]; intros i; [reflexivity |].
  cbn [chain_tokens length]. rewrite IH. lia.
Qed.

Lemma snoc_cases {A : Type} (l : list A) :
  l = [] \/ exists l' a, l = l' ++ [a].
Proof.
  destruct l as [| a l]; [now left | right].
  destruct (exists_last (l := a :: l)) as (l' & b & H); [discriminate |].
  eauto.
Qed.

(** The tokens of an expression end with the token of its last
    operand. *)
Lemma expression_tokens_last (n0 : str) (pre : chain) :
  exists front,
    expression_tokens n0 pre
    = front ++ [mkToken T_number (last_operand n0 pre)
                        (length (expression_text n0 pre)
                         - length (last_operand n0 pre))
                        (length (expression_text n0 pre))]
    /\ length front = 2 * length pre.
Proof.
  unfold expression_tokens, expression_text, last_operand.
  destruct (snoc_cases pre) as [-> | (pre' & x & ->)].
  - exists []. cbn. rewrite app_nil_r, Nat.sub_diag. auto.
  - exists (mkToken T_number n0 0 (length n0)
              :: chain_tokens (length n0) pre'
              ++ [mkToken T_operator [fst x] (length n0 + length (tail_text pre'))
                          (length n0 + length (tail_text pre') + 1)]).
    rewrite chain_tokens_app, map_app. cbn [map]. rewrite last_last.
    cbn [chain_tokens]. split.
    + rewrite tail_text_app, tail_text_one, !length_app. cbn [length].
      cbn [app]. rewrite <- app_assoc. cbn [app].
      do 4 f_equal. f_equal; lia.
    + cbn [length]. rewrite !length_app, chain_tokens_length. cbn [length]. lia.
Qed.

Lemma operator_tool (op : ascii) :
  char_in op "+-*/" = true ->
  exists name f,
    OPERATOR_TO_TOOL [op] = Some name /\ TOOL_MAP [op] = Some name
    /\ CALC_TOOLS name = Some f
    /\ (f = add \/ f = sub \/ f = mul \/ f = div)
    /\ truthy (JStr [op]) = true.
Proof.
  intros H.
  destruct (operator_char_cases op H) as [-> | [-> | [-> | ->]]];
    do 2 eexists; (split; [reflexivity |]); (split; [reflexivity |]);
    (split; [reflexivity |]); (split; [| reflexivity]); auto.
Qed.

(** On the tokens of a well-formed expression with an operator, the
    resolver returns the operation at the leftmost operator of highest
    priority, with the operands next to it and the span they cover. *)
Lemma find_next_operation_chain (n0 : str) (rest : chain) (e : str) :
  well_formed n0 rest = true ->
  rest <> [] ->
  exists pre x post tool,
    rest = pre ++ x :: post
    /\ chain_best rest (-1) = Some (length pre)
    /\ OPERATOR_TO_TOOL [fst x] = Some tool
    /\ find_next_operation (expression_tokens n0 rest) e
       = Ok (Some (mkPending [fst x] (last_operand n0 pre) (snd x)
                             (length (expression_text n0 pre)
                              - length (last_operand n0 pre),
                              length (expression_text n0 pre) + 1
                              + length (snd x))
                             tool)).
Proof.
  intros Hwf Hne. apply andb_prop in Hwf as [Hn Hr].
  destruct (chain_best_some rest Hr Hne) as [j Hj].
  pose proof (chain_best_bound rest _ _ Hj) as Hlt.
  destruct (nth_error rest j) as [x |] eqn:Hx;
    [| apply nth_error_None in Hx; lia].
  destruct (nth_error_split rest j Hx) as (pre & post & -> & Hlen).
  subst j.
  assert (Hop : char_in (fst x) "+-*/" = true).
  { unfold well_formed_chain in Hr. rewrite forallb_app in Hr.
    apply andb_prop in Hr as [_ Hr]. cbn in Hr.
    apply andb_prop in Hr as [Hr _]. now apply andb_prop in Hr as [Hr _]. }
  destruct (operator_tool (fst x) Hop) as (tool & f & Htool & _).
  exists pre, x, post, tool. repeat split; try assumption.
  unfold find_next_operation.
  assert (Hlen3 : (length (expression_tokens n0 (pre ++ x :: post)) <? 3) = false).
  { apply Nat.ltb_ge. unfold expression_tokens. cbn [length].
    rewrite chain_tokens_length, length_app. cbn [length]. lia. }
  rewrite Hlen3.
  assert (Hbest : best_operator (expression_tokens n0 (pre ++ x :: post))
                                0 None (-1)
                  = Some (1 + 2 * length pre)).
  { unfold expression_tokens. cbn [best_operator tok_type].
    now rewrite best_operator_chain, Hj. }
  rewrite Hbest.
  destruct (expression_tokens_last n0 pre) as (front & Hfront & Hflen).
  assert (Htok : expression_tokens n0 (pre ++ x :: post)
                 = front
                     ++ mkToken T_number (last_operand n0 pre)
                          (length (expression_text n0 pre)
                           - length (last_operand n0 pre))
                          (length (expression_text n0 pre))
                     :: mkToken T_operator [fst x]
                          (length (expression_text n0 pre))
                          (length (expression_text n0 pre) + 1)
                     :: mkToken T_number (snd x)
                          (length (expression_text n0 pre) + 1)
                          (length (expression_text n0 pre) + 1 + length (snd x))
                     :: chain_tokens
                          (length (expression_text n0 pre) + 1 + length (snd x))
                          post).
  { unfold expression_tokens in *. rewrite chain_tokens_app.
    rewrite app_comm_cons, Hfront, <- app_assoc.
    unfold expression_text. rewrite length_app. reflexivity. }
  rewrite Htok.
  replace (Z.of_nat (1 + 2 * length pre) - 1)%Z
    with (Z.of_nat (length front)) by lia.
  replace (Z.of_nat (1 + 2 * length pre) + 1)%Z
    with (Z.of_nat (S (S (length front)))) by lia.
  replace (1 + 2 * length pre) with (S (length front)) by lia.
  rewrite !getitem_nat.
  rewrite !nth_error_app2 by lia.
  replace (S (length front) - length front) with 1 by lia.
  replace (length front - length front) with 0 by lia.
  replace (S (S (length front)) - length front) with 2 by lia.
  cbn [nth_error bind tok_value tok_start tok_end].
  now rewrite Htool.
Qed.

(** ** Rewriting a well-formed expression *)

Lemma reduced_nil n0 v post : reduced n0 [] v post = (v, post).
Proof. reflexivity. Qed.

Lemma reduced_snoc n0 pre y v post :
  reduced n0 (pre ++ [y]) v post = (n0, pre ++ (fst y, v) :: post).
Proof. unfold reduced. now rewrite rev_snoc, rev_involutive. Qed.

Lemma last_operand_nil n0 : last_operand n0 [] = n0.
Proof. reflexivity. Qed.

Lemma last_operand_snoc n0 pre y : last_operand n0 (pre ++ [y]) = snd y.
Proof. unfold last_operand. rewrite map_app. cbn [map]. apply last_last. Qed.

Lemma expression_text_nil n0 : expression_text n0 [] = n0.
Proof. unfold expression_text. cbn. apply app_nil_r. Qed.

Lemma well_formed_chain_app (a b : chain) :
  well_formed_chain (a ++ b) = well_formed_chain a && well_formed_chain b.
Proof. apply forallb_app. Qed.

Lemma well_formed_chain_cons (x : ascii * str) (r : chain) :
  well_formed_chain (x :: r) = true <->
  char_in (fst x) "+-*/" = true /\ is_literal (snd x) = true
  /\ well_formed_chain r = true.
Proof.
  unfold well_formed_chain. cbn [forallb].
  rewrite !andb_true_iff. tauto.
Qed.


Lemma reduced_length n0 pre v post :
  length (snd (reduced n0 pre v post)) = length pre + length post.
Proof.
  destruct (snoc_cases pre) as [-> | (pre' & y & ->)].
  - reflexivity.
  - rewrite reduced_snoc. cbn [snd]. rewrite !length_app. cbn [length]. lia.
Qed.

Lemma reduced_well_formed n0 pre x v post :
  well_formed n0 (pre ++ x :: post) = true ->
  is_literal v = true ->
  well_formed (fst (reduced n0 pre v post)) (snd (reduced n0 pre v post)) = true.
Proof.
  intros H Hv. apply andb_prop in H as [Hn Hr].
  rewrite well_formed_chain_app in Hr. apply andb_prop in Hr as [Hpre Hpost].
  apply well_formed_chain_cons in Hpost as (_ & _ & Hpost).
  destruct (snoc_cases pre) as [-> | (pre' & y & ->)].
  - rewrite reduced_nil. unfold well_formed. cbn [fst snd]. now rewrite Hv, Hpost.
  - rewrite reduced_snoc. unfold well_formed. cbn [fst snd].
    rewrite well_formed_chain_app in Hpre. apply andb_prop in Hpre as [Hpre' Hy].
    apply well_formed_chain_cons in Hy as (Hy & _ & _).
    rewrite Hn, well_formed_chain_app, Hpre'. cbn [andb].
    apply well_formed_chain_cons. cbn [fst snd]. auto.
Qed.

(** The text before the left operand, and the whole text around the
    operation. *)
Lemma expression_text_split n0 pre x post :
  exists front,
    expression_text n0 pre = front ++ last_operand n0 pre
    /\ expression_text n0 (pre ++ x :: post)
       = front ++ last_operand n0 pre ++ fst x :: snd x ++ tail_text post
    /\ forall v,
        expression_text (fst (reduced n0 pre v post))
                        (snd (reduced n0 pre v post))
        = front ++ v ++ tail_text post.
Proof.
  destruct (snoc_cases pre) as [-> | (pre' & y & ->)].
  - exists []. rewrite last_operand_nil, expression_text_nil.
    repeat split.
  - exists (n0 ++ tail_text pre' ++ [fst y]).
    rewrite last_operand_snoc. unfold expression_text.
    repeat split.
    + rewrite tail_text_app, tail_text_one, <- !app_assoc. reflexivity.
    + rewrite !tail_text_app, tail_text_one. cbn [tail_text flat_map].
      rewrite <- !app_assoc. reflexivity.
    + intros v. rewrite reduced_snoc. cbn [fst snd].
      rewrite tail_text_app. cbn [tail_text flat_map fst snd].
      rewrite <- !app_assoc. reflexivity.
Qed.

Lemma expression_text_plain n0 rest :
  well_formed n0 rest = true ->
  Forall (fun c => plain_char c = true) (expression_text n0 rest).
Proof.
  intros H. apply andb_prop in H as [Hn Hr].
  destruct (is_literal_shape n0 Hn) as [l Hl].
  apply Forall_app. split;
    [now apply (literal_shape_plain n0 l) | now apply tail_text_plain].
Qed.

Lemma parenthesised_plain (expr : str) (start end_ : nat) :
  Forall (fun c => plain_char c = true) expr ->
  parenthesised expr start end_ = false.
Proof.
  intros H. unfold parenthesised. destruct start as [| before]; [reflexivity |].
  destruct (nth_error expr before) as [a |] eqn:Ha; [| reflexivity].
  destruct (nth_error expr end_); [| reflexivity].
  apply nth_error_In in Ha. rewrite Forall_forall in H.
  destruct (plain_char_facts a (H a Ha)) as (_ & _ & -> & _). reflexivity.
Qed.

(** Writing the result over the span of the chosen operation leaves a
    well-formed expression with one operator less. *)
Lemma replace_span_chain n0 pre x post v :
  well_formed n0 (pre ++ x :: post) = true ->
  replace_span (expression_text n0 (pre ++ x :: post))
               (Z.of_nat (length (expression_text n0 pre)
                          - length (last_operand n0 pre)),
                Z.of_nat (length (expression_text n0 pre) + 1
                          + length (snd x)))
               v
  = Ok (expression_text (fst (reduced n0 pre v post))
                        (snd (reduced n0 pre v post))).
Proof.
  intros Hwf.
  rewrite replace_span_offsets by lia.
  unfold rewrite_spec.
  rewrite parenthesised_plain by now apply expression_text_plain.
  destruct (expression_text_split n0 pre x post) as (front & Hpre & Hall & Hred).
  rewrite Hred, Hall, Hpre. f_equal.
  replace (length (front ++ last_operand n0 pre) - length (last_operand n0 pre))
    with (length front) by (rewrite length_app; lia).
  rewrite firstn_exact. do 2 f_equal.
  replace (front ++ last_operand n0 pre ++ fst x :: snd x ++ tail_text post)
    with ((front ++ last_operand n0 pre ++ fst x :: snd x) ++ tail_text post)
    by (rewrite <- !app_assoc; reflexivity).
  replace (length (front ++ last_operand n0 pre) + 1 + length (snd x))
    with (length (front ++ last_operand n0 pre ++ fst x :: snd x)).
  - apply skipn_exact.
  - rewrite !length_app. cbn [length]. lia.
Qed.

(** ** Numbers as text *)

Lemma literal_shape_match (s : str) (l : numlit) :
  literal_shape s l -> match_number s = Some l.
Proof.
  intros H. pose proof (match_number_tail s l [] H I) as Hm.
  now rewrite app_nil_r in Hm.
Qed.

Lemma remove_underscores_plain (s : str) :
  Forall (fun c => plain_char c = true) s ->
  forall prev,
    match prev with Some p => plain_char p = true | None => True end ->
    remove_underscores prev s = Some s.
Proof.
  induction 1 as [| c s Hc Hs IH]; intros prev Hprev.
  - cbn. destruct prev as [p |]; [| reflexivity].
    now destruct (plain_char_facts p Hprev) as (_ & -> & _).
  - cbn [remove_underscores].
    destruct (plain_char_facts c Hc) as (_ & -> & _).
    destruct prev as [p |].
    + destruct (plain_char_facts p Hprev) as (_ & -> & _). cbn [andb].
      now rewrite IH.
    + now rewrite IH.
Qed.

(** [float] reads every number literal. *)
Lemma py_float_literal (s : str) :
  is_literal s = true ->
  exists l, match_number s = Some l /\ py_float s = Ok (float_of_numlit l).
Proof.
  intros H. destruct (is_literal_shape s H) as [l Hl].
  pose proof (literal_shape_plain s l Hl) as Hplain.
  exists l. split; [now apply literal_shape_match |].
  unfold py_float. rewrite strip_float_plain by assumption.
  rewrite remove_underscores_plain by (assumption || exact I).
  now rewrite (literal_shape_match s l Hl).
Qed.

Lemma is_single_number_literal (s : str) :
  is_literal s = true -> is_single_number s = true.
Proof.
  intros H. destruct (is_literal_shape s H) as [l Hl].
  unfold is_single_number. rewrite strip_plain by now apply (literal_shape_plain s l).
  destruct (literal_shape_head s l Hl) as (c & r & -> & _).
  now rewrite (literal_shape_match _ l Hl).
Qed.

Lemma is_single_number_chain (n0 : str) (x : ascii * str) (rest : chain) :
  well_formed n0 (x :: rest) = true ->
  is_single_number (expression_text n0 (x :: rest)) = false.
Proof.
  intros H. pose proof (expression_text_plain _ _ H) as Hplain.
  apply andb_prop in H as [Hn Hr].
  destruct (is_literal_shape n0 Hn) as [l Hl].
  unfold is_single_number. rewrite strip_plain by assumption.
  unfold expression_text in *.
  rewrite (match_number_tail n0 l _ Hl) by now apply tail_text_at_operator.
  cbn [tail_text flat_map app].
  destruct (literal_shape_head n0 l Hl) as (c & r & -> & _). reflexivity.
Qed.

(** ** Decimal digits *)

Lemma digit_char_decimal (d : Z) :
  (0 <= d < 10)%Z -> is_decimal (digit_char d) = true.
Proof.
  intros H.
  assert (Hc : (d = 0 \/ d = 1 \/ d = 2 \/ d = 3 \/ d = 4 \/ d = 5 \/ d = 6
                \/ d = 7 \/ d = 8 \/ d = 9)%Z) by lia.
  repeat (destruct Hc as [-> | Hc]; [reflexivity |]). now subst.
Qed.

Lemma digits_loop_decimal (fuel : nat) :
  forall n acc,
    Forall (fun c => is_decimal c = true) acc ->
    Forall (fun c => is_decimal c = true) (digits_loop fuel n acc).
Proof.
  induction fuel as [| fuel IH]; intros n acc Hacc; [exact Hacc |].
  cbn [digits_loop].
  assert (Hd : Forall (fun c => is_decimal c = true) (digit_char (n mod 10) :: acc)).
  { constructor; [| exact Hacc]. apply digit_char_decimal.
    apply Z.mod_pos_bound. lia. }
  destruct (n <? 10)%Z; [exact Hd | now apply IH].
Qed.

Lemma digits_loop_nonempty (fuel : nat) :
  forall n acc, digits_loop (S fuel) n acc <> [].
Proof.
  induction fuel as [| fuel IH]; intros n acc.
  - cbn. destruct (n <? 10)%Z; discriminate.
  - cbn [digits_loop]. destruct (n <? 10)%Z; [discriminate |].
    apply (IH (n / 10)%Z (digit_char (n mod 10) :: acc)).
Qed.

Lemma str_nat_decimal (n : Z) :
  Forall (fun c => is_decimal c = true) (str_nat n) /\ str_nat n <> [].
Proof.
  unfold str_nat. split.
  - apply digits_loop_decimal. constructor.
  - apply digits_loop_nonempty.
Qed.

Lemma digits_shape (sg : str) (neg : bool) (d : str) :
  signed sg neg ->
  Forall (fun c => is_decimal c = true) d -> d <> [] ->
  is_literal (sg ++ d) = true.
Proof.
  intros Hsg Hd Hne.
  assert (H : literal_shape (sg ++ d ++ [] ++ [] ++ [])
                            (mkNumlit neg d [] false [])).
  { apply literal_shape_intro; try constructor; try assumption.
    now rewrite app_nil_r. }
  cbn [app] in H. rewrite app_nil_r in H.
  unfold is_literal. now rewrite (literal_shape_match _ _ H).
Qed.

Lemma str_int_literal (i : Z) : is_literal (str_int i) = true.
Proof.
  unfold str_int. destruct (i <? 0)%Z.
  - destruct (str_nat_decimal (- i)) as [Hd Hne].
    now apply (digits_shape ["-"%char] true); [constructor | |].
  - destruct (str_nat_decimal i) as [Hd Hne].
    now apply (digits_shape [] false); [constructor | |].
Qed.

Lemma digits6_decimal (n : Z) :
  Forall (fun c => is_decimal c = true) (digits6 n) /\ length (digits6 n) = 6.
Proof.
  unfold digits6. split; [| reflexivity].
  apply Forall_map. apply Forall_forall. intros k _.
  apply digit_char_decimal. apply Z.mod_pos_bound. lia.
Qed.

Lemma drop_zeros_decimal (s : str) :
  Forall (fun c => is_decimal c = true) s ->
  Forall (fun c => is_decimal c = true) (drop_zeros s).
Proof.
  induction 1 as [| c s Hc Hs IH]; [constructor |].
  cbn. destruct (Ascii.eqb c "0"); [exact IH | now constructor].
Qed.

Lemma strip_trailing_zeros_decimal (s : str) :
  Forall (fun c => is_decimal c = true) s ->
  Forall (fun c => is_decimal c = true) (strip_trailing_zeros s).
Proof.
  intros H. unfold strip_trailing_zeros.
  apply Forall_rev, drop_zeros_decimal, Forall_rev, H.
Qed.

Lemma Forall_firstn_decimal (k : nat) (s : str) :
  Forall (fun c => is_decimal c = true) s ->
  Forall (fun c => is_decimal c = true) (firstn k s).
Proof.
  intros H. rewrite <- (firstn_skipn k s) in H. now apply Forall_app in H.
Qed.

Lemma Forall_skipn_decimal (k : nat) (s : str) :
  Forall (fun c => is_decimal c = true) s ->
  Forall (fun c => is_decimal c = true) (skipn k s).
Proof.
  intros H. rewrite <- (firstn_skipn k s) in H. now apply Forall_app in H.
Qed.

Lemma point_shape sg neg ip fr ex eneg ed :
  signed sg neg ->
  Forall (fun c => is_decimal c = true) ip -> ip <> [] ->
  Forall (fun c => is_decimal c = true) fr ->
  exponent ex eneg ed ->
  is_literal (sg ++ with_point ip fr ++ ex) = true.
Proof.
  intros Hsg Hip Hne Hfr Hex.
  assert (H : exists l, literal_shape (sg ++ with_point ip fr ++ ex) l).
  { destruct fr as [| c fr].
    - exists (mkNumlit neg ip [] eneg ed).
      change (sg ++ with_point ip [] ++ ex) with (sg ++ ip ++ [] ++ [] ++ ex).
      apply literal_shape_intro; try constructor; try assumption.
      now rewrite app_nil_r.
    - exists (mkNumlit neg ip (c :: fr) eneg ed).
      replace (sg ++ with_point ip (c :: fr) ++ ex)
        with (sg ++ ip ++ ["."%char] ++ (c :: fr) ++ ex)
        by (unfold with_point; now rewrite <- !app_assoc).
      apply literal_shape_intro;
        [assumption | assumption | constructor | assumption | | assumption].
      destruct ip; [congruence | discriminate]. }
  destruct H as [l H]. unfold is_literal.
  now rewrite (literal_shape_match _ _ H).
Qed.

Lemma exponent_text_shape (x : Z) :
  exists eneg ed, exponent ("e"%char :: exponent_text x) eneg ed.
Proof.
  unfold exponent_text.
  destruct (str_nat_decimal (Z.abs x)) as [Hd Hne].
  set (ed := if (Z.abs x <? 10)%Z then "0"%char :: str_nat (Z.abs x)
             else str_nat (Z.abs x)).
  assert (Hed : Forall (fun c => is_decimal c = true) ed /\ ed <> []).
  { unfold ed. destruct (Z.abs x <? 10)%Z; split; try assumption;
      [now constructor | discriminate]. }
  destruct Hed as [Hed Hne'].
  destruct (x <? 0)%Z.
  - exists true, ed. apply (exponent_some "e" ["-"%char] true ed);
      [reflexivity | constructor | assumption ..].
  - exists false, ed. apply (exponent_some "e" ["+"%char] false ed);
      [reflexivity | constructor | assumption ..].
Qed.

Lemma format_g_pos_literal (num den : Z) (sg : str) (neg : bool) :
  signed sg neg ->
  is_literal (sg ++ format_g_pos num den) = true.
Proof.
  intros Hsg. unfold format_g_pos.
  destruct (six_digits num den) as [n x].
  destruct (digits6_decimal n) as [Hd Hlen].
  destruct ((x <? -4)%Z || (6 <=? x)%Z).
  - destruct (exponent_text_shape x) as (eneg & ed & Hex).
    apply (point_shape sg neg _ _ _ eneg ed Hsg); [| | | exact Hex].
    + now apply Forall_firstn_decimal.
    + destruct (digits6 n); discriminate.
    + now apply strip_trailing_zeros_decimal, Forall_skipn_decimal.
  - destruct (0 <=? x)%Z.
    + rewrite <- (app_nil_r (with_point _ _)).
      apply (point_shape sg neg _ _ _ false [] Hsg); [| | | constructor].
      * now apply Forall_firstn_decimal.
      * rewrite Nat.add_1_r. destruct (digits6 n); discriminate.
      * now apply strip_trailing_zeros_decimal, Forall_skipn_decimal.
    + rewrite <- (app_nil_r (with_point _ _)).
      apply (point_shape sg neg _ _ _ false [] Hsg); [| | | constructor].
      * repeat constructor.
      * discriminate.
      * apply strip_trailing_zeros_decimal, Forall_app. split; [| assumption].
        apply Forall_forall. intros c Hc. apply repeat_spec in Hc. now subst.
Qed.

(** What the formatter returns is a number literal. *)
Lemma format_number_literal (v : float) (s : str) :
  format_number v = Ok s -> is_literal s = true.
Proof.
  unfold format_number.
  destruct v as [sz | si | | sf m e]; cbn [int_of_float bind]; try discriminate.
  - cbn. intros H. inversion H. reflexivity.
  - destruct (float_eq_int _ _); intros H; inversion H; subst.
    + apply str_int_literal.
    + cbn [format_g].
      destruct sf; destruct e;
        (apply (format_g_pos_literal _ _ ["-"%char] true); constructor)
        || (apply (format_g_pos_literal _ _ [] false); constructor).
Qed.

(** The formatter fails on the infinities and on NaN only. *)
Lemma format_number_raises (v : float) (e : exn) :
  format_number v = Raise e ->
  (e = OverflowError \/ e = ValueError)
  /\ match v with S754_infinity _ | S754_nan => True | _ => False end.
Proof.
  unfold format_number.
  destruct v as [sz | si | | sf m ex]; cbn [int_of_float bind].
  - cbn. discriminate.
  - intros H. inversion H. auto.
  - intros H. inversion H. auto.
  - destruct (float_eq_int _ _); discriminate.
Qed.

(** ** Reading decimal digits back *)

Lemma digit_value_char (d : Z) :
  (0 <= d < 10)%Z -> digit_value (digit_char d) = d.
Proof.
  intros H.
  assert (Hc : (d = 0 \/ d = 1 \/ d = 2 \/ d = 3 \/ d = 4 \/ d = 5 \/ d = 6
                \/ d = 7 \/ d = 8 \/ d = 9)%Z) by lia.
  repeat (destruct Hc as [-> | Hc]; [reflexivity |]). now subst.
Qed.

Lemma fold_digits (s : str) (acc : Z) :
  fold_left (fun a c => (10 * a + digit_value c)%Z) s acc
  = (acc * 10 ^ Z.of_nat (length s) + digits_value s)%Z.
Proof.
  unfold digits_value. revert acc.
  induction s as [| c s IH]; intros acc.
  - cbn. lia.
  - cbn [fold_left length]. rewrite IH, (IH (10 * 0 + digit_value c)%Z).
    rewrite Nat2Z.inj_succ, Z.pow_succ_r by lia. ring.
Qed.

Lemma digits_value_cons (c : ascii) (s : str) :
  digits_value (c :: s)
  = (digit_value c * 10 ^ Z.of_nat (length s) + digits_value s)%Z.
Proof.
  unfold digits_value at 1. cbn [fold_left]. rewrite fold_digits. ring.
Qed.

Lemma digits_loop_value (fuel : nat) :
  forall n acc,
    (0 <= n < 10 ^ Z.of_nat fuel)%Z ->
    digits_value (digits_loop fuel n acc)
    = (n * 10 ^ Z.of_nat (length acc) + digits_value acc)%Z.
Proof.
  induction fuel as [| fuel IH]; intros n acc Hn.
  - cbn in *. assert (n = 0%Z) by lia. subst. reflexivity.
  - cbn [digits_loop].
    pose proof (Z.mod_pos_bound n 10 ltac:(lia)) as Hmod.
    destruct (Z.ltb_spec n 10) as [Hlt | Hge].
    + rewrite digits_value_cons, digit_value_char by assumption.
      now rewrite Z.mod_small by lia.
    + rewrite IH.
      * rewrite digits_value_cons, digit_value_char by assumption.
        cbn [length]. rewrite Nat2Z.inj_succ, Z.pow_succ_r by lia.
        rewrite (Z.div_mod n 10) at 3 by lia. ring.
      * rewrite Nat2Z.inj_succ, Z.pow_succ_r in Hn by lia.
        split; [apply Z.div_pos; lia |].
        apply Z.div_lt_upper_bound; lia.
Qed.

Lemma str_nat_value (n : Z) : (0 <= n)%Z -> digits_value (str_nat n) = n.
Proof.
  intros Hn. unfold str_nat. rewrite digits_loop_value.
  - cbn. lia.
  - split; [assumption |].
    rewrite Nat2Z.inj_succ, Z2Nat.id by apply Z.log2_nonneg.
    destruct (Z.eq_dec n 0) as [-> | Hnz]; [reflexivity |].
    destruct (Z.log2_spec n ltac:(lia)) as [_ Hlt].
    eapply Z.lt_le_trans; [exact Hlt |].
    apply Z.pow_le_mono_l.
    pose proof (Z.log2_nonneg n). lia.
Qed.

(** ** Integers that are floats *)

Lemma iter_pos_shr_exact (p : positive) :
  forall m,
    iter_pos shr_1 p (Build_shr_record (Zpos (Pos.iter xO m p)) false false)
    = Build_shr_record (Zpos m) false false.
Proof.
  induction p as [p IH | p IH |]; intros m; cbn [iter_pos Pos.iter].
  - cbn [shr_1 orb]. now rewrite !IH.
  - now rewrite !IH.
  - reflexivity.
Qed.

Lemma digits2_iter_xO (m p : positive) :
  digits2_pos (Pos.iter xO m p) = (digits2_pos m + p)%positive.
Proof.
  induction p as [| p IH] using Pos.peano_ind.
  - cbn. lia.
  - rewrite Pos.iter_succ. cbn [digits2_pos]. rewrite IH. lia.
Qed.

Lemma Zpos_iter_xO (m p : positive) :
  Zpos (Pos.iter xO m p) = (Zpos m * 2 ^ Zpos p)%Z.
Proof.
  induction p as [| p IH] using Pos.peano_ind.
  - cbn. lia.
  - rewrite Pos.iter_succ, Pos2Z.inj_succ, Z.pow_succ_r by lia.
    rewrite Pos2Z.inj_xO, IH. ring.
Qed.

(** Rounding a mantissa that is already canonical changes nothing. *)
Lemma binary_round_aux_canonical (s : bool) (m : positive) (e : Z) :
  bounded prec emax m e = true ->
  binary_round_aux prec emax s (Zpos m) e loc_Exact = S754_finite s m e.
Proof.
  unfold bounded, canonical_mantissa. intros H.
  apply andb_prop in H as [Hc Hb]. apply Z.eqb_eq in Hc.
  unfold binary_round_aux, shr_fexp. cbn [Zdigits2 shr_record_of_loc].
  rewrite Hc, Z.sub_diag. cbn [shr shr_m loc_of_shr_record round_nearest_even].
  cbn [Zdigits2 shr_record_of_loc].
  rewrite Hc, Z.sub_diag. cbn [shr shr_m]. now rewrite Hb.
Qed.

(** The integer a float holds, written in binary and rounded, is that
    float. *)
Lemma binary_normalize_integral (s : bool) (m : positive) (e : Z) (i : Z)
      (sz : bool) :
  bounded prec emax m e = true ->
  int_of_float (S754_finite s m e) = Ok i ->
  float_eq_int (S754_finite s m e) i = true ->
  binary_normalize prec emax i 0 sz = S754_finite s m e /\ i <> 0%Z.
Proof.
  intros Hbounded Hint Heq.
  pose proof Hbounded as Hb. unfold bounded, canonical_mantissa in Hb.
  apply andb_prop in Hb as [Hc Hle]. apply Z.eqb_eq in Hc.
  assert (Hi : i = cond_Zopp s match e with
                               | Zneg p => (Zpos m / 2 ^ Zpos p)%Z
                               | _ => (Zpos m * 2 ^ e)%Z
                               end)
    by (unfold int_of_float in Hint; congruence).
  clear Hint.
  destruct e as [| p | p].
  - (* the mantissa is the integer *)
    rewrite Z.pow_0_r, Z.mul_1_r in Hi. subst i.
    assert (Hround : binary_round prec emax s m 0 = S754_finite s m 0).
    { unfold binary_round. rewrite Hc. cbn [shl_align Z.sub Z.opp Z.add].
      now apply binary_round_aux_canonical. }
    destruct s; cbn [cond_Zopp Z.opp binary_normalize]; split;
      (exact Hround || discriminate).
  - (* the integer is the mantissa shifted left *)
    rewrite <- Zpos_iter_xO in Hi. subst i.
    assert (Hround : binary_round prec emax s (Pos.iter xO m p) 0
                     = S754_finite s m (Zpos p)).
    { unfold binary_round.
      rewrite digits2_iter_xO, Z.add_0_r, Pos2Z.inj_add, Hc.
      cbn [shl_align Z.sub Z.opp Z.add].
      unfold binary_round_aux, shr_fexp.
      cbn [Zdigits2 shr_record_of_loc].
      rewrite digits2_iter_xO, Z.add_0_r, Pos2Z.inj_add, Hc, Z.sub_0_r.
      cbn [shr]. rewrite iter_pos_shr_exact.
      cbn [shr_m loc_of_shr_record round_nearest_even Z.add].
      cbn [Zdigits2 shr_record_of_loc].
      rewrite Hc, Z.sub_diag. cbn [shr shr_m]. now rewrite Hle. }
    destruct s; cbn [cond_Zopp Z.opp binary_normalize]; split;
      (exact Hround || discriminate).
  - (* the mantissa is the integer shifted left *)
    unfold float_eq_int in Heq. apply Z.eqb_eq in Heq.
    set (z := (Zpos m / 2 ^ Zpos p)%Z) in *.
    assert (Hm : Zpos m = (z * 2 ^ Zpos p)%Z).
    { subst i. destruct s; cbn [cond_Zopp] in Heq; lia. }
    assert (Hz : (0 < z)%Z).
    { pose proof (Z.pow_pos_nonneg 2 (Zpos p) ltac:(lia) ltac:(lia)). nia. }
    destruct z as [| zp |] eqn:Hzp; try lia.
    rewrite <- Zpos_iter_xO in Hm. inversion Hm as [Hm']. clear Hm.
    assert (Hround : binary_round prec emax s zp 0 = S754_finite s m (Zneg p)).
    { unfold binary_round. rewrite Z.add_0_r.
      assert (Hd : Zpos (digits2_pos zp) = (Zpos (digits2_pos m) + Zneg p)%Z).
      { rewrite Hm', digits2_iter_xO, Pos2Z.inj_add. lia. }
      rewrite Hd, Hc. cbn [shl_align Z.sub Z.opp Z.add].
      rewrite <- Hm'. now apply binary_round_aux_canonical. }
    subst i. rewrite <- Hm'.
    destruct s; cbn [cond_Zopp Z.opp binary_normalize]; split;
      (exact Hround || discriminate).
Qed.

(** ** The formatter, read back *)

Lemma parse_number_literal (s : str) :
  is_literal s = true ->
  exists l, match_number s = Some l /\ parse_number s = Ok (float_of_numlit l).
Proof.
  intros H. destruct (py_float_literal s H) as (l & Hm & Hf).
  exists l. split; [assumption |].
  unfold parse_number. rewrite <- (expression_text_nil s) at 1.
  rewrite parse_expression_well_formed
    by (unfold well_formed; now rewrite H).
  exact Hf.
Qed.

Lemma str_int_match (i : Z) :
  match_number (str_int i)
  = Some (mkNumlit (i <? 0)%Z (str_nat (Z.abs i)) [] false []).
Proof.
  apply literal_shape_match.
  destruct (str_nat_decimal (Z.abs i)) as [Hd Hne].
  assert (Hshape : forall sg neg,
             signed sg neg ->
             literal_shape (sg ++ str_nat (Z.abs i))
                           (mkNumlit neg (str_nat (Z.abs i)) [] false [])).
  { intros sg neg Hsg.
    replace (sg ++ str_nat (Z.abs i))
      with (sg ++ str_nat (Z.abs i) ++ [] ++ [] ++ [])
      by (cbn [app]; now rewrite app_nil_r).
    apply literal_shape_intro; try constructor; try assumption.
    now rewrite app_nil_r. }
  unfold str_int. destruct (Z.ltb_spec i 0).
  - replace (- i)%Z with (Z.abs i) by lia.
    apply (Hshape ["-"%char] true). constructor.
  - replace i with (Z.abs i) at 1 by lia.
    apply (Hshape [] false). constructor.
Qed.

Lemma py_float_str_int (i : Z) :
  i <> 0%Z ->
  py_float (str_int i) = Ok (binary_normalize prec emax i 0 (i <? 0)%Z).
Proof.
  intros Hi.
  destruct (py_float_literal (str_int i) (str_int_literal i)) as (l & Hm & Hp).
  rewrite str_int_match in Hm. inversion Hm; subst l. rewrite Hp. f_equal.
  unfold float_of_numlit. cbn [nl_neg nl_int nl_frac nl_exp nl_exp_neg length].
  rewrite app_nil_r, str_nat_value by lia.
  change (cond_Zopp false (digits_value []) - Z.of_nat 0)%Z with 0%Z.
  cbn [Z.leb Z.compare]. rewrite Z.pow_0_r, Z.mul_1_r.
  unfold float_of_ratio.
  destruct (Z.abs i) eqn:Habs; [lia | |];
    cbn [Z.eqb Pos.eqb]; f_equal;
    destruct (Z.ltb_spec i 0); cbn [cond_Zopp]; lia.
Qed.

Lemma SFeqb_finite_refl (s : bool) (m : positive) (e : Z) :
  SFeqb (S754_finite s m e) (S754_finite s m e) = true.
Proof.
  unfold SFeqb, SFcompare.
  destruct s; rewrite Z.compare_refl, Pos.compare_cont_refl; reflexivity.
Qed.

(** X28.  For every finite float, [float] reads the text of
    [format_number] back; when the float holds an integer (the
    formatter's own test), the text reads back to an equal float,
    which formats to the same text. *)
Theorem format_number_reads_back (v : float) :
  valid_binary prec emax v = true ->
  is_finite v = true ->
  exists s,
    format_number v = Ok s
    /\ (exists y, py_float s = Ok y)
    /\ (is_integral v = true ->
        exists y, py_float s = Ok y
                  /\ SFeqb y v = true
                  /\ format_number y = Ok s).
Proof.
  intros Hvalid Hfin.
  destruct v as [sz | si | | sf m e]; try discriminate.
  - exists (py "0"). repeat split.
    + now exists (S754_zero false).
    + intros _. exists (S754_zero false). now destruct sz.
  - destruct (format_number (S754_finite sf m e)) as [s | ex] eqn:Hfmt.
    2:{ now destruct (format_number_raises _ _ Hfmt). }
    pose proof (format_number_literal _ _ Hfmt) as Hlit.
    exists s. split; [reflexivity |].
    split.
    + destruct (py_float_literal s Hlit) as (l & _ & Hp). eauto.
    + unfold is_integral. intros Hint.
      destruct (int_of_float (S754_finite sf m e)) as [i |] eqn:Hi;
        [| discriminate].
      destruct (binary_normalize_integral sf m e i (i <? 0)%Z Hvalid Hi Hint)
        as [Hnorm Hnz].
      assert (Hs : s = str_int i).
      { unfold format_number in Hfmt. rewrite Hi in Hfmt. cbn [bind] in Hfmt.
        rewrite Hint in Hfmt. congruence. }
      subst s. exists (S754_finite sf m e).
      rewrite (py_float_str_int i Hnz), Hnorm.
      repeat split; [apply SFeqb_finite_refl | exact Hfmt].
Qed.

Lemma format_number_reads_back_witness :
  valid_binary prec emax one = true
  /\ is_finite one = true
  /\ exists s,
      format_number one = Ok s
      /\ (exists y, py_float s = Ok y)
      /\ (is_integral one = true ->
          exists y, py_float s = Ok y
                    /\ SFeqb y one = true
                    /\ format_number y = Ok s).
Proof.
  split; [reflexivity |]. split; [reflexivity |].
  apply (format_number_reads_back one); reflexivity.
Defined.

(** ** Number formatting *)

(** C5.  The formatter does not keep the digits of a value that is not
    an integer: it prints six significant digits.  One third prints as
    ["0.333333"], which reads back as another value.  [1234567.5]
    prints as ["1.23457e+06"], which reads back as [1234570]; and that
    value prints as ["1234570"], so formatting the text read back does
    not give the same text either. *)
Theorem format_number_loses_digits :
  (valid_binary prec emax third = true
   /\ format_number third = Ok (py "0.333333")
   /\ exists y, parse_number (py "0.333333") = Ok y
                /\ py_float (py "0.333333") = Ok y
                /\ SFeqb y third = false)
  /\ (valid_binary prec emax seven_digits = true
      /\ is_finite seven_digits = true
      /\ SFeqb (SFadd prec emax seven_digits seven_digits) (whole 2469135)
         = true
      /\ format_number seven_digits = Ok (py "1.23457e+06")
      /\ parse_number (py "1.23457e+06") = Ok (whole 1234570)
      /\ py_float (py "1.23457e+06") = Ok (whole 1234570)
      /\ SFeqb (whole 1234570) seven_digits = false
      /\ format_number (whole 1234570) = Ok (py "1234570")
      /\ py "1234570" <> py "1.23457e+06").
Proof.
  split.
  - split; [reflexivity |]. split; [reflexivity |].
    eexists. split; [vm_compute; reflexivity |].
    split; [vm_compute; reflexivity | reflexivity].
  - repeat split; try (vm_compute; reflexivity). discriminate.
Qed.

(** ** Steps of the loop *)

Section Steps.

Variable judge_llm : nat -> str -> result json.
Variable calc_llm : nat -> json -> json -> json -> result (list tool_call).
Variable exn_text : exn -> str.
Variable py_str : json -> str.
Variable tool_error_text : tool_call -> str.

Let go := run judge_llm calc_llm exn_text py_str tool_error_text.

Local Arguments is_single_number : simpl never.
Local Arguments dict_get : simpl never.
Local Arguments truthy : simpl never.
Local Arguments py : simpl never.
Local Arguments format_number : simpl never.
Local Arguments replace_span_json : simpl never.

(** A run that has ended keeps its outcome when given more fuel. *)
Lemma run_more_fuel :
  forall fuel cycles n st,
    running (go fuel cycles n st) = false ->
    forall extra, go (fuel + extra) cycles n st = go fuel cycles n st.
Proof.
  induction fuel as [| fuel IH]; intros cycles n st Hend extra.
  - discriminate.
  - cbn [Nat.add]. unfold go in *. cbn [run] in *.
    destruct n.
    + destruct (route_after_judge _); auto.
    + destruct (calc_node _ _ _); auto.
    + destruct (tool_node _ _); auto.
    + destruct (update_node _ _ _); auto.
      destruct (runs_judge _); auto.
Qed.

(** The expression last recorded is a number: the run ends there. *)
Lemma run_done :
  forall fuel cycles h cur ms op l r sp tl er,
    is_single_number cur = true ->
    go (S fuel) cycles judge (mkState (h ++ [cur]) ms op l r sp tl er)
    = Finished cycles (mkState (h ++ [cur]) (ms ++ []) op l r sp tl er).
Proof.
  intros. unfold go. cbn [run].
  unfold judge_node. cbn [st_expression]. rewrite rev_snoc, H.
  unfold route_after_judge, apply_update, no_update. cbn.
  rewrite rev_snoc, H. now destruct (truthy er).
Qed.

(** Decide, call, compute: three node executions lead from
    [judge_node] to [update_node]. *)
Lemma run_to_update :
  forall fuel cycles h cur ms op l r sp tl er d calls,
    is_single_number cur = false ->
    truthy er = false ->
    judge_llm cycles cur = Ok (JObj d) ->
    truthy (dict_get d (py "operator")) = true ->
    calc_llm cycles (dict_get d (py "lhs")) (dict_get d (py "operator"))
             (dict_get d (py "rhs")) = Ok calls ->
    go (3 + fuel) cycles judge (mkState (h ++ [cur]) ms op l r sp tl er)
    = go fuel (S cycles) updating
          (mkState (h ++ [cur])
                   (((ms ++ []) ++ [AIMessage calls])
                      ++ map (run_tool_call tool_error_text) calls)
                   (dict_get d (py "operator")) (dict_get d (py "lhs"))
                   (dict_get d (py "rhs")) (dict_get d (py "span"))
                   (dict_get d (py "tool")) er).
Proof.
  intros fuel cycles h cur ms op l r sp tl er d calls Hnum Her Hj Hop Hc.
  unfold go. cbn [Nat.add run].
  unfold judge_node. cbn [st_expression]. rewrite rev_snoc, Hnum, Hj.
  unfold route_after_judge, apply_update. cbn.
  rewrite Her, rev_snoc, Hnum, Hop.
  unfold calc_node. cbn. rewrite Hop.
  cbn. rewrite Nat.sub_0_r, Hc. cbn.
  unfold tool_node. cbn.
  now rewrite rev_snoc.
Qed.

(** A tool value is formatted and written back over the span. *)
Lemma run_update_value :
  forall fuel cycles h cur ms op l r sp tl er v value_str new_expr,
    format_number v = Ok value_str ->
    truthy sp = true ->
    replace_span_json cur sp value_str = Ok new_expr ->
    go (S fuel) cycles updating
        (mkState (h ++ [cur]) (ms ++ [ToolMessage (ContentJson (value_dict v))])
                 op l r sp tl er)
    = go fuel cycles judge
          (mkState ((h ++ [cur]) ++ [new_expr])
                   ((ms ++ [ToolMessage (ContentJson (value_dict v))]) ++ [])
                   JNull JNull JNull JNull JNull er).
Proof.
  intros fuel cycles h cur ms op l r sp tl er v value_str new_expr Hf Hsp Hr.
  unfold go. cbn [run].
  unfold update_node. cbn [st_messages st_expression st_span].
  rewrite rev_snoc. unfold value_dict.
  change (dict_has [(py "value", JFloat v)] (py "error")) with false.
  cbv iota.
  change (dict_get [(py "value", JFloat v)] (py "value")) with (JFloat v).
  cbn [float_of_json]. rewrite Hf. cbn [bind].
  rewrite getitem_last. cbn [bind]. rewrite Hsp, Hr.
  reflexivity.
Qed.


(** A tool error is recorded as it is; the history is not touched, and
    [judge_node] runs next. *)
Lemma run_update_error :
  forall fuel cycles ex ms op l r sp tl er msg,
    go (S fuel) cycles updating
        (mkState ex (ms ++ [ToolMessage (ContentJson (error_dict msg))])
                 op l r sp tl er)
    = go fuel cycles judge
          (mkState ex
                   ((ms ++ [ToolMessage (ContentJson (error_dict msg))]) ++ [])
                   op l r sp tl (JStr msg)).
Proof.
  intros. unfold go. cbn [run].
  unfold update_node. cbn [st_messages]. rewrite rev_snoc.
  reflexivity.
Qed.

(** With an error recorded, the run ends after [judge_node], which
    leaves the history as it is. *)
Lemma run_judge_after_error :
  forall fuel cycles st,
    truthy (st_error st) = true ->
    exists st',
      go (S fuel) cycles judge st = Finished cycles st'
      /\ st_expression st' = st_expression st
      /\ truthy (st_error st') = true.
Proof.
  intros fuel cycles st Her.
  unfold go. cbn [run].
  set (st' := apply_update st (judge_node judge_llm exn_text cycles st)).
  assert (Hex : st_expression st' = st_expression st).
  { unfold st', judge_node.
    destruct (rev (st_expression st)); [reflexivity |].
    destruct (is_single_number s); [reflexivity |].
    destruct (judge_llm cycles s) as [[] |]; reflexivity. }
  assert (Herr : truthy (st_error st') = true).
  { unfold st', judge_node.
    destruct (rev (st_expression st)); [reflexivity |].
    destruct (is_single_number s); [exact Her |].
    destruct (judge_llm cycles s) as [[] |]; try reflexivity; exact Her. }
  exists st'. unfold route_after_judge. rewrite Herr. auto.
Qed.

(** With an error recorded and a decision obtained once more, the run
    ends with the error kept and the pending operation overwritten. *)
Lemma run_decides_after_error :
  forall fuel cycles h cur ms op l r sp tl er d,
    is_single_number cur = false ->
    truthy er = true ->
    judge_llm cycles cur = Ok (JObj d) ->
    go (S fuel) cycles judge (mkState (h ++ [cur]) ms op l r sp tl er)
    = Finished cycles
        (mkState (h ++ [cur]) (ms ++ [])
                 (dict_get d (py "operator")) (dict_get d (py "lhs"))
                 (dict_get d (py "rhs")) (dict_get d (py "span"))
                 (dict_get d (py "tool")) er).
Proof.
  intros fuel cycles h cur ms op l r sp tl er d Hnum Her Hj.
  unfold go. cbn [run].
  unfold judge_node. cbn [st_expression]. rewrite rev_snoc, Hnum, Hj.
  unfold route_after_judge, apply_update. cbn.
  now rewrite Her.
Qed.

End Steps.

(** ** The decision step *)

(** C8.  When the decision service replies [{}] on ["1+2"], [judge_node]
    records no error and [route_after_judge] ends the run: the final
    state has no error although its last snapshot is not a number. *)
Theorem judge_without_operator_ends_silently :
  forall calc_llm exn_text py_str tool_error_text fuel,
    invoke silent_judge calc_llm exn_text py_str tool_error_text
           (S fuel) (ExprStr (py "1+2"))
    = Finished 0 (mkState [py "1+2"] [] JNull JNull JNull JNull JNull JNull)
    /\ is_single_number (py "1+2") = false.
Proof. intros. split; reflexivity. Qed.

(** ** The step budget *)

Lemma stuck_cycle :
  forall fuel cycles h ms op l r sp tl,
    run stuck_judge tools_calc message_of no_text no_text
        (4 + fuel) cycles judge
        (mkState (h ++ [py "1+1"]) ms op l r sp tl JNull)
    = run stuck_judge tools_calc message_of no_text no_text
          fuel (S cycles) judge
          (mkState ((h ++ [py "1+1"]) ++ [py "1+1"])
                   ((((ms ++ [])
                        ++ [AIMessage [mkCall (py "mul") (Some (one, one))]])
                       ++ [ToolMessage (ContentJson (value_dict one))]) ++ [])
                   JNull JNull JNull JNull JNull JNull).
Proof.
  intros.
  change (4 + fuel) with (3 + S fuel).
  rewrite (run_to_update stuck_judge tools_calc message_of no_text no_text
             (S fuel) cycles h (py "1+1") ms op l r sp tl JNull
             [(py "operator", JStr (py "*")); (py "lhs", JStr (py "1"));
              (py "rhs", JStr (py "1"));
              (py "span", JArr [JInt 0; JInt 1]);
              (py "tool", JStr (py "mul"))]
             [mkCall (py "mul") (Some (one, one))]);
    try reflexivity.
  change (map (run_tool_call no_text) [mkCall (py "mul") (Some (one, one))])
    with [ToolMessage (ContentJson (value_dict one))].
  apply run_update_value with (value_str := py "1"); reflexivity.
Qed.

Lemma stuck_cycles :
  forall k cycles h ms op l r sp tl,
    exists st,
      run stuck_judge tools_calc message_of no_text no_text
          (4 * k) cycles judge
          (mkState (h ++ [py "1+1"]) ms op l r sp tl JNull)
      = Running (cycles + k) judge st
      /\ st_expression st = h ++ repeat (py "1+1") (S k)
      /\ st_error st = JNull.
Proof.
  induction k as [| k IH]; intros.
  - eexists. rewrite Nat.add_0_r. cbn [Nat.mul run]. repeat split.
  - replace (4 * S k) with (4 + 4 * k) by lia.
    rewrite stuck_cycle.
    destruct (IH (S cycles) (h ++ [py "1+1"])
                 ((((ms ++ [])
                      ++ [AIMessage [mkCall (py "mul") (Some (one, one))]])
                     ++ [ToolMessage (ContentJson (value_dict one))]) ++ [])
                 JNull JNull JNull JNull JNull) as (st & Hrun & Hex & Her).
    exists st. rewrite Hrun. repeat split.
    + f_equal. lia.
    + rewrite Hex, <- app_assoc. reflexivity.
    + exact Her.
Qed.

(** C4.  No edge of [build_calc_graph] counts steps, and [MAX_STEPS] of
    configuration.py is read nowhere: on ["1+1"], with a decision service
    that keeps asking for an operation whose rewrite leaves the
    expression as it is, the run has not ended after any number of node
    executions; after [4 * k] of them it has completed [k] cycles, the
    history holds [k + 1] snapshots and no error is recorded. *)
Theorem stuck_run_never_ends :
  (forall fuel,
      running (invoke stuck_judge tools_calc message_of no_text no_text
                      fuel (ExprStr (py "1+1"))) = true)
  /\ (forall k,
         exists st,
           invoke stuck_judge tools_calc message_of no_text no_text
                  (4 * k) (ExprStr (py "1+1"))
           = Running k judge st
           /\ st_expression st = repeat (py "1+1") (S k)
           /\ st_error st = JNull).
Proof.
  assert (Hk : forall k,
             exists st,
               invoke stuck_judge tools_calc message_of no_text no_text
                      (4 * k) (ExprStr (py "1+1"))
               = Running k judge st
               /\ st_expression st = repeat (py "1+1") (S k)
               /\ st_error st = JNull).
  { intros k. unfold invoke, initial_state, start_node.
    exact (stuck_cycles k 0 [] [] JNull JNull JNull JNull JNull). }
  split; [| exact Hk].
  intros fuel.
  destruct (running (invoke stuck_judge tools_calc message_of no_text no_text
                            fuel (ExprStr (py "1+1")))) eqn:Hrun;
    [reflexivity | exfalso].
  unfold invoke in Hrun.
  pose proof (run_more_fuel _ _ _ _ _ _ _ _ _ Hrun (3 * fuel)) as Hsame.
  destruct (Hk fuel) as (st & Hst & _). unfold invoke in Hst.
  replace (fuel + 3 * fuel) with (4 * fuel) in Hsame by lia.
  rewrite Hst in Hsame. rewrite <- Hsame in Hrun. discriminate.
Qed.

(** ** Errors *)

(** C7.  An error does not stop the loop at once, and exceptions do
    escape.  (1) On ["1e308*10"] the product is infinite and
    [format_number] raises [OverflowError] out of [update_node].
    (2) After the division by zero of ["5/0"] is recorded, the loop is
    at [judge_node] again; the decision service is asked once more and
    its answer overwrites the pending operation.  (3) When that second
    call fails, its failure overwrites the recorded error. *)
Theorem error_is_not_terminal :
  (exists st,
      calculate 4 (ExprStr (py "1e308*10")) = Crashed 1 OverflowError st)
  /\ (exists st st',
         invoke fickle_judge tools_calc message_of no_text no_text
                4 (ExprStr (py "5/0"))
         = Running 1 judge st
         /\ st_error st = JStr (py "division by zero")
         /\ st_operator st = JStr (py "/")
         /\ invoke fickle_judge tools_calc message_of no_text no_text
                   5 (ExprStr (py "5/0"))
            = Finished 1 st'
         /\ st_error st' = JStr (py "division by zero")
         /\ st_operator st' = JStr (py "-")
         /\ st_lhs st' = JStr (py "9"))
  /\ (exists st,
         invoke failing_judge tools_calc message_of no_text no_text
                5 (ExprStr (py "5/0"))
         = Finished 1 st
         /\ st_error st = JStr (py "judge_node failed: timeout")).
Proof.
  split; [| split].
  - eexists. vm_compute. reflexivity.
  - do 2 eexists. split; [vm_compute; reflexivity |].
    split; [reflexivity |]. split; [reflexivity |].
    split; [vm_compute; reflexivity |]. repeat split.
  - eexists. split; [vm_compute; reflexivity | reflexivity].
Qed.

(** ** Runs of the deterministic engine *)


Lemma resolver_judge_chain (n0 : str) (rest : chain) :
  well_formed n0 rest = true ->
  rest <> [] ->
  exists pre x post tool,
    rest = pre ++ x :: post
    /\ chain_best rest (-1) = Some (length pre)
    /\ forall c, resolver_judge c (expression_text n0 rest)
                 = Ok (JObj (chain_decision n0 pre x tool)).
Proof.
  intros Hwf Hne.
  destruct (find_next_operation_chain n0 rest (expression_text n0 rest) Hwf Hne)
    as (pre & x & post & tool & Hrest & Hbest & Htool & Hfind).
  exists pre, x, post, tool. repeat split; try assumption.
  intros c. unfold resolver_judge.
  now rewrite (parse_expression_well_formed n0 rest Hwf), Hfind.
Qed.











(** ** Iterations *)


(** ** Division by zero *)

Lemma div_by_zero (lhs rhs : float) :
  float_is_zero rhs = true ->
  div lhs rhs = error_dict (py "division by zero").
Proof. intros H. unfold div. now rewrite H. Qed.

(** A run of the deterministic engine on [l / r], when [r] reads as a
    zero. *)
Lemma division_run (l r : str) (lhs rhs : float) (extra : nat) :
  is_literal l = true -> is_literal r = true ->
  py_float l = Ok lhs -> py_float r = Ok rhs ->
  float_is_zero rhs = true ->
  exists st,
    calculate (5 + extra) (ExprStr (l ++ "/"%char :: r)) = Finished 1 st
    /\ st_expression st = [l ++ "/"%char :: r]
    /\ st_error st = JStr (py "division by zero").
Proof.
  intros Hl Hr Hlhs Hrhs Hzero.
  assert (Hwf : well_formed l [("/"%char, r)] = true).
  { unfold well_formed. rewrite Hl. cbn [andb].
    apply well_formed_chain_cons. cbn [fst snd]. auto. }
  assert (Hcur : expression_text l [("/"%char, r)] = l ++ "/"%char :: r).
  { unfold expression_text. cbn. now rewrite app_nil_r. }
  assert (Hnum : is_single_number (l ++ "/"%char :: r) = false).
  { rewrite <- Hcur. now apply is_single_number_chain. }
  destruct (resolver_judge_chain l [("/"%char, r)] Hwf ltac:(discriminate))
    as (pre & x & post & tool & Hrest & _ & Hjudge).
  assert (Hpre : pre = [] /\ x = ("/"%char, r)).
  { destruct pre as [| y pre]; cbn in Hrest.
    - now inversion Hrest.
    - inversion Hrest as [[Hy Hnil]]. now destruct pre. }
  destruct Hpre as [-> ->]. rewrite Hcur in Hjudge.
  unfold calculate, invoke, initial_state, start_node.
  change [l ++ "/"%char :: r] with ([] ++ [l ++ "/"%char :: r]).
  change (5 + extra) with (3 + S (S extra)).
  eexists. split; [| split].
  - eapply eq_trans.
    { apply (run_to_update resolver_judge tools_calc no_text no_text no_text
               (S (S extra)) 0 [] (l ++ "/"%char :: r) [] JNull JNull JNull
               JNull JNull JNull
               (chain_decision l [] ("/"%char, r) tool)
               [mkCall (py "div") (Some (lhs, rhs))] Hnum eq_refl (Hjudge 0)
               eq_refl).
      change (tools_calc 0 (JStr l) (JStr ["/"%char]) (JStr r)
              = Ok [mkCall (py "div") (Some (lhs, rhs))]).
      unfold tools_calc.
      change (TOOL_MAP ["/"%char]) with (Some (py "div")).
      now rewrite Hlhs, Hrhs. }
    cbn [map]. unfold run_tool_call at 1. cbn [tc_name tc_args].
    change (CALC_TOOLS (py "div")) with (Some div). cbv iota beta.
    rewrite (div_by_zero lhs rhs Hzero).
    rewrite (run_update_error resolver_judge tools_calc no_text no_text no_text).
    apply (run_decides_after_error resolver_judge tools_calc no_text
             no_text no_text _ 1 [] (l ++ "/"%char :: r) _ _ _ _ _ _
             (JStr (py "division by zero"))
             (chain_decision l [] ("/"%char, r) tool) Hnum eq_refl (Hjudge 1)).
  - reflexivity.
  - reflexivity.
Qed.

(** ** Services that answer from a table *)

Lemma str_eqb_eq (a b : str) : str_eqb a b = true -> a = b.
Proof. unfold str_eqb. now destruct (list_eq_dec ascii_dec a b). Qed.

Lemma json_str_eqb_eq (a b : json) : json_str_eqb a b = true -> a = b.
Proof.
  destruct a, b; cbn; try discriminate.
  intros H. now rewrite (str_eqb_eq _ _ H).
Qed.

(** Services that answer as a table says are the services of that
    table. *)
Lemma table_services (judge_llm : nat -> str -> result json)
      (calc_llm : nat -> json -> json -> json -> result (list tool_call))
      (table : list exchange) :
  answers judge_llm calc_llm 0 table ->
  (forall n cur, table_judge table judge_llm n cur = judge_llm n cur)
  /\ (forall n lhs operator rhs,
         table_calc table calc_llm n lhs operator rhs
         = calc_llm n lhs operator rhs).
Proof.
  intros H0.
  assert (H : forall table n0, answers judge_llm calc_llm n0 table ->
              forall n,
                (forall cur,
                    match nth_error table n with
                    | Some (e, reply, _) =>
                        if str_eqb cur e then reply else judge_llm (n0 + n) cur
                    | None => judge_llm (n0 + n) cur
                    end = judge_llm (n0 + n) cur)
                /\ (forall lhs operator rhs,
                       match nth_error table n with
                       | Some (_, Ok r, calls) =>
                           if json_str_eqb lhs (json_field r "lhs")
                              && json_str_eqb operator (json_field r "operator")
                              && json_str_eqb rhs (json_field r "rhs")
                           then Ok calls
                           else calc_llm (n0 + n) lhs operator rhs
                       | _ => calc_llm (n0 + n) lhs operator rhs
                       end = calc_llm (n0 + n) lhs operator rhs)).
  { clear table H0.
    induction table as [| [[e reply] calls] table IH]; intros n0 H n.
    - destruct n; split; reflexivity.
    - destruct H as (Hj & Hc & H). destruct n as [| n].
      + rewrite Nat.add_0_r. cbn [nth_error]. split.
        * intros cur. destruct (str_eqb cur e) eqn:E; [| reflexivity].
          now rewrite (str_eqb_eq _ _ E).
        * intros lhs operator rhs. destruct reply as [r | ex]; [| reflexivity].
          destruct (json_str_eqb lhs _) eqn:E1; [| reflexivity].
          destruct (json_str_eqb operator _) eqn:E2; [| reflexivity].
          destruct (json_str_eqb rhs _) eqn:E3; [| reflexivity].
          cbn [andb].
          now rewrite (json_str_eqb_eq _ _ E1), (json_str_eqb_eq _ _ E2),
            (json_str_eqb_eq _ _ E3).
      + cbn [nth_error]. replace (n0 + S n) with (S n0 + n) by lia.
        apply (IH (S n0) H n). }
  split; intros n; intros; apply (H table 0 H0 n).
Qed.

(** A run depends on the services through their answers only. *)
Lemma run_services (j1 j2 : nat -> str -> result json)
      (c1 c2 : nat -> json -> json -> json -> result (list tool_call))
      (exn_text : exn -> str) (py_str : json -> str)
      (tool_error_text : tool_call -> str) :
  (forall n cur, j1 n cur = j2 n cur) ->
  (forall n lhs operator rhs, c1 n lhs operator rhs = c2 n lhs operator rhs) ->
  forall fuel cycles n st,
    run j1 c1 exn_text py_str tool_error_text fuel cycles n st
    = run j2 c2 exn_text py_str tool_error_text fuel cycles n st.
Proof.
  intros Hj Hc.
  assert (Hjn : forall n st,
             judge_node j1 exn_text n st = judge_node j2 exn_text n st).
  { intros n st. unfold judge_node.
    destruct (rev (st_expression st)); [reflexivity |].
    destruct (is_single_number _); [reflexivity |]. now rewrite Hj. }
  assert (Hcn : forall n st, calc_node c1 n st = calc_node c2 n st).
  { intros n st. unfold calc_node. now rewrite Hc. }
  induction fuel as [| fuel IH]; intros cycles n st; [reflexivity |].
  cbn [run]. rewrite Hjn, Hcn.
  destruct n.
  - destruct (route_after_judge _); [| reflexivity ..]. apply IH.
  - destruct (calc_node _ _ _); [apply IH | reflexivity].
  - destruct (tool_node _ _); [apply IH | reflexivity].
  - destruct (update_node _ _ _); [| reflexivity].
    destruct (runs_judge _); [apply IH | reflexivity].
Qed.

(** The run of services that answer as a table says is the run of the
    services of the table. *)
Lemma invoke_table (judge_llm : nat -> str -> result json)
      (calc_llm : nat -> json -> json -> json -> result (list tool_call))
      (exn_text : exn -> str) (py_str : json -> str)
      (tool_error_text : tool_call -> str) (table : list exchange) :
  answers judge_llm calc_llm 0 table ->
  forall fuel expression,
    invoke judge_llm calc_llm exn_text py_str tool_error_text fuel expression
    = invoke (table_judge table judge_llm) (table_calc table calc_llm)
             exn_text py_str tool_error_text fuel expression.
Proof.
  intros H fuel expression.
  destruct (table_services judge_llm calc_llm table H) as [Hj Hc].
  unfold invoke. symmetry. now apply run_services.
Qed.

(** ** Division by zero, and what follows it *)

(** C3.  [div] answers a zero divisor with the error value
    ["division by zero"], whatever the dividend, and [update_node]
    records that message as it is and leaves the history alone.  The
    run does not end there: [judge_node] runs once more, and when the
    decision service raises at that call, its failure replaces the
    message.  On ["5/0"], with services that answer the division and
    then raise [e], the loop is at [judge_node] with the error
    ["division by zero"] after four steps, and ends one step later with
    the history [["5/0"]] and the error ["judge_node failed: "] followed
    by the text of [e]. *)
Theorem division_error_is_overwritten
        (judge_llm : nat -> str -> result json)
        (calc_llm : nat -> json -> json -> json -> result (list tool_call))
        (exn_text : exn -> str) (py_str : json -> str)
        (tool_error_text : tool_call -> str) (e : exn) (extra : nat) :
  answers judge_llm calc_llm 0 (division_exchanges e) ->
  (forall lhs rhs,
      float_is_zero rhs = true ->
      div lhs rhs = error_dict (py "division by zero"))
  /\ (forall lhs rhs ex ms op l r sp tl er,
         float_is_zero rhs = true ->
         update_node exn_text py_str
           (mkState ex (ms ++ [ToolMessage (ContentJson (div lhs rhs))])
                    op l r sp tl er)
         = Ok (error_update (JStr (py "division by zero"))))
  /\ (exists st,
         invoke judge_llm calc_llm exn_text py_str tool_error_text
                4 (ExprStr (py "5/0"))
         = Running 1 judge st
         /\ st_expression st = [py "5/0"]
         /\ st_error st = JStr (py "division by zero"))
  /\ (exists st,
         invoke judge_llm calc_llm exn_text py_str tool_error_text
                (5 + extra) (ExprStr (py "5/0"))
         = Finished 1 st
         /\ st_expression st = [py "5/0"]
         /\ st_error st = JStr (py "judge_node failed: " ++ exn_text e)
         /\ st_error st <> JStr (py "division by zero")).
Proof.
  intros H. split; [exact div_by_zero | split; [| split]].
  - intros lhs rhs ex ms op l r sp tl er Hzero.
    rewrite (div_by_zero lhs rhs Hzero).
    unfold update_node. cbn [st_messages]. now rewrite rev_snoc.
  - rewrite (invoke_table _ _ exn_text py_str tool_error_text _ H).
    eexists. split; [vm_compute; reflexivity |]. split; reflexivity.
  - rewrite (invoke_table _ _ exn_text py_str tool_error_text _ H).
    eexists. split; [vm_compute; reflexivity |].
    split; [reflexivity |]. split; [reflexivity | discriminate].
Qed.

Lemma division_error_is_overwritten_witness :
  answers failing_judge tools_calc 0
          (division_exchanges (CollaboratorError (py "timeout")))
  /\ exists st,
      invoke failing_judge tools_calc message_of no_text no_text
             5 (ExprStr (py "5/0"))
      = Finished 1 st
      /\ st_expression st = [py "5/0"]
      /\ st_error st = JStr (py "judge_node failed: timeout")
      /\ st_error st <> JStr (py "division by zero").
Proof.
  assert (H : answers failing_judge tools_calc 0
                      (division_exchanges (CollaboratorError (py "timeout")))).
  { repeat split; vm_compute; reflexivity. }
  split; [exact H |].
  exact (proj2 (proj2 (proj2
           (division_error_is_overwritten failing_judge tools_calc message_of
              no_text no_text (CollaboratorError (py "timeout")) 0 H)))).
Defined.

(** ** Runs on the expression of the smoke script *)



(** The same expression with the precedence resolver deciding: the
    tokenizer leaves the parentheses out, so the third snapshot comes
    from reducing [1)*4], and the history ends with ["8"]. *)
Lemma smoke_expression_with_resolver :
  exists st,
    calculate 26 (ExprStr (py "1+2*3+(3-1)*4/2")) = Finished 6 st
    /\ st_expression st
       = [py "1+2*3+(3-1)*4/2"; py "1+6+(3-1)*4/2"; py "1+6+(3-4/2";
          py "1+6+(3-2"; py "7+(3-2"; py "10-2"; py "8"]
    /\ st_error st = JNull.
Proof.
  eexists. split; [vm_compute; reflexivity |]. split; reflexivity.
Qed.

(** ** Whitespace *)

Lemma lstrip_stops (s : str) : stops isspace (lstrip s).
Proof.
  induction s as [| c r IH]; cbn; [exact I |].
  destruct (isspace c) eqn:Hc; [exact IH | cbn; exact Hc].
Qed.

Lemma lstrip_fixed (s : str) : stops isspace s -> lstrip s = s.
Proof. destruct s as [| c r]; cbn; [reflexivity |]. now intros ->. Qed.

Lemma lstrip_split (s : str) : exists w, blank w /\ s = w ++ lstrip s.
Proof.
  induction s as [| c r (w & Hw & Hs)]; cbn.
  - exists []. split; [constructor | reflexivity].
  - destruct (isspace c) eqn:Hc.
    + exists (c :: w). split; [now constructor | cbn; now f_equal].
    + exists []. split; [constructor | reflexivity].
Qed.

Lemma lstrip_blank_app (w s : str) : blank w -> lstrip (w ++ s) = lstrip s.
Proof.
  induction 1 as [| c w Hc _ IH]; cbn; [reflexivity |]. now rewrite Hc.
Qed.

Lemma lstrip_blank (w : str) : blank w -> lstrip w = [].
Proof.
  intros H. rewrite <- (app_nil_r w). now rewrite lstrip_blank_app.
Qed.

Lemma lstrip_app_stops (s w : str) :
  s <> [] -> stops isspace s -> lstrip (s ++ w) = s ++ w.
Proof.
  destruct s as [| c r]; [congruence |]. cbn. now intros _ ->.
Qed.

Lemma blank_rev (w : str) : blank w -> blank (rev w).
Proof. intros H. now apply Forall_rev. Qed.

(** What [strip] leaves: the text without the whitespace around it. *)
Lemma strip_split (s : str) :
  exists w1 w2,
    blank w1 /\ blank w2 /\ s = w1 ++ strip s ++ w2
    /\ stops isspace (strip s) /\ stops isspace (rev (strip s)).
Proof.
  unfold strip.
  destruct (lstrip_split s) as (w1 & Hw1 & Hs).
  destruct (lstrip_split (rev (lstrip s))) as (w2 & Hw2 & Hr).
  exists w1, (rev w2). split; [assumption |]. split; [now apply blank_rev |].
  assert (Hl : lstrip s = rev (lstrip (rev (lstrip s))) ++ rev w2).
  { rewrite <- rev_app_distr, <- Hr. now rewrite rev_involutive. }
  split; [| split].
  - rewrite <- Hl. exact Hs.
  - pose proof (lstrip_stops s) as Hst. rewrite Hl in Hst.
    destruct (rev (lstrip (rev (lstrip s)))); [exact I | exact Hst].
  - rewrite rev_involutive. apply lstrip_stops.
Qed.

Lemma strip_fixed (s : str) :
  stops isspace s -> stops isspace (rev s) -> strip s = s.
Proof.
  intros H1 H2. unfold strip.
  rewrite (lstrip_fixed s H1), (lstrip_fixed _ H2). apply rev_involutive.
Qed.

Lemma strip_blank_around (w1 s w2 : str) :
  blank w1 -> blank w2 -> strip (w1 ++ s ++ w2) = strip s.
Proof.
  intros H1 H2. unfold strip. rewrite (lstrip_blank_app w1 _ H1).
  destruct (lstrip_split s) as (w & Hw & Hs).
  destruct (lstrip s) as [| c r] eqn:Hl.
  - rewrite app_nil_r in Hs. subst s.
    assert (Hb : blank (w ++ w2)) by (apply Forall_app; now split).
    now rewrite (lstrip_blank _ Hb).
  - assert (Hst : stops isspace (c :: r)) by (rewrite <- Hl; apply lstrip_stops).
    rewrite Hs at 1. rewrite <- app_assoc, (lstrip_blank_app w _ Hw).
    rewrite lstrip_app_stops by (congruence || assumption).
    rewrite rev_app_distr. now rewrite (lstrip_blank_app _ _ (blank_rev _ H2)).
Qed.

Lemma strip_idempotent (s : str) : strip (strip s) = strip s.
Proof.
  destruct (strip_split s) as (w1 & w2 & _ & _ & _ & Ha & Hb).
  now apply strip_fixed.
Qed.

Lemma strip_nil_blank (s : str) : strip s = [] <-> blank s.
Proof.
  split.
  - intros H. destruct (strip_split s) as (w1 & w2 & H1 & H2 & Hs & _).
    rewrite H in Hs. cbn in Hs. subst s. apply Forall_app. now split.
  - intros H. unfold strip. now rewrite (lstrip_blank s H).
Qed.

(** ** Validation *)

Lemma allowed_char_cases c :
  char_in c "0123456789+-*/.eE " = true ->
  (c = " "%char \/ isspace c = false)
  /\ Ascii.eqb c "(" = false /\ Ascii.eqb c ")" = false.
Proof.
  destruct c as [[] [] [] [] [] [] [] []]; vm_compute; intuition congruence.
Qed.

Lemma plain_char_allowed c :
  plain_char c = true -> char_in c "0123456789+-*/.eE " = true.
Proof.
  destruct c as [[] [] [] [] [] [] [] []]; vm_compute; intuition congruence.
Qed.

Lemma not_blank_exists (s : str) :
  ~ blank s <-> Exists (fun c => isspace c = false) s.
Proof.
  unfold blank. split.
  - intros H. apply neg_Forall_Exists_neg in H.
    + eapply Exists_impl; [| exact H]. cbn. intros c Hc.
      now destruct (isspace c).
    + intros c. destruct (isspace c); [left | right]; congruence.
  - intros H Hb. apply Exists_exists in H. destruct H as (c & Hin & Hc).
    rewrite Forall_forall in Hb. specialize (Hb c Hin). congruence.
Qed.

Lemma is_empty_strip (s : str) :
  is_empty s || is_empty (strip s) = false
  <-> Exists (fun c => isspace c = false) s.
Proof.
  rewrite <- not_blank_exists, <- strip_nil_blank.
  destruct s as [| c r]; cbn [is_empty orb].
  - split; [discriminate | intros H; now contradiction H].
  - destruct (strip (c :: r)); cbn; split; congruence.
Qed.

Lemma validate_expression_accepts (expr : str) :
  validate_expression expr = (true, None)
  <-> Forall (fun c => char_in c "0123456789+-*/.eE " = true) expr
      /\ Exists (fun c => c <> " "%char) expr.
Proof.
  unfold validate_expression. split.
  - destruct (is_empty expr || is_empty (strip expr)) eqn:He; [discriminate |].
    destruct (forallb _ expr) eqn:Hall; [| discriminate]. intros _.
    rewrite forallb_forall in Hall. split; [now apply Forall_forall |].
    apply is_empty_strip in He. eapply Exists_impl; [| exact He].
    cbn. intros c Hc ->. discriminate.
  - intros [Hall Hex].
    assert (He : is_empty expr || is_empty (strip expr) = false).
    { apply is_empty_strip. apply Exists_exists in Hex.
      destruct Hex as (c & Hin & Hc). apply Exists_exists. exists c.
      split; [assumption |]. rewrite Forall_forall in Hall.
      destruct (allowed_char_cases c (Hall c Hin)) as [[-> | H] _];
        [congruence | assumption]. }
    rewrite He.
    assert (Hf : forallb (fun c => char_in c "0123456789+-*/.eE ") expr = true).
    { apply forallb_forall. now apply Forall_forall. }
    now rewrite Hf.
Qed.

Lemma plain_text_valid (s : str) :
  s <> [] -> Forall (fun c => plain_char c = true) s ->
  validate_expression s = (true, None).
Proof.
  intros Hne Hp. apply validate_expression_accepts. split.
  - eapply Forall_impl; [| exact Hp]. apply plain_char_allowed.
  - destruct s as [| c r]; [congruence |]. apply Exists_cons_hd.
    inversion Hp; subst. intros ->. discriminate.
Qed.


(** X1.  What [validate_expression] answers.  A text with no character other
    than whitespace (the empty text too) is reported as empty; a text
    with a character outside [0123456789+-*/.eE] and the space is
    reported as invalid, so every text with a parenthesis is; and the
    texts accepted are exactly those over these characters that hold a
    character other than the space. *)
Theorem validate_expression_cases (expr : str) :
  (blank expr ->
   validate_expression expr = (false, Some (py "expression is empty")))
  /\ (~ blank expr ->
      Exists (fun c => char_in c "0123456789+-*/.eE " = false) expr ->
      validate_expression expr
      = (false, Some (py "expression contains invalid characters")))
  /\ (In "("%char expr \/ In ")"%char expr ->
      fst (validate_expression expr) = false)
  /\ (validate_expression expr = (true, None)
      <-> Forall (fun c => char_in c "0123456789+-*/.eE " = true) expr
          /\ Exists (fun c => c <> " "%char) expr).
Proof.
  split; [| split; [| split]].
  - unfold validate_expression. intros Hb. apply strip_nil_blank in Hb.
    rewrite Hb. now rewrite orb_true_r.
  - unfold validate_expression.
    intros Hnb Hex. apply not_blank_exists, is_empty_strip in Hnb.
    rewrite Hnb.
    destruct (forallb _ expr) eqn:Hall; [| reflexivity].
    rewrite forallb_forall in Hall. apply Exists_exists in Hex.
    destruct Hex as (c & Hin & Hc). rewrite (Hall c Hin) in Hc. discriminate.
  - intros Hin.
    destruct (validate_expression expr) as [[|] msg] eqn:Hv; [| reflexivity].
    exfalso.
    assert (Hall : Forall (fun c => char_in c "0123456789+-*/.eE " = true) expr).
    { unfold validate_expression in Hv.
      destruct (is_empty expr || is_empty (strip expr)); [discriminate |].
      destruct (forallb _ expr) eqn:Hf; [| discriminate].
      rewrite forallb_forall in Hf. now apply Forall_forall. }
    rewrite Forall_forall in Hall.
    destruct Hin as [Hin | Hin]; specialize (Hall _ Hin); discriminate.
  - apply validate_expression_accepts.
Qed.

(** X2.  Every well-formed expression without parentheses, that is,
    number literals written with the digits [0] to [9] and joined by
    [+ - * /], passes [validate_expression]. *)
Theorem well_formed_is_valid (n0 : str) (rest : chain) :
  well_formed n0 rest = true ->
  validate_expression (expression_text n0 rest) = (true, None).
Proof.
  intros Hwf. apply plain_text_valid.
  - unfold well_formed in Hwf. apply andb_prop in Hwf. destruct Hwf as [Hl _].
    destruct (is_literal_shape n0 Hl) as (l & Hs).
    destruct (literal_shape_head n0 l Hs) as (c & r & -> & _).
    unfold expression_text. discriminate.
  - now apply expression_text_plain.
Qed.

Lemma well_formed_is_valid_witness :
  well_formed (py "1") [("+"%char, py "2"); ("*"%char, py "3")] = true
  /\ validate_expression (py "1+2*3") = (true, None).
Proof.
  split; [reflexivity |].
  exact (well_formed_is_valid (py "1")
           [("+"%char, py "2"); ("*"%char, py "3")] eq_refl).
Defined.

(** X3.  What [format_number] prints passes [validate_expression]. *)
Theorem format_number_is_valid (v : float) (s : str) :
  format_number v = Ok s -> validate_expression s = (true, None).
Proof.
  intros H. apply format_number_literal in H.
  destruct (is_literal_shape s H) as (l & Hs).
  apply plain_text_valid.
  - destruct (literal_shape_head s l Hs) as (c & r & -> & _). discriminate.
  - now apply (literal_shape_plain s l).
Qed.

Lemma format_number_is_valid_witness :
  format_number third = Ok (py "0.333333")
  /\ validate_expression (py "0.333333") = (true, None).
Proof.
  split; [reflexivity |].
  exact (format_number_is_valid third (py "0.333333") eq_refl).
Defined.

(** ** The tokenizer on any text *)

Lemma skip_digits_le (s : str) : skip_digits s <= length s.
Proof.
  induction s as [| c r IH]; cbn [skip_digits length]; [lia |].
  destruct (isdigit c); lia.
Qed.

Lemma scan_sign_le (s : str) : scan_sign s <= length s.
Proof.
  destruct s as [| c r]; cbn [scan_sign length]; [lia |].
  destruct (char_in c "+-"); lia.
Qed.

Lemma scan_fraction_le (s : str) : scan_fraction s <= length s.
Proof.
  destruct s as [| c r]; cbn [scan_fraction length]; [lia |].
  destruct (Ascii.eqb c "."); [| lia]. pose proof (skip_digits_le r). lia.
Qed.

Lemma scan_exponent_le (s : str) : scan_exponent s <= length s.
Proof.
  destruct s as [| c r]; cbn [scan_exponent length]; [lia |].
  destruct (char_in c "eE"); [| lia].
  pose proof (scan_sign_le r).
  pose proof (skip_digits_le (skipn (scan_sign r) r)) as H1.
  rewrite length_skipn in H1. lia.
Qed.

Lemma scan_number_le (s : str) : scan_number s <= length s.
Proof.
  unfold scan_number.
  pose proof (scan_sign_le s) as H0.
  pose proof (skip_digits_le (skipn (scan_sign s) s)) as H1.
  rewrite length_skipn in H1.
  pose proof (scan_fraction_le
                (skipn (scan_sign s + skip_digits (skipn (scan_sign s) s)) s))
    as H2.
  rewrite length_skipn in H2.
  match goal with
  | |- ?a + scan_exponent (skipn ?a s) <= _ =>
      pose proof (scan_exponent_le (skipn a s)) as H3;
      rewrite length_skipn in H3
  end.
  lia.
Qed.

Lemma scan_number_pos (c : ascii) (r : str) :
  isdigit c || char_in c "+-" || Ascii.eqb c "." = true ->
  1 <= scan_number (c :: r).
Proof.
  intros H. unfold scan_number. cbn [scan_sign].
  destruct (char_in c "+-") eqn:Hs; [lia |].
  cbn [Nat.add skipn skip_digits].
  destruct (isdigit c) eqn:Hd; [lia |].
  cbn [skipn scan_fraction].
  cbn in H. destruct (Ascii.eqb c "."); [lia | discriminate].
Qed.

(** The loop of the tokenizer has ended after [len(expr)] iterations:
    more of them change nothing. *)
Lemma tokenize_fuel (fuel : nat) :
  forall rest i tokens extra,
    length rest <= fuel ->
    tokenize (fuel + extra) rest i tokens = tokenize fuel rest i tokens.
Proof.
  induction fuel as [| fuel IH]; intros rest i tokens extra Hlen.
  - destruct rest; [| cbn in Hlen; lia]. now destruct extra.
  - cbn [Nat.add tokenize]. destruct rest as [| c rest']; [reflexivity |].
    cbn [length] in Hlen.
    destruct (isspace c); [apply IH; lia |].
    destruct (char_in c "+-*/" && last_is_number tokens); [apply IH; lia |].
    destruct (isdigit c || char_in c "+-" || Ascii.eqb c ".") eqn:Hnum.
    + apply IH. rewrite length_skipn.
      pose proof (scan_number_pos c rest' Hnum). cbn [length]. lia.
    + destruct (char_in c "()"); apply IH; lia.
Qed.

Lemma slice_at {A : Type} (pre rest : list A) (n : nat) :
  slice (pre ++ rest) (length pre) (length pre + n) = firstn n rest.
Proof.
  unfold slice. rewrite skipn_exact. f_equal. lia.
Qed.

Lemma placed_snoc (s : str) (toks : list token) :
  forall lo prev t,
    placed s lo prev toks ->
    match rev toks with
    | [] => lo <= tok_start t
    | u :: _ => tok_end u <= tok_start t
    end ->
    tok_start t < tok_end t <= length s ->
    tok_value t = slice s (tok_start t) (tok_end t) ->
    (tok_type t = T_operator ->
     match rev toks with [] => prev | _ :: _ => last_is_number toks end = true
     /\ tok_end t = S (tok_start t)
     /\ exists c, tok_value t = [c] /\ char_in c "+-*/" = true) ->
    placed s lo prev (toks ++ [t]).
Proof.
  induction toks as [| u toks IH]; intros lo prev t Hp Hlo Hb Hv Hop.
  - cbn in *. constructor; try assumption. constructor.
  - inversion Hp; subst. cbn [app]. constructor; try assumption.
    apply IH; try assumption.
    + cbn [rev] in Hlo. destruct (rev toks) as [| w ws] eqn:Hr; cbn in Hlo |- *;
        assumption.
    + intros Ht. specialize (Hop Ht). cbn [rev] in Hop.
      unfold last_is_number in Hop. cbn [rev] in Hop.
      destruct (rev toks) as [| w ws] eqn:Hr; cbn in Hop |- *.
      * unfold is_operator. destruct (tok_type u); cbn; assumption.
      * unfold last_is_number. rewrite Hr. assumption.
Qed.

Lemma tokenize_placed (s : str) (fuel : nat) :
  forall pre rest tokens,
    s = pre ++ rest ->
    placed s 0 false tokens ->
    match rev tokens with
    | [] => True
    | u :: _ => tok_end u <= length pre
    end ->
    placed s 0 false (tokenize fuel rest (length pre) tokens).
Proof.
  induction fuel as [| fuel IH]; intros pre rest tokens Hs Hp Hend;
    [exact Hp |].
  cbn [tokenize]. destruct rest as [| c rest']; [exact Hp |].
  assert (Hnext : s = (pre ++ [c]) ++ rest') by (now rewrite <- app_assoc).
  assert (Hlen : length (pre ++ [c]) = length pre + 1)
    by (rewrite length_app; reflexivity).
  assert (Hstep : forall toks,
             placed s 0 false toks ->
             match rev toks with
             | [] => True
             | u :: _ => tok_end u <= length pre + 1
             end ->
             placed s 0 false (tokenize fuel rest' (length pre + 1) toks)).
  { intros toks Ht He. rewrite <- Hlen. apply IH; try assumption.
    destruct (rev toks); [exact I | lia]. }
  assert (Hskip : placed s 0 false (tokenize fuel rest' (length pre + 1) tokens)).
  { apply Hstep; [assumption |]. destruct (rev tokens); [exact I | lia]. }
  destruct (isspace c); [exact Hskip |].
  destruct (char_in c "+-*/" && last_is_number tokens) eqn:Hop.
  - apply andb_prop in Hop. destruct Hop as [Hc Hlast].
    assert (Hq : placed s 0 false
                   (tokens ++ [mkToken T_operator [c] (length pre)
                                       (length pre + 1)])).
    { apply placed_snoc; cbn [tok_start tok_end tok_value tok_type];
        try assumption.
      - destruct (rev tokens); lia.
      - rewrite Hs, length_app. cbn [length]. lia.
      - rewrite Hs. rewrite (slice_at pre (c :: rest') 1). reflexivity.
      - intros _. split; [| split; [lia | exists c; now split]].
        unfold last_is_number in Hlast |- *.
        destruct (rev tokens); [discriminate | assumption]. }
    apply Hstep; [exact Hq |]. rewrite rev_app_distr. cbn. lia.
  - destruct (isdigit c || char_in c "+-" || Ascii.eqb c ".") eqn:Hnum.
    + pose proof (scan_number_pos c rest' Hnum) as Hpos.
      pose proof (scan_number_le (c :: rest')) as Hle.
      set (n := scan_number (c :: rest')) in *.
      assert (Hsplit : c :: rest' = firstn n (c :: rest') ++ skipn n (c :: rest'))
        by (symmetry; apply firstn_skipn).
      assert (Hfl : length (firstn n (c :: rest')) = n)
        by (rewrite length_firstn; lia).
      assert (Hq : placed s 0 false
                     (tokens ++ [mkToken T_number (firstn n (c :: rest'))
                                         (length pre) (length pre + n)])).
      { apply placed_snoc; cbn [tok_start tok_end tok_value tok_type];
          try assumption.
        - destruct (rev tokens); lia.
        - rewrite Hs, length_app. lia.
        - rewrite Hs. now rewrite slice_at.
        - discriminate. }
      replace (length pre + n) with (length (pre ++ firstn n (c :: rest'))) at 1
        by (rewrite length_app; lia).
      apply IH.
      * rewrite <- app_assoc, <- Hsplit. exact Hs.
      * exact Hq.
      * rewrite rev_app_distr. cbn [rev app tok_end]. rewrite length_app. lia.
    + destruct (char_in c "()"); exact Hskip.
Qed.

Lemma parse_expression_placed (expr : str) :
  placed (strip expr) 0 false (parse_expression expr).
Proof.
  unfold parse_expression.
  apply (tokenize_placed (strip expr) (length (strip expr)) [] (strip expr) []).
  - reflexivity.
  - constructor.
  - exact I.
Qed.

Lemma placed_nth (s : str) (toks : list token) :
  forall lo prev k t,
    placed s lo prev toks ->
    nth_error toks k = Some t ->
    lo <= tok_start t
    /\ tok_start t < tok_end t <= length s
    /\ tok_value t = slice s (tok_start t) (tok_end t)
    /\ (tok_type t = T_operator ->
        tok_end t = S (tok_start t)
        /\ exists c, tok_value t = [c] /\ char_in c "+-*/" = true).
Proof.
  induction toks as [| u toks IH]; intros lo prev k t Hp Hk;
    [destruct k; discriminate |].
  inversion Hp as [| ? ? ? ? Hlo Hb Hv Hop Hr]; subst.
  destruct k as [| k]; cbn in Hk.
  - inversion Hk; subst.
    split; [assumption |]. split; [assumption |]. split; [assumption |].
    intros Ht. destruct (Hop Ht) as (_ & He & Hc). now split.
  - destruct (IH _ _ _ _ Hr Hk) as (H1 & H2 & H3 & H4).
    split; [lia |]. split; [assumption |]. split; assumption.
Qed.

Lemma placed_next (s : str) (toks : list token) :
  forall lo prev k t1 t2,
    placed s lo prev toks ->
    nth_error toks k = Some t1 ->
    nth_error toks (S k) = Some t2 ->
    tok_end t1 <= tok_start t2
    /\ (tok_type t2 = T_operator -> tok_type t1 = T_number).
Proof.
  induction toks as [| u toks IH]; intros lo prev k t1 t2 Hp H1 H2;
    [destruct k; discriminate |].
  inversion Hp as [| ? ? ? ? Hlo Hb Hv Hop Hr]; subst.
  destruct k as [| k]; cbn in H1, H2.
  - inversion H1; subst. destruct toks as [| w toks]; [discriminate |].
    cbn in H2. inversion H2; subst.
    inversion Hr as [| ? ? ? ? Hlo' _ _ Hop' _]; subst.
    split; [assumption |]. intros Ht. destruct (Hop' Ht) as (Hn & _).
    unfold is_operator in Hn. now destruct (tok_type t1).
  - exact (IH _ _ _ _ _ Hr H1 H2).
Qed.

Lemma placed_first (s : str) (toks : list token) (lo : nat) (t : token) :
  placed s lo false toks -> nth_error toks 0 = Some t -> tok_type t = T_number.
Proof.
  intros Hp H0. destruct toks as [| u toks]; [discriminate |].
  inversion H0; subst.
  inversion Hp as [| ? ? ? ? _ _ _ Hop _]; subst.
  destruct (tok_type t) eqn:Ht; [reflexivity |].
  now destruct (Hop eq_refl).
Qed.

Lemma operator_has_left (s : str) (toks : list token) (idx : nat) (t : token) :
  placed s 0 false toks ->
  nth_error toks idx = Some t ->
  is_operator t = true ->
  exists k u, idx = S k /\ nth_error toks k = Some u /\ tok_type u = T_number.
Proof.
  intros Hp Hn Hop.
  assert (Ht : tok_type t = T_operator)
    by (unfold is_operator in Hop; now destruct (tok_type t)).
  destruct idx as [| k].
  - rewrite (placed_first s toks 0 t Hp Hn) in Ht. discriminate.
  - destruct (nth_error toks k) as [u |] eqn:Hu.
    + exists k, u. split; [reflexivity |]. split; [assumption |].
      destruct (placed_next s toks _ _ _ _ _ Hp Hu Hn) as (_ & H). now apply H.
    + apply nth_error_None in Hu.
      assert (S k < length toks) by (apply nth_error_Some; congruence). lia.
Qed.

(** ** The precedence rule on the tokens of any text *)

Lemma priority_nonneg (t : token) : (0 <= priority t)%Z.
Proof.
  unfold priority, OPERATOR_PRIORITY.
  repeat match goal with |- context [if ?b then _ else _] => destruct b end;
    lia.
Qed.

Lemma best_operator_none (tokens : list token) :
  forall i best bp,
    best_operator tokens i best bp = None ->
    best = None
    /\ forall t, In t tokens -> is_operator t = true -> (priority t <= bp)%Z.
Proof.
  induction tokens as [| tk tokens IH]; intros i best bp H; cbn in H.
  - split; [assumption |]. intros t [].
  - destruct (tok_type tk) eqn:Hty.
    + destruct (IH _ _ _ H) as [Hb Hall]. split; [assumption |].
      intros t [<- | Hin] Ht; [| now apply Hall].
      unfold is_operator in Ht. now rewrite Hty in Ht.
    + fold (priority tk) in H.
      destruct (Z.ltb_spec bp (priority tk)) as [Hlt | Hge].
      * destruct (IH _ _ _ H) as [Hb _]. discriminate.
      * destruct (IH _ _ _ H) as [Hb Hall]. split; [assumption |].
        intros t [<- | Hin] Ht; [assumption | now apply Hall].
Qed.

Lemma precedence_choice_unique (tokens : list token) (i j : nat) :
  precedence_choice tokens i -> precedence_choice tokens j -> i = j.
Proof.
  intros (t & Ht & Hop & Hmax & Hleft) (u & Hu & Hop' & Hmax' & Hleft').
  destruct (Nat.lt_trichotomy i j) as [Hlt | [Heq | Hgt]]; [| assumption |].
  - pose proof (Hleft' i t Hlt Ht Hop). pose proof (Hmax j u Hu Hop'). lia.
  - pose proof (Hleft j u Hgt Hu Hop'). pose proof (Hmax' i t Ht Hop). lia.
Qed.

(** The index the loop of [find_next_operation] ends with. *)
Lemma best_operator_choice (tokens : list token) :
  match best_operator tokens 0 None (-1) with
  | Some idx => precedence_choice tokens idx
  | None => forall t, In t tokens -> is_operator t = false
  end.
Proof.
  destruct (best_operator tokens 0 None (-1)) as [idx |] eqn:Hbest.
  - destruct (best_operator_spec tokens _ _ _ _ Hbest)
      as [[Hb _] | (_ & t & Hn & Hop & _ & Hmax & Hleft)]; [discriminate |].
    rewrite Nat.sub_0_r in *. exists t. repeat split; assumption.
  - destruct (best_operator_none tokens _ _ _ Hbest) as [_ Hall].
    intros t Hin. destruct (is_operator t) eqn:Hop; [| reflexivity].
    pose proof (Hall t Hin Hop). pose proof (priority_nonneg t). lia.
Qed.

Lemma find_next_operation_parsed (expr e0 : str) :
  let tokens := parse_expression expr in
  (length tokens < 3 /\ find_next_operation tokens e0 = Ok None)
  \/ (3 <= length tokens
      /\ (forall t, In t tokens -> is_operator t = false)
      /\ find_next_operation tokens e0 = Ok None)
  \/ (3 <= length tokens
      /\ exists idx op_token lhs_token,
          precedence_choice tokens (S idx)
          /\ nth_error tokens (S idx) = Some op_token
          /\ nth_error tokens idx = Some lhs_token
          /\ tok_type lhs_token = T_number
          /\ match nth_error tokens (S (S idx)) with
             | None =>
                 S (S idx) = length tokens
                 /\ find_next_operation tokens e0 = Raise IndexError
             | Some rhs_token =>
                 exists tool,
                   OPERATOR_TO_TOOL (tok_value op_token) = Some tool
                   /\ find_next_operation tokens e0
                      = Ok (Some (mkPending (tok_value op_token)
                                            (tok_value lhs_token)
                                            (tok_value rhs_token)
                                            (tok_start lhs_token,
                                             tok_end rhs_token)
                                            tool))
             end).
Proof.
  intros tokens. pose proof (parse_expression_placed expr) as Hp.
  fold tokens in Hp. unfold find_next_operation.
  destruct (Nat.ltb_spec (length tokens) 3) as [Hlt | Hge];
    [left; now split | right].
  pose proof (best_operator_choice tokens) as Hbest.
  destruct (best_operator tokens 0 None (-1)) as [idx |];
    [right | left; now repeat split].
  split; [assumption |].
  destruct Hbest as (t & Hn & Hop & Hmax & Hleft).
  destruct (operator_has_left _ _ _ _ Hp Hn Hop) as (k & u & -> & Hu & Hty).
  exists k, t, u.
  split; [exists t; repeat split; assumption |].
  repeat split; try assumption.
  rewrite getitem_nat, Hn. cbn [bind].
  replace (Z.of_nat (S k) - 1)%Z with (Z.of_nat k) by lia.
  rewrite getitem_nat, Hu. cbn [bind].
  replace (Z.of_nat (S k) + 1)%Z with (Z.of_nat (S (S k))) by lia.
  rewrite getitem_nat.
  destruct (nth_error tokens (S (S k))) as [rhs_token |] eqn:Hr.
  - cbn [bind].
    assert (Ht : tok_type t = T_operator)
      by (unfold is_operator in Hop; now destruct (tok_type t)).
    destruct (placed_nth _ _ _ _ _ _ Hp Hn) as (_ & _ & _ & Hc).
    destruct (Hc Ht) as (_ & c & Hv & Hin).
    destruct (operator_tool c Hin) as (name & f & Htool & _).
    rewrite Hv, Htool. exists name. split; reflexivity.
  - cbn [bind]. split; [| reflexivity].
    apply nth_error_None in Hr.
    assert (S k < length tokens) by (apply nth_error_Some; congruence). lia.
Qed.

(** ** Tokens and operations of any text *)



Lemma is_single_number_strip (s : str) :
  is_single_number s = true -> is_literal (strip s) = true.
Proof.
  unfold is_single_number, is_literal.
  destruct (strip s); [discriminate | trivial].
Qed.

Lemma parse_expression_strip (s : str) :
  parse_expression (strip s) = parse_expression s.
Proof. unfold parse_expression. now rewrite strip_idempotent. Qed.

Lemma single_number_parsed (s : str) :
  is_single_number s = true ->
  parse_expression s = [mkToken T_number (strip s) 0 (length (strip s))].
Proof.
  intros H. apply is_single_number_strip in H.
  rewrite <- parse_expression_strip.
  rewrite <- (expression_text_nil (strip s)) at 1.
  rewrite parse_expression_well_formed; [reflexivity |].
  unfold well_formed. now rewrite H.
Qed.


(** X4.  The tokens of any text lie in the stripped text, in order: each
    token is a non-empty stretch of it whose value is the text between
    its offsets, and a token starts where the one before it ends, or
    later. *)
Theorem parse_expression_offsets (expr : str) :
  (forall k t,
      nth_error (parse_expression expr) k = Some t ->
      tok_start t < tok_end t <= length (strip expr)
      /\ tok_value t = slice (strip expr) (tok_start t) (tok_end t))
  /\ (forall k t1 t2,
         nth_error (parse_expression expr) k = Some t1 ->
         nth_error (parse_expression expr) (S k) = Some t2 ->
         tok_end t1 <= tok_start t2).
Proof.
  pose proof (parse_expression_placed expr) as Hp. split.
  - intros k t Hk.
    destruct (placed_nth _ _ _ _ _ _ Hp Hk) as (_ & Hb & Hv & _). now split.
  - intros k t1 t2 H1 H2.
    now destruct (placed_next _ _ _ _ _ _ _ Hp H1 H2).
Qed.

(** X5.  An operator token of the tokenizer is a single character of
    [+-*/], and the token just before it is a number token; so the
    tokens never start with an operator, and never hold two operators
    in a row. *)
Theorem parse_expression_operators (expr : str) (k : nat) (t : token) :
  nth_error (parse_expression expr) k = Some t ->
  tok_type t = T_operator ->
  (exists c, tok_value t = [c] /\ char_in c "+-*/" = true
             /\ tok_end t = S (tok_start t))
  /\ exists k' t', k = S k'
                   /\ nth_error (parse_expression expr) k' = Some t'
                   /\ tok_type t' = T_number.
Proof.
  intros Hk Ht. pose proof (parse_expression_placed expr) as Hp. split.
  - destruct (placed_nth _ _ _ _ _ _ Hp Hk) as (_ & _ & _ & Hop).
    destruct (Hop Ht) as (He & c & Hv & Hc). exists c. now repeat split.
  - apply (operator_has_left _ _ _ _ Hp Hk).
    unfold is_operator. now rewrite Ht.
Qed.

Lemma parse_expression_operators_witness :
  nth_error (parse_expression (py "1+ +2")) 1
  = Some (mkToken T_operator (py "+") 1 2)
  /\ exists k' t', 1 = S k'
                   /\ nth_error (parse_expression (py "1+ +2")) k' = Some t'
                   /\ tok_type t' = T_number.
Proof.
  split; [reflexivity |].
  exact (proj2 (parse_expression_operators (py "1+ +2") 1
                  (mkToken T_operator (py "+") 1 2) eq_refl eq_refl)).
Defined.

(** X6.  Whitespace around a text changes neither its tokens nor whether it
    is a single number: the offsets of the tokens count from the first
    character that is not whitespace. *)
Theorem surrounding_whitespace_ignored (w1 s w2 : str) :
  blank w1 -> blank w2 ->
  parse_expression (w1 ++ s ++ w2) = parse_expression s
  /\ is_single_number (w1 ++ s ++ w2) = is_single_number s.
Proof.
  intros H1 H2. unfold parse_expression, is_single_number.
  now rewrite (strip_blank_around w1 s w2 H1 H2).
Qed.

Lemma surrounding_whitespace_ignored_witness :
  blank (py "  ") /\ blank (py " ")
  /\ parse_expression (py "  1+2 ")
     = [mkToken T_number (py "1") 0 1; mkToken T_operator (py "+") 1 2;
        mkToken T_number (py "2") 2 3].
Proof.
  assert (Ha : blank (py "  ")) by (repeat constructor).
  assert (Hb : blank (py " ")) by (repeat constructor).
  split; [exact Ha |]. split; [exact Hb |].
  exact (eq_trans
           (proj1 (surrounding_whitespace_ignored (py "  ") (py "1+2") (py " ")
                     Ha Hb))
           eq_refl).
Defined.

(** X7.  A text that [is_single_number] accepts is one number token to the
    tokenizer, spanning the stripped text, and [find_next_operation]
    finds nothing to do on it. *)
Theorem single_number_tokens (s : str) :
  is_single_number s = true ->
  parse_expression s = [mkToken T_number (strip s) 0 (length (strip s))]
  /\ find_next_operation (parse_expression s) s = Ok None.
Proof.
  intros H. rewrite (single_number_parsed s H). now split.
Qed.

Lemma single_number_tokens_witness :
  is_single_number (py " -2.5e3 ") = true
  /\ parse_expression (py " -2.5e3 ") = [mkToken T_number (py "-2.5e3") 0 6].
Proof.
  split; [reflexivity |].
  exact (proj1 (single_number_tokens (py " -2.5e3 ") eq_refl)).
Defined.

(** X8.  On the tokens of any text, [find_next_operation] raises exactly
    when there are at least three tokens and the operator the
    precedence rule points at is the last of them; the exception is
    [IndexError] (never [KeyError]). *)
Theorem find_next_operation_raises (expr e0 : str) (e : exn) :
  find_next_operation (parse_expression expr) e0 = Raise e
  <-> e = IndexError
      /\ 3 <= length (parse_expression expr)
      /\ precedence_choice (parse_expression expr)
                           (length (parse_expression expr) - 1).
Proof.
  pose proof (find_next_operation_parsed expr e0) as Hcases. cbv zeta in Hcases.
  set (tokens := parse_expression expr) in *.
  split.
  - intros Hr.
    destruct Hcases as [[_ H] | [(_ & _ & H) | (Hlen & idx & op & lhs & Hc & _ & _ & _ & H)]];
      try congruence.
    destruct (nth_error tokens (S (S idx))) as [rhs |].
    + destruct H as (tool & _ & H). congruence.
    + destruct H as [Hl H]. rewrite H in Hr. inversion Hr; subst.
      split; [reflexivity |]. split; [assumption |].
      replace (length tokens - 1) with (S idx) by lia. assumption.
  - intros (-> & Hlen & Hc).
    destruct Hcases as [[Hlt _] | [(_ & Hnone & _) | (_ & idx & op & lhs & Hc' & _ & _ & _ & H)]].
    + lia.
    + destruct Hc as (t & Ht & Hop & _).
      apply nth_error_In in Ht. rewrite (Hnone t Ht) in Hop. discriminate.
    + pose proof (precedence_choice_unique _ _ _ Hc Hc') as Heq.
      destruct (nth_error tokens (S (S idx))) as [rhs |] eqn:Hr.
      * assert (S (S idx) < length tokens) by (apply nth_error_Some; congruence).
        lia.
      * now destruct H.
Qed.



(** X10.  One step on a well-formed expression without parentheses.  When it
    has an operator, [find_next_operation] returns an operation, and
    [replace_span] at its span, with any number literal as the
    replacement, gives a well-formed expression again, with one
    operator less. *)
Theorem reduction_step (n0 : str) (rest : chain) (v : str) :
  well_formed n0 rest = true ->
  rest <> [] ->
  is_literal v = true ->
  exists p n0' rest',
    find_next_operation (parse_expression (expression_text n0 rest))
                        (expression_text n0 rest) = Ok (Some p)
    /\ replace_span (expression_text n0 rest)
                    (Z.of_nat (fst (p_span p)), Z.of_nat (snd (p_span p))) v
       = Ok (expression_text n0' rest')
    /\ well_formed n0' rest' = true
    /\ S (length rest') = length rest.
Proof.
  intros Hwf Hne Hv.
  destruct (find_next_operation_chain n0 rest (expression_text n0 rest) Hwf Hne)
    as (pre & x & post & tool & Hrest & _ & _ & Hfind).
  rewrite (parse_expression_well_formed n0 rest Hwf), Hfind.
  subst rest.
  eexists. exists (fst (reduced n0 pre v post)), (snd (reduced n0 pre v post)).
  split; [reflexivity |]. cbn [p_span fst snd].
  split; [now apply replace_span_chain |].
  split; [now apply (reduced_well_formed n0 pre x) |].
  rewrite reduced_length, length_app. cbn [length]. lia.
Qed.

Lemma reduction_step_witness :
  well_formed (py "1") [("-"%char, py "2"); ("/"%char, py "4")] = true
  /\ exists p n0' rest',
      find_next_operation (parse_expression (py "1-2/4")) (py "1-2/4")
      = Ok (Some p)
      /\ replace_span (py "1-2/4")
                      (Z.of_nat (fst (p_span p)), Z.of_nat (snd (p_span p)))
                      (py "0.5")
         = Ok (expression_text n0' rest')
      /\ well_formed n0' rest' = true
      /\ S (length rest') = 2.
Proof.
  split; [reflexivity |].
  exact (reduction_step (py "1") [("-"%char, py "2"); ("/"%char, py "4")]
           (py "0.5") eq_refl ltac:(discriminate) eq_refl).
Defined.

(** X11.  [is_single_number] accepts exactly the texts that, without the
    whitespace around them, read: an optional sign; digits with an
    optional point among them, at least one digit in all; and an
    optional exponent, [e] or [E] with an optional sign and at least one
    digit. *)
Theorem is_single_number_grammar (s : str) :
  is_single_number s = true <-> exists l, literal_shape (strip s) l.
Proof.
  unfold is_single_number. split.
  - destruct (strip s) as [| c r] eqn:Hs; [discriminate |].
    destruct (match_number (c :: r)) as [l |] eqn:Hm; [| discriminate].
    intros _. exists l. now apply match_number_shape.
  - intros (l & Hl).
    destruct (literal_shape_head _ _ Hl) as (c & r & Hs & _).
    rewrite (literal_shape_match _ _ Hl). now rewrite Hs.
Qed.

(** X12.  On the tokens of any text, [find_next_operation] returns nothing
    exactly when there are fewer than three tokens or no operator
    token among them. *)
Theorem find_next_operation_nothing (expr e0 : str) :
  find_next_operation (parse_expression expr) e0 = Ok None
  <-> length (parse_expression expr) < 3
      \/ forall t, In t (parse_expression expr) -> is_operator t = false.
Proof.
  pose proof (find_next_operation_parsed expr e0) as Hcases. cbv zeta in Hcases.
  set (tokens := parse_expression expr) in *.
  destruct Hcases as [[Hlt H] | [(Hge & Hnone & H) | (Hge & idx & op & lhs & Hc & Hop & _ & _ & H)]].
  - split; [intros _; now left | intros _; exact H].
  - split; [intros _; now right | intros _; exact H].
  - split.
    + intros Hf. destruct (nth_error tokens (S (S idx))) as [rhs |].
      * destruct H as (tool & _ & H). congruence.
      * destruct H as [_ H]. congruence.
    + intros [Hlt | Hnone]; [lia |].
      destruct Hc as (t & Ht & Hisop & _).
      apply nth_error_In in Ht. rewrite (Hnone t Ht) in Hisop. discriminate.
Qed.

(** X13.  The stripped text of whatever [is_single_number] accepts is
    a text that [float] accepts.  The text as it is may not be:
    [str.strip] removes the separators U+001C to U+001F and [float]
    does not, so ["7"] followed by U+001F is a single number for
    [is_single_number], and [float] raises [ValueError] on it. *)
Theorem single_number_is_float (s : str) :
  is_single_number s = true ->
  (exists v, py_float (strip s) = Ok v)
  /\ is_single_number (py "7" ++ [ascii_of_nat 31]) = true
  /\ py_float (py "7" ++ [ascii_of_nat 31]) = Raise ValueError.
Proof.
  intros H. apply is_single_number_strip in H.
  destruct (py_float_literal (strip s) H) as (l & _ & Hf).
  split; [now exists (float_of_numlit l) |]. split; reflexivity.
Qed.

Lemma single_number_is_float_witness :
  is_single_number (py " 2.5E-3 ") = true
  /\ exists v, py_float (strip (py " 2.5E-3 ")) = Ok v.
Proof.
  split; [reflexivity |].
  exact (proj1 (single_number_is_float (py " 2.5E-3 ") eq_refl)).
Defined.

(** ** The span rewriter, in range and out of range *)

Lemma slice_middle {A : Type} (x r y : list A) (n : nat) :
  length x = n -> slice (x ++ r ++ y) n (n + length r) = r.
Proof.
  intros <-. rewrite slice_at. apply firstn_exact.
Qed.

Lemma skipn_past {A : Type} (x r y : list A) (n : nat) :
  length x = n -> skipn (n + length r) (x ++ r ++ y) = y.
Proof. intros <-. rewrite skipn_add, skipn_exact. apply skipn_exact. Qed.

Lemma firstn_front {A : Type} (x y : list A) (n : nat) :
  length x = n -> firstn n (x ++ y) = x.
Proof. intros <-. apply firstn_exact. Qed.

Lemma slice_rejoin {A : Type} (s : list A) (a b : nat) :
  a <= b -> firstn a s ++ slice s a b ++ skipn b s = s.
Proof.
  intros Hle. unfold slice.
  replace (skipn b s) with (skipn (b - a) (skipn a s))
    by (rewrite <- skipn_add; f_equal; lia).
  rewrite (firstn_skipn (b - a) (skipn a s)).
  apply firstn_skipn.
Qed.

Lemma replace_span_plain (expr : str) (a b : nat) (r : str) :
  a <= b -> parenthesised expr a b = false ->
  replace_span expr (Z.of_nat a, Z.of_nat b) r
  = Ok (firstn a expr ++ r ++ skipn b expr).
Proof.
  intros Hle Hp. rewrite (replace_span_offsets expr a b r Hle).
  unfold rewrite_spec. now rewrite Hp.
Qed.

Lemma parenthesised_after (expr : str) (a b : nat) (r : str) :
  a <= b <= length expr ->
  parenthesised (firstn a expr ++ r ++ skipn b expr) a (a + length r)
  = parenthesised expr a b.
Proof.
  intros Hb. unfold parenthesised. destruct a as [| before]; [reflexivity |].
  assert (Hx : length (firstn (S before) expr) = S before)
    by (rewrite length_firstn; lia).
  rewrite (nth_error_app1 _ _ (n := before)) by lia.
  rewrite nth_error_firstn.
  destruct (Nat.ltb_spec before (S before)) as [_ | ?]; [| lia].
  rewrite (nth_error_app2 _ _ (n := S before + length r)) by lia.
  rewrite Hx.
  rewrite (nth_error_app2 _ _ (n := S before + length r - S before)) by lia.
  replace (S before + length r - S before - length r) with 0 by lia.
  rewrite nth_error_skipn, Nat.add_0_r. reflexivity.
Qed.

Lemma getitem_cases {A : Type} (l : list A) (i : Z) :
  ((- Z.of_nat (length l) <= i < Z.of_nat (length l))%Z
   /\ exists a,
       getitem l i = Ok a
       /\ nth_error l (Z.to_nat (if (i <? 0)%Z
                                 then (i + Z.of_nat (length l))%Z else i))
          = Some a)
  \/ ((i < - Z.of_nat (length l) \/ Z.of_nat (length l) <= i)%Z
      /\ getitem l i = Raise IndexError).
Proof.
  unfold getitem.
  destruct (Z.ltb_spec i 0) as [Hneg | Hpos].
  - destruct (Z.ltb_spec (i + Z.of_nat (length l)) 0) as [Hout | Hin].
    + right. split; [lia | reflexivity].
    + destruct (nth_error l (Z.to_nat (i + Z.of_nat (length l)))) as [a |] eqn:Ha.
      * left. split; [lia |]. now exists a.
      * apply nth_error_None in Ha. lia.
  - destruct (Z.ltb_spec i 0) as [? | _]; [lia |].
    destruct (nth_error l (Z.to_nat i)) as [a |] eqn:Ha.
    + left. assert (Z.to_nat i < length l) by (apply nth_error_Some; congruence).
      split; [lia |]. now exists a.
    + right. apply nth_error_None in Ha. split; [lia | reflexivity].
Qed.


(** X14.  [replace_span] at a span inside the text, with no parenthesis pair
    around it: the result is shorter by the length of the span and
    longer by that of the replacement, the replacement is found at the
    start of the span, and replacing it there by the text that was in
    the span gives the first text back. *)
Theorem replace_span_round_trip (expr : str) (a b : nat) (r : str) :
  a <= b <= length expr ->
  parenthesised expr a b = false ->
  exists out,
    replace_span expr (Z.of_nat a, Z.of_nat b) r = Ok out
    /\ length out + (b - a) = length expr + length r
    /\ slice out a (a + length r) = r
    /\ replace_span out (Z.of_nat a, Z.of_nat (a + length r)) (slice expr a b)
       = Ok expr.
Proof.
  intros Hb Hp. exists (firstn a expr ++ r ++ skipn b expr).
  assert (Hx : length (firstn a expr) = a) by (rewrite length_firstn; lia).
  split; [apply replace_span_plain; [lia | assumption] |].
  split; [| split].
  - rewrite !length_app, Hx, length_skipn. lia.
  - now apply slice_middle.
  - rewrite replace_span_plain;
      [| lia | now rewrite parenthesised_after].
    f_equal.
    rewrite (firstn_front _ _ a Hx), (skipn_past _ _ _ a Hx).
    apply slice_rejoin. lia.
Qed.

Lemma replace_span_round_trip_witness :
  2 <= 5 <= length (py "1+2*3+4")
  /\ parenthesised (py "1+2*3+4") 2 5 = false
  /\ exists out,
      replace_span (py "1+2*3+4") (Z.of_nat 2, Z.of_nat 5) (py "6") = Ok out
      /\ length out + (5 - 2) = length (py "1+2*3+4") + length (py "6")
      /\ slice out 2 (2 + length (py "6")) = py "6"
      /\ replace_span out (Z.of_nat 2, Z.of_nat (2 + length (py "6")))
                      (slice (py "1+2*3+4") 2 5)
         = Ok (py "1+2*3+4").
Proof.
  assert (Hb : 2 <= 5 <= length (py "1+2*3+4")) by (cbn; lia).
  split; [exact Hb |]. split; [reflexivity |].
  exact (replace_span_round_trip (py "1+2*3+4") 2 5 (py "6") Hb eq_refl).
Defined.

(** X15.  When [replace_span] raises.  The only exception is [IndexError],
    from looking for the parentheses: it needs a start above zero and
    an end below the length of the text, and then either the start is
    beyond the text, or the character before the start is an opening
    parenthesis and the (negative) end is beyond the text on the left.
    Every other span is accepted. *)
Theorem replace_span_raises (expr : str) (start end_ : Z) (r : str) (e : exn) :
  replace_span expr (start, end_) r = Raise e
  <-> e = IndexError
      /\ (0 < start)%Z /\ (end_ < Z.of_nat (length expr))%Z
      /\ ((Z.of_nat (length expr) < start)%Z
          \/ (nth_error expr (Z.to_nat (start - 1)) = Some "("%char
              /\ (end_ < - Z.of_nat (length expr))%Z)).
Proof.
  unfold replace_span.
  destruct (Z.ltb_spec 0 start) as [Hs | Hs]; cbn [andb].
  2:{ cbn [bind]. split; [discriminate | intros (_ & H & _); lia]. }
  destruct (Z.ltb_spec end_ (Z.of_nat (length expr))) as [He | He].
  2:{ cbn [bind]. split; [discriminate | intros (_ & _ & H & _); lia]. }
  destruct (getitem_cases expr (start - 1)) as [(Hin & before & -> & Hn) | (Hout & ->)].
  - destruct (Z.ltb_spec (start - 1) 0) as [? | _]; [lia |].
    rewrite Hn. cbn [bind].
    destruct (Ascii.eqb_spec before "(") as [-> | Hneq].
    + destruct (getitem_cases expr end_) as [(Hin' & after & -> & _) | (Hout' & ->)].
      * cbn [bind]. destruct (Ascii.eqb after ")"); cbn [bind];
          (split; [discriminate | intros (_ & _ & _ & [H | [_ H]]); lia]).
      * cbn [bind]. split.
        -- intros H. inversion H. repeat split; try assumption. right.
           split; [reflexivity | lia].
        -- now intros (-> & _).
    + cbn [bind]. split; [discriminate |].
      intros (_ & _ & _ & [H | [H _]]); [lia | congruence].
  - cbn [bind]. split.
    + intros H. inversion H. repeat split; try assumption. left. lia.
    + now intros (-> & _).
Qed.

(** ** The tools *)

Lemma float_is_zero_iff (x : float) :
  float_is_zero x = true <-> exists s, x = S754_zero s.
Proof.
  unfold float_is_zero, SFeqb. split.
  - destruct x as [s | [|] | | [|] m e]; cbn; try discriminate.
    intros _. now exists s.
  - intros (s & ->). reflexivity.
Qed.

Lemma SFadd_comm (x y : float) : SFadd prec emax x y = SFadd prec emax y x.
Proof.
  destruct x as [sx | sx | | sx mx ex], y as [sy | sy | | sy my ey];
    try reflexivity.
  - cbn. destruct sx, sy; reflexivity.
  - cbn. destruct sx, sy; reflexivity.
  - unfold SFadd. rewrite (Z.min_comm ey ex). f_equal. apply Z.add_comm.
Qed.

Lemma SFmul_comm (x y : float) : SFmul prec emax x y = SFmul prec emax y x.
Proof.
  destruct x as [sx | sx | | sx mx ex], y as [sy | sy | | sy my ey];
    try reflexivity; unfold SFmul; rewrite ?(xorb_comm sy sx); try reflexivity.
  now rewrite (Pos.mul_comm my mx), (Z.add_comm ey ex).
Qed.

Lemma SFsub_add_opp (x y : float) :
  SFsub prec emax x y = SFadd prec emax x (SFopp y).
Proof.
  destruct x as [sx | sx | | sx mx ex], y as [sy | sy | | sy my ey];
    try reflexivity; destruct sx, sy; reflexivity.
Qed.


(** X16.  [format_number] raises on the values that are not finite, and only
    on them: [OverflowError] on an infinity, [ValueError] on a NaN; any
    finite value is printed. *)
Theorem format_number_errors (v : float) :
  match v with
  | S754_nan => format_number v = Raise ValueError
  | S754_infinity _ => format_number v = Raise OverflowError
  | S754_zero _ => format_number v = Ok (py "0")
  | S754_finite _ _ _ =>
      exists s, format_number v = Ok s /\ is_single_number s = true
  end.
Proof.
  destruct v as [s | s | | s m e]; try reflexivity.
  destruct (format_number (S754_finite s m e)) as [t | err] eqn:Hf.
  - exists t. split; [reflexivity |].
    apply is_single_number_literal. now apply (format_number_literal _ _ Hf).
  - now destruct (format_number_raises _ _ Hf).
Qed.

(** X17.  [div] answers with the error exactly when the divisor is a zero,
    of either sign, also for [0 / 0]; with any other divisor, an
    infinity or a NaN too, it answers with the quotient. *)
Theorem div_by_zero_only (lhs rhs : float) :
  (div lhs rhs = error_dict (py "division by zero")
   <-> exists s, rhs = S754_zero s)
  /\ ((forall s, rhs <> S754_zero s) ->
      div lhs rhs = value_dict (SFdiv prec emax lhs rhs)).
Proof.
  unfold div. split.
  - rewrite <- float_is_zero_iff.
    destruct (float_is_zero rhs); split; try reflexivity; discriminate.
  - intros Hnz. destruct (float_is_zero rhs) eqn:Hz; [| reflexivity].
    apply float_is_zero_iff in Hz. destruct Hz as (s & ->).
    now contradiction (Hnz s).
Qed.

(** X18.  The tools [add] and [mul] do not depend on the order of their
    arguments, and [sub] is [add] with the second argument negated. *)
Theorem tools_algebra (lhs rhs : float) :
  add lhs rhs = add rhs lhs
  /\ mul lhs rhs = mul rhs lhs
  /\ sub lhs rhs = add lhs (SFopp rhs).
Proof.
  unfold add, mul, sub.
  now rewrite (SFadd_comm lhs rhs), (SFmul_comm lhs rhs), SFsub_add_opp.
Qed.

(** X19.  The tables of ustils.py and tools.py have the same operators: an
    operator has a priority exactly when it has a tool name, the name
    [TOOL_MAP] leads to is the one of [OPERATOR_TO_TOOL], and that name
    is the name of a tool of [CALC_TOOLS]. *)
Theorem operator_tables_agree (op : str) :
  (OPERATOR_PRIORITY op = None <-> OPERATOR_TO_TOOL op = None)
  /\ TOOL_MAP op = OPERATOR_TO_TOOL op
  /\ (forall name, OPERATOR_TO_TOOL op = Some name ->
                   exists f, CALC_TOOLS name = Some f)
  /\ (forall p, OPERATOR_PRIORITY op = Some p ->
                exists c, op = [c] /\ char_in c "+-*/" = true).
Proof.
  unfold OPERATOR_PRIORITY, OPERATOR_TO_TOOL, TOOL_MAP.
  unfold str_eqb.
  repeat match goal with
         | |- context [list_eq_dec ascii_dec op ?s] =>
             destruct (list_eq_dec ascii_dec op s) as [-> | ?]
         end;
    (split; [split; (discriminate || reflexivity || congruence) |]);
    (split; [reflexivity |]);
    (split; [intros name H; inversion H; eexists; reflexivity
           | intros p H; inversion H; eexists; split; reflexivity])
    || (split; [split; reflexivity |]; split; [reflexivity |];
        split; intros ? H; discriminate).
Qed.

(** ** What the nodes do to the state *)

Section Nodes.

Variable judge_llm : nat -> str -> result json.
Variable calc_llm : nat -> json -> json -> json -> result (list tool_call).
Variable exn_text : exn -> str.
Variable py_str : json -> str.
Variable tool_error_text : tool_call -> str.

Let go := run judge_llm calc_llm exn_text py_str tool_error_text.

Lemma judge_node_keeps_history (n : nat) (st : CalcState) :
  u_expression (judge_node judge_llm exn_text n st) = None
  /\ u_messages (judge_node judge_llm exn_text n st) = [].
Proof.
  unfold judge_node. destruct (rev (st_expression st)); [now split |].
  destruct (is_single_number s); [now split |].
  destruct (judge_llm n s) as [[] |]; now split.
Qed.

Lemma calc_node_keeps_history (n : nat) (st : CalcState) (u : update) :
  calc_node calc_llm n st = Ok u -> u_expression u = None.
Proof.
  unfold calc_node. destruct (negb (truthy (st_operator st))).
  - intros H. now inversion H.
  - destruct (calc_llm n _ _ _); cbn [bind]; [| discriminate].
    intros H. now inversion H.
Qed.

Lemma tool_node_keeps_history (st : CalcState) (u : update) :
  tool_node tool_error_text st = Ok u -> u_expression u = None.
Proof.
  unfold tool_node. destruct (rev (st_messages st)) as [| [] ?];
    try discriminate.
  intros H. now inversion H.
Qed.

Lemma update_node_cases (st : CalcState) (u : update) :
  update_node exn_text py_str st = Ok u ->
  (exists e, u = error_update e)
  \/ (exists d v value_str cur new_expr,
         hd_error (rev (st_messages st))
         = Some (ToolMessage (ContentJson (JObj d)))
         /\ dict_has d (py "error") = false
         /\ float_of_json (dict_get d (py "value")) = Ok v
         /\ format_number v = Ok value_str
         /\ getitem (st_expression st) (-1) = Ok cur
         /\ (if truthy (st_span st)
             then replace_span_json cur (st_span st) value_str
             else Ok value_str) = Ok new_expr
         /\ u = rewrite_update (st_expression st) new_expr).
Proof.
  unfold update_node.
  destruct (rev (st_messages st)) as [| [calls | [j | s]] ms] eqn:Hm.
  - intros H. inversion H. left. now eexists.
  - intros H. inversion H. left. now eexists.
  - destruct j as [| b | z | f | s | l | d];
      try discriminate;
      try (destruct (existsb _ _); discriminate);
      try (destruct (is_substring _ _); discriminate).
    destruct (dict_has d (py "error")) eqn:He.
    + intros H. inversion H. left. now eexists.
    + destruct (dict_get d (py "value")) as [| b | z | f | s | l | d'] eqn:Hv;
        try (intros H; inversion H; left; now eexists).
      all: match goal with
           | |- context [float_of_json ?j] =>
               destruct (float_of_json j) as [v |] eqn:Hf
           end;
        try (intros H; inversion H; left; now eexists).
      all: destruct (format_number v) as [value_str |] eqn:Hfmt; cbn [bind];
        try discriminate.
      all: match goal with
           | |- context [getitem ?h (-1)%Z] =>
               destruct (getitem h (-1)%Z) as [cur |] eqn:Hc
           end;
        cbn [bind]; try discriminate.
      all: match goal with
           | |- context [if truthy ?sp then ?a else ?b] =>
               destruct (if truthy sp then a else b) as [new_expr |] eqn:Hn
           end;
        try (intros H; inversion H; left; now eexists).
      all: intros H; inversion H; right;
        exists d, v, value_str, cur, new_expr; rewrite ?Hv;
        repeat split; try assumption; try discriminate; try reflexivity.
  - intros H. inversion H. left. now eexists.
Qed.

Lemma update_node_history (st : CalcState) (u : update) :
  update_node exn_text py_str st = Ok u ->
  u_expression u = None
  \/ exists new_expr, u_expression u = Some (st_expression st ++ [new_expr]).
Proof.
  intros H. destruct (update_node_cases st u H)
    as [(e & ->) | (d & v & vs & cur & new & _ & _ & _ & _ & _ & _ & ->)].
  - now left.
  - right. now exists new.
Qed.

Lemma apply_update_history (st : CalcState) (u : update) :
  u_expression u = None ->
  st_expression (apply_update st u) = st_expression st.
Proof. intros H. unfold apply_update. cbn. now rewrite H. Qed.

(** Wherever a run stops, the history it started from is still there,
    and it has grown by at most one snapshot per cycle. *)
Lemma run_history (fuel : nat) :
  forall cycles n st,
    exists more,
      st_expression (last_state (go fuel cycles n st))
      = st_expression st ++ more
      /\ cycles <= cycles_of (go fuel cycles n st)
      /\ length more + cycles
         <= cycles_of (go fuel cycles n st)
            + match n with judge => 0 | _ => 1 end.
Proof.
  unfold go.
  induction fuel as [| fuel IH]; intros cycles n st.
  - exists []. cbn [run last_state cycles_of length]. rewrite app_nil_r.
    repeat split; lia.
  - cbn [run]. destruct n.
    + (* judge_node *)
      destruct (judge_node_keeps_history cycles st) as [Hj _].
      pose proof (apply_update_history st _ Hj) as Hst.
      destruct (route_after_judge _).
      * destruct (IH (S cycles) calc
                     (apply_update st (judge_node judge_llm exn_text cycles st)))
          as (more & Hm & Hc & Hl).
        exists more. rewrite Hm, Hst. repeat split; lia.
      * exists []. cbn [last_state cycles_of length]. rewrite Hst, app_nil_r.
        repeat split; lia.
      * exists []. cbn [last_state cycles_of length]. rewrite Hst, app_nil_r.
        repeat split; lia.
    + (* calc_node *)
      destruct (calc_node calc_llm (cycles - 1) st) as [u |] eqn:Hu.
      * pose proof (apply_update_history st u (calc_node_keeps_history _ _ _ Hu))
          as Hst.
        destruct (IH cycles tool (apply_update st u)) as (more & Hm & Hc & Hl).
        exists more. rewrite Hm, Hst. repeat split; lia.
      * exists []. cbn [last_state cycles_of length]. rewrite app_nil_r.
        repeat split; lia.
    + (* tool_node *)
      destruct (tool_node tool_error_text st) as [u |] eqn:Hu.
      * pose proof (apply_update_history st u (tool_node_keeps_history _ _ Hu))
          as Hst.
        destruct (IH cycles updating (apply_update st u)) as (more & Hm & Hc & Hl).
        exists more. rewrite Hm, Hst. repeat split; lia.
      * exists []. cbn [last_state cycles_of length]. rewrite app_nil_r.
        repeat split; lia.
    + (* update_node *)
      destruct (update_node exn_text py_str st) as [u |] eqn:Hu.
      * assert (Hst : exists one,
                   st_expression (apply_update st u) = st_expression st ++ one
                   /\ length one <= 1).
        { destruct (update_node_history st u Hu) as [Hn | (new & Hn)].
          - exists []. rewrite (apply_update_history st u Hn), app_nil_r.
            split; [reflexivity | cbn; lia].
          - exists [new]. unfold apply_update. cbn. rewrite Hn.
            split; [reflexivity | cbn; lia]. }
        destruct Hst as (one & Hst & Hone).
        destruct (runs_judge _).
        -- destruct (IH cycles judge (apply_update st u)) as (more & Hm & Hc & Hl).
           exists (one ++ more). rewrite Hm, Hst, app_assoc, length_app.
           repeat split; lia.
        -- exists one. cbn [last_state cycles_of length]. rewrite Hst.
           repeat split; lia.
      * exists []. cbn [last_state cycles_of length]. rewrite app_nil_r.
        repeat split; lia.
Qed.

Lemma update_node_escapes (st : CalcState) (e : exn) :
  update_node exn_text py_str st = Raise e ->
  (exists j, hd_error (rev (st_messages st))
             = Some (ToolMessage (ContentJson j))
             /\ (forall d, j <> JObj d)
             /\ (e = TypeError \/ e = AttributeError))
  \/ (exists d v,
         hd_error (rev (st_messages st))
         = Some (ToolMessage (ContentJson (JObj d)))
         /\ float_of_json (dict_get d (py "value")) = Ok v
         /\ ((is_finite v = false /\ format_number v = Raise e)
             \/ (st_expression st = [] /\ e = IndexError))).
Proof.
  unfold update_node.
  destruct (rev (st_messages st)) as [| [calls | [j | s]] ms] eqn:Hm;
    try discriminate.
  destruct j as [| b | z | f | s | l | d].
  1-6: intros H; left; eexists; split; [reflexivity |]; split;
    [discriminate |].
  1-4: inversion H; now left.
  - cbv beta iota in H. destruct (is_substring _ _); inversion H;
      [now left | now right].
  - cbv beta iota in H. destruct (existsb _ _); inversion H;
      [now left | now right].
  - destruct (dict_has d (py "error")); [discriminate |].
    destruct (dict_get d (py "value")) as [| b | z | f | s | l | d'] eqn:Hv;
      try discriminate.
    all: match goal with
         | |- context [float_of_json ?j] =>
             destruct (float_of_json j) as [v |] eqn:Hf
         end; try discriminate.
    all: destruct (format_number v) as [value_str |] eqn:Hfmt; cbn [bind].
    all: try (intros H; inversion H; subst; right; exists d, v; rewrite Hv;
              split; [reflexivity |]; split; [assumption |]; left;
              split; [| assumption];
              destruct (format_number_raises _ _ Hfmt) as [_ Hv'];
              now destruct v).
    all: match goal with
         | |- context [getitem ?h (-1)%Z] =>
             destruct (getitem_cases h (-1)%Z) as [(_ & cur & -> & _) | (Hout & ->)]
         end; cbn [bind].
    all: try (match goal with
              | |- context [if truthy ?sp then ?a else ?b] =>
                  destruct (if truthy sp then a else b)
              end; discriminate).
    all: intros H; inversion H; subst; right; exists d, v; rewrite Hv;
      split; [reflexivity |]; split; [assumption |]; right;
      split; [| reflexivity];
      destruct (st_expression st); [reflexivity | cbn [length] in Hout; lia].
Qed.

End Nodes.

(** ** The start step *)

(** C6.  [start_node] gives the history [["0"]] to a missing expression
    and to an empty list, and the run then ends at once on ["0"]
    without error, whatever the services.  A bare string becomes the
    one-element history that holds it, and the empty string is no
    exception: it does not get the default.  It is not a single number;
    whatever the services, the history of its run starts with the empty
    string; when the decision service raises on it the run ends at once
    with that failure recorded, and so does the run of the
    deterministic services. *)
Theorem start_node_misses_empty_string :
  start_node ExprMissing = [py "0"]
  /\ start_node (ExprList []) = [py "0"]
  /\ (forall judge_llm calc_llm exn_text py_str tool_error_text fuel,
        invoke judge_llm calc_llm exn_text py_str tool_error_text
               (S fuel) ExprMissing
        = Finished 0 (mkState [py "0"] [] JNull JNull JNull JNull JNull JNull))
  /\ (forall judge_llm calc_llm exn_text py_str tool_error_text fuel,
        invoke judge_llm calc_llm exn_text py_str tool_error_text
               (S fuel) (ExprList [])
        = Finished 0 (mkState [py "0"] [] JNull JNull JNull JNull JNull JNull))
  /\ (forall s, start_node (ExprStr s) = [s])
  /\ start_node (ExprStr (py "")) = [py ""]
  /\ is_single_number (py "") = false
  /\ (forall judge_llm calc_llm exn_text py_str tool_error_text fuel,
        exists more,
          st_expression
            (last_state (invoke judge_llm calc_llm exn_text py_str
                                tool_error_text fuel (ExprStr (py ""))))
          = py "" :: more)
  /\ (forall judge_llm calc_llm exn_text py_str tool_error_text fuel e,
        judge_llm 0 (py "") = Raise e ->
        invoke judge_llm calc_llm exn_text py_str tool_error_text
               (S fuel) (ExprStr (py ""))
        = Finished 0 (mkState [py ""] [] JNull JNull JNull JNull JNull
                              (JStr (py "judge_node failed: " ++ exn_text e))))
  /\ (exists st,
        calculate 1 (ExprStr (py "")) = Finished 0 st
        /\ st_expression st = [py ""]
        /\ st_error st = JStr (py "judge_node failed: ")).
Proof.
  do 7 (split; [reflexivity |]). split; [| split].
  - intros. unfold invoke.
    destruct (run_history judge_llm calc_llm exn_text py_str tool_error_text
                fuel 0 judge (initial_state (ExprStr (py ""))))
      as (more & Hm & _).
    exists more. exact Hm.
  - intros judge_llm calc_llm exn_text py_str tool_error_text fuel e He.
    unfold invoke, initial_state, start_node. cbn [run].
    unfold judge_node. cbn [st_expression rev app].
    change (is_single_number (py "")) with false. cbv iota.
    rewrite He. reflexivity.
  - eexists. split; [vm_compute; reflexivity |]. split; reflexivity.
Qed.

(** ** Runs with any collaborators *)

Lemma start_node_not_empty (e : expression_arg) : start_node e <> [].
Proof. destruct e as [| s | [| a l]]; discriminate. Qed.

Lemma truthy_message (prefix : string) (tail : str) :
  prefix <> EmptyString -> truthy (JStr (py prefix ++ tail)) = true.
Proof. destruct prefix; [congruence | reflexivity]. Qed.


(** X20.  The history is only ever appended to.  Wherever a run stops
    (finished, crashed, or out of fuel), and whatever the
    collaborators answer, the history it started from is a prefix of
    the history it holds, at most one snapshot was added per cycle, and
    the history is not empty. *)
Theorem history_only_grows :
  forall judge_llm calc_llm exn_text py_str tool_error_text fuel,
    (forall cycles st,
        exists more,
          st_expression
            (last_state (run judge_llm calc_llm exn_text py_str
                             tool_error_text fuel cycles judge st))
          = st_expression st ++ more
          /\ length more + cycles
             <= cycles_of (run judge_llm calc_llm exn_text py_str
                               tool_error_text fuel cycles judge st))
    /\ (forall expression,
           exists more,
             st_expression
               (last_state (invoke judge_llm calc_llm exn_text py_str
                                   tool_error_text fuel expression))
             = start_node expression ++ more
             /\ length more
                <= cycles_of (invoke judge_llm calc_llm exn_text py_str
                                     tool_error_text fuel expression)
             /\ st_expression
                  (last_state (invoke judge_llm calc_llm exn_text py_str
                                      tool_error_text fuel expression))
                <> []).
Proof.
  intros. split.
  - intros cycles st.
    destruct (run_history judge_llm calc_llm exn_text py_str tool_error_text
                fuel cycles judge st) as (more & Hm & _ & Hl).
    exists more. split; [assumption | lia].
  - intros expression. unfold invoke.
    destruct (run_history judge_llm calc_llm exn_text py_str tool_error_text
                fuel 0 judge (initial_state expression)) as (more & Hm & _ & Hl).
    exists more. cbn [initial_state st_expression] in Hm.
    split; [assumption |]. split; [lia |].
    rewrite Hm. intros H. apply app_eq_nil in H.
    now apply (start_node_not_empty expression).
Qed.

(** X21.  An expression that is already a single number ends the run at the
    first step: no cycle is started, neither collaborator is asked,
    and the state is returned as it was built. *)
Theorem single_number_run :
  forall judge_llm calc_llm exn_text py_str tool_error_text fuel s,
    is_single_number s = true ->
    invoke judge_llm calc_llm exn_text py_str tool_error_text
           (S fuel) (ExprStr s)
    = Finished 0 (mkState [s] [] JNull JNull JNull JNull JNull JNull).
Proof.
  intros. unfold invoke, initial_state, start_node.
  exact (run_done judge_llm calc_llm exn_text py_str tool_error_text
           fuel 0 [] s [] JNull JNull JNull JNull JNull JNull H).
Qed.

Lemma single_number_run_witness :
  is_single_number (py "-3.5") = true
  /\ invoke failing_judge failing_calc message_of no_text no_text
            1 (ExprStr (py "-3.5"))
     = Finished 0 (mkState [py "-3.5"] [] JNull JNull JNull JNull JNull JNull).
Proof.
  split; [reflexivity |].
  exact (single_number_run failing_judge failing_calc message_of no_text
           no_text 0 (py "-3.5") eq_refl).
Defined.

(** X22.  With an error in the state, [judge_node] is the last node to run:
    the run ends there, in the same cycle, with the history as it was
    and an error still set. *)
Theorem error_ends_run :
  forall judge_llm calc_llm exn_text py_str tool_error_text fuel cycles st,
    truthy (st_error st) = true ->
    route_after_update st = to_end
    /\ exists st',
        run judge_llm calc_llm exn_text py_str tool_error_text
            (S fuel) cycles judge st
        = Finished cycles st'
        /\ st_expression st' = st_expression st
        /\ truthy (st_error st') = true.
Proof.
  intros. split.
  - unfold route_after_update. now rewrite H.
  - now apply run_judge_after_error.
Qed.

Lemma error_ends_run_witness :
  truthy (JStr (py "division by zero")) = true
  /\ exists st',
    run stuck_judge failing_calc message_of no_text no_text 1 3 judge
        (mkState [py "1+1"] [] JNull JNull JNull JNull JNull
                 (JStr (py "division by zero")))
    = Finished 3 st'
    /\ st_expression st' = [py "1+1"]
    /\ truthy (st_error st') = true.
Proof.
  split; [reflexivity |].
  exact (proj2 (error_ends_run stuck_judge failing_calc message_of no_text
                  no_text 0 3
                  (mkState [py "1+1"] [] JNull JNull JNull JNull JNull
                           (JStr (py "division by zero")))
                  eq_refl)).
Defined.

(** X23.  What [update_node] returns is one of two things: an update that
    sets the error and nothing else; or, when the last message is the
    JSON object of a tool with a value and no error, an update that
    appends one snapshot to the history (the formatted value, put in
    at the span when there is one), clears the five fields of the
    pending operation and leaves the error alone. *)
Theorem update_node_outcomes :
  forall exn_text py_str st u,
    update_node exn_text py_str st = Ok u ->
    (exists e, u = error_update e)
    \/ (exists d v value_str cur new_expr,
           hd_error (rev (st_messages st))
           = Some (ToolMessage (ContentJson (JObj d)))
           /\ dict_has d (py "error") = false
           /\ float_of_json (dict_get d (py "value")) = Ok v
           /\ format_number v = Ok value_str
           /\ getitem (st_expression st) (-1) = Ok cur
           /\ (if truthy (st_span st)
               then replace_span_json cur (st_span st) value_str
               else Ok value_str) = Ok new_expr
           /\ u = rewrite_update (st_expression st) new_expr).
Proof. intros exn_text py_str st u. apply update_node_cases. Qed.

Lemma update_node_outcomes_witness :
  let st := mkState [py "1+2*3"]
              [ToolMessage (ContentJson (value_dict (S754_finite false 3 1)))]
              (JStr (py "*")) (JStr (py "2")) (JStr (py "3"))
              (JArr [JInt 2; JInt 5]) (JStr (py "mul")) JNull in
  let u := rewrite_update [py "1+2*3"] (py "1+6") in
  update_node no_text no_text st = Ok u
  /\ ((exists e, u = error_update e)
      \/ (exists d v value_str cur new_expr,
             hd_error (rev (st_messages st))
             = Some (ToolMessage (ContentJson (JObj d)))
             /\ dict_has d (py "error") = false
             /\ float_of_json (dict_get d (py "value")) = Ok v
             /\ format_number v = Ok value_str
             /\ getitem (st_expression st) (-1) = Ok cur
             /\ (if truthy (st_span st)
                 then replace_span_json cur (st_span st) value_str
                 else Ok value_str) = Ok new_expr
             /\ u = rewrite_update (st_expression st) new_expr)).
Proof.
  intros st u. split; [reflexivity |].
  exact (update_node_outcomes no_text no_text st u eq_refl).
Defined.

(** [update_node] where Python is lenient or strict: a value text that
    ends with the separator U+001F is not a number for [float]; a span
    [[0, null]] puts the value in front of the whole expression, since
    [expr[None:]] is [expr]; a span that is a text of two characters is
    unpacked and then fails at the comparison with [0]. *)
Lemma update_node_on_odd_inputs (exn_text : exn -> str) (py_str : json -> str) :
  let messages v := [ToolMessage (ContentJson (JObj [(py "value", v)]))] in
  update_node exn_text py_str
    (mkState [py "1+2*3"] (messages (JStr (py "6" ++ [ascii_of_nat 31])))
             JNull JNull JNull (JArr [JInt 2; JInt 5]) JNull JNull)
  = Ok (error_update
          (JStr (py "invalid value: "
                 ++ py_str (JStr (py "6" ++ [ascii_of_nat 31])))))
  /\ update_node exn_text py_str
       (mkState [py "1+2*3"] (messages (JInt 6))
                JNull JNull JNull (JArr [JInt 0; JNull]) JNull JNull)
     = Ok (rewrite_update [py "1+2*3"] (py "61+2*3"))
  /\ update_node exn_text py_str
       (mkState [py "1+2*3"] (messages (JInt 6))
                JNull JNull JNull (JStr (py "ab")) JNull JNull)
     = Ok (error_update
             (JStr (py "expression update failed: " ++ exn_text TypeError)))
  /\ update_node exn_text py_str
       (mkState [py "1+2*3"] (messages (JInt 6))
                JNull JNull JNull (JArr [JInt 2]) JNull JNull)
     = Ok (error_update
             (JStr (py "expression update failed: " ++ exn_text ValueError))).
Proof. repeat split. Qed.

(** X24.  A failure of the decision service is recorded, not raised.  On an
    expression that is not a single number, an exception of the
    service, or a reply that is not a JSON object, ends the run in the
    same cycle with the error ["judge_node failed: ..."], the history
    and the pending fields as they were. *)
Theorem judge_failure_is_recorded :
  forall judge_llm calc_llm exn_text py_str tool_error_text
         fuel cycles h cur ms op l r sp tl er,
    is_single_number cur = false ->
    (forall e,
        judge_llm cycles cur = Raise e ->
        run judge_llm calc_llm exn_text py_str tool_error_text
            (S fuel) cycles judge (mkState (h ++ [cur]) ms op l r sp tl er)
        = Finished cycles
            (mkState (h ++ [cur]) (ms ++ []) op l r sp tl
                     (JStr (py "judge_node failed: " ++ exn_text e))))
    /\ (forall j,
           judge_llm cycles cur = Ok j ->
           (forall d, j <> JObj d) ->
           run judge_llm calc_llm exn_text py_str tool_error_text
               (S fuel) cycles judge (mkState (h ++ [cur]) ms op l r sp tl er)
           = Finished cycles
               (mkState (h ++ [cur]) (ms ++ []) op l r sp tl
                        (JStr (py "judge_node failed: "
                               ++ exn_text AttributeError)))).
Proof.
  intros until er. intros Hnum. split.
  - intros e He. cbn [run]. unfold judge_node. cbn [st_expression].
    rewrite rev_snoc, Hnum, He.
    unfold apply_update, error_update, route_after_judge.
    cbn [u_expression u_messages u_operator u_lhs u_rhs u_span u_tool u_error
         or_keep st_error st_expression st_messages st_operator st_lhs st_rhs
         st_span st_tool].
    now rewrite truthy_message.
  - intros j Hj Hno. cbn [run]. unfold judge_node. cbn [st_expression].
    rewrite rev_snoc, Hnum, Hj.
    destruct j as [| b | z | f | s | a | d];
      try (now contradiction (Hno d));
      unfold apply_update, error_update, route_after_judge;
      cbn [u_expression u_messages u_operator u_lhs u_rhs u_span u_tool u_error
           or_keep st_error st_expression st_messages st_operator st_lhs st_rhs
           st_span st_tool];
      now rewrite truthy_message.
Qed.

Lemma judge_failure_is_recorded_witness :
  is_single_number (py "1+2") = false
  /\ run failing_judge failing_calc message_of no_text no_text 1 1 judge
         (mkState ([] ++ [py "1+2"]) [] JNull JNull JNull JNull JNull JNull)
     = Finished 1
         (mkState ([] ++ [py "1+2"]) ([] ++ []) JNull JNull JNull JNull JNull
                  (JStr (py "judge_node failed: "
                         ++ message_of (CollaboratorError (py "timeout"))))).
Proof.
  split; [reflexivity |].
  exact (proj1 (judge_failure_is_recorded failing_judge failing_calc message_of
                  no_text no_text 0 1 [] (py "1+2") [] JNull JNull JNull JNull
                  JNull JNull eq_refl)
               (CollaboratorError (py "timeout")) eq_refl).
Defined.

(** X25.  A failure of the computation service is not caught: when the
    decision is taken and the service raises, the exception leaves the
    run, in the cycle that was just started, with the history as it
    was. *)
Theorem calc_failure_escapes :
  forall judge_llm calc_llm exn_text py_str tool_error_text
         fuel cycles h cur ms op l r sp tl er d e,
    is_single_number cur = false ->
    truthy er = false ->
    judge_llm cycles cur = Ok (JObj d) ->
    truthy (dict_get d (py "operator")) = true ->
    calc_llm cycles (dict_get d (py "lhs")) (dict_get d (py "operator"))
             (dict_get d (py "rhs")) = Raise e ->
    run judge_llm calc_llm exn_text py_str tool_error_text
        (2 + fuel) cycles judge (mkState (h ++ [cur]) ms op l r sp tl er)
    = Crashed (S cycles) e
        (mkState (h ++ [cur]) (ms ++ [])
                 (dict_get d (py "operator")) (dict_get d (py "lhs"))
                 (dict_get d (py "rhs")) (dict_get d (py "span"))
                 (dict_get d (py "tool")) er).
Proof.
  intros until e. intros Hnum Her Hj Hop Hc.
  cbn [Nat.add run]. unfold judge_node. cbn [st_expression].
  rewrite rev_snoc, Hnum, Hj.
  unfold apply_update, route_after_judge.
  cbn [u_expression u_messages u_operator u_lhs u_rhs u_span u_tool u_error
       or_keep st_error st_expression st_messages st_operator st_lhs st_rhs
       st_span st_tool].
  rewrite Her, rev_snoc, Hnum, Hop.
  unfold calc_node.
  cbn [st_operator st_lhs st_rhs]. rewrite Hop. cbn [negb].
  replace (S cycles - 1) with cycles by lia.
  now rewrite Hc.
Qed.

Lemma calc_failure_escapes_witness :
  is_single_number (py "1+1") = false
  /\ stuck_judge 0 (py "1+1") = Ok (decision "*" "1" "1" 0 1 "mul")
  /\ failing_calc 0 (JStr (py "1")) (JStr (py "*")) (JStr (py "1"))
     = Raise (CollaboratorError (py "timeout"))
  /\ run stuck_judge failing_calc message_of no_text no_text 2 0 judge
      (mkState ([] ++ [py "1+1"]) [] JNull JNull JNull JNull JNull JNull)
  = Crashed 1 (CollaboratorError (py "timeout"))
      (mkState ([] ++ [py "1+1"]) ([] ++ [])
               (JStr (py "*")) (JStr (py "1")) (JStr (py "1"))
               (JArr [JInt 0; JInt 1]) (JStr (py "mul")) JNull).
Proof.
  split; [reflexivity |]. split; [reflexivity |]. split; [reflexivity |].
  exact (calc_failure_escapes stuck_judge failing_calc message_of no_text
           no_text 0 0 [] (py "1+1") [] JNull JNull JNull JNull JNull JNull
           _ (CollaboratorError (py "timeout"))
           eq_refl eq_refl eq_refl eq_refl eq_refl).
Defined.

(** X26.  [route_after_judge] sends a run to [calc_node] only with an
    operator in the state, so [calc_node] then asks the computation
    service: its own answer ["no operator found"] is never given. *)
Theorem calc_node_asks_the_service :
  forall calc_llm n st,
    route_after_judge st = to_calc_node ->
    truthy (st_operator st) = true
    /\ truthy (st_error st) = false
    /\ calc_node calc_llm n st
       = (response <- calc_llm n (st_lhs st) (st_operator st) (st_rhs st) ;;
          Ok (mkUpdate None [AIMessage response] None None None None None None))
    /\ calc_node calc_llm n st
       <> Ok (error_update (JStr (py "no operator found"))).
Proof.
  intros calc_llm n st Hr.
  assert (Hop : truthy (st_operator st) = true /\ truthy (st_error st) = false).
  { unfold route_after_judge in Hr.
    destruct (truthy (st_error st)); [discriminate |].
    destruct (rev (st_expression st)) as [| cur ?].
    - destruct (truthy (st_operator st)); [now split | discriminate].
    - destruct (is_single_number cur); [discriminate |].
      destruct (truthy (st_operator st)); [now split | discriminate]. }
  destruct Hop as [Hop Her]. split; [assumption |]. split; [assumption |].
  unfold calc_node. rewrite Hop. cbn [negb]. split; [reflexivity |].
  destruct (calc_llm n (st_lhs st) (st_operator st) (st_rhs st)); cbn [bind];
    discriminate.
Qed.

Lemma calc_node_asks_the_service_witness :
  route_after_judge
    (mkState [py "1+1"] [] (JStr (py "+")) (JStr (py "1")) (JStr (py "1"))
             (JArr [JInt 0; JInt 3]) (JStr (py "add")) JNull)
  = to_calc_node
  /\ calc_node failing_calc 0
       (mkState [py "1+1"] [] (JStr (py "+")) (JStr (py "1")) (JStr (py "1"))
                (JArr [JInt 0; JInt 3]) (JStr (py "add")) JNull)
     <> Ok (error_update (JStr (py "no operator found"))).
Proof.
  split; [reflexivity |].
  exact (proj2 (proj2 (proj2
           (calc_node_asks_the_service failing_calc 0
              (mkState [py "1+1"] [] (JStr (py "+")) (JStr (py "1"))
                       (JStr (py "1")) (JArr [JInt 0; JInt 3])
                       (JStr (py "add")) JNull)
              eq_refl)))).
Defined.

(** X27.  The exceptions that leave [update_node].  It raises only when the
    JSON of the last tool message is not an object ([TypeError] or
    [AttributeError]); or when the value is an infinity or a NaN, which
    [format_number] cannot print; or when the history is empty
    ([IndexError]). *)
Theorem update_node_raises :
  forall exn_text py_str st e,
    update_node exn_text py_str st = Raise e ->
    (exists j, hd_error (rev (st_messages st))
               = Some (ToolMessage (ContentJson j))
               /\ (forall d, j <> JObj d)
               /\ (e = TypeError \/ e = AttributeError))
    \/ (exists d v,
           hd_error (rev (st_messages st))
           = Some (ToolMessage (ContentJson (JObj d)))
           /\ float_of_json (dict_get d (py "value")) = Ok v
           /\ ((is_finite v = false /\ format_number v = Raise e)
               \/ (st_expression st = [] /\ e = IndexError))).
Proof. intros exn_text py_str st e. apply update_node_escapes. Qed.

Lemma update_node_raises_witness :
  let st := mkState [py "1e308*10"]
              [ToolMessage (ContentJson (value_dict (S754_infinity false)))]
              (JStr (py "*")) (JStr (py "1e308")) (JStr (py "10"))
              (JArr [JInt 0; JInt 8]) (JStr (py "mul")) JNull in
  update_node no_text no_text st = Raise OverflowError
  /\ ((exists j, hd_error (rev (st_messages st))
                 = Some (ToolMessage (ContentJson j))
                 /\ (forall d, j <> JObj d)
                 /\ (OverflowError = TypeError \/ OverflowError = AttributeError))
      \/ (exists d v,
             hd_error (rev (st_messages st))
             = Some (ToolMessage (ContentJson (JObj d)))
             /\ float_of_json (dict_get d (py "value")) = Ok v
             /\ ((is_finite v = false /\ format_number v = Raise OverflowError)
                 \/ (st_expression st = [] /\ OverflowError = IndexError)))).
Proof.
  intros st. split; [reflexivity |].
  exact (update_node_raises no_text no_text st OverflowError eq_refl).
Defined.
